(** * Verification of the HTML/Razor tokenizer, the scrollbar state and the
    configuration service of the editor sources.

  The development follows the TypeScript sources:
  - [vs/languages/html/common/html.ts]  (States, State, HTMLMode),
  - [vs/languages/razor/common/razor.ts] (RAZORState, RAZORMode),
  - [vs/base/browser/ui/scrollbar/abstractScrollbar.ts] (ScrollbarState),
  - [vs/platform/configuration/common/configurationService.ts].

  The first part embeds the code: one module per source class, with the
  names of the source.  The second part proves the properties: lemmas on
  strings and streams, a symbolic execution of [tokenize], and one theorem
  per claim. *)

From Stdlib Require Import ZArith QArith Qround Lqa Lia Bool Ascii.
From Stdlib Require String.
From stdpp Require Import base option gmap strings list fin_maps.

Set Default Proof Using "Type".

(** ** JavaScript strings

  A JavaScript string is a sequence of code units.  The model uses Rocq
  strings, that is sequences of code units below 256 (the Latin-1 range);
  lines with larger code units are outside the model. *)

Module JsString.

Definition code (c : ascii) : nat := nat_of_ascii c.

Definition inRange (lo hi : nat) (c : ascii) : bool :=
  (lo <=? code c) && (code c <=? hi).

Definition isChar (a c : ascii) : bool :=
  if ascii_dec a c then true else false.

(** [s.length] *)
Definition length (s : string) : nat := String.length s.

(** [s.substr(n)]: the suffix that starts at index [n]. *)
Fixpoint drop (n : nat) (s : string) : string :=
  match n, s with
  | 0, _ => s
  | S n', String _ s' => drop n' s'
  | S _, EmptyString => EmptyString
  end.

(** The prefix of at most [n] code units. *)
Fixpoint take (n : nat) (s : string) : string :=
  match n, s with
  | 0, _ => EmptyString
  | S n', String c s' => String c (take n' s')
  | S _, EmptyString => EmptyString
  end.

(** [s.substring(a, b)]: both indices are clamped to the length and
    swapped when [a > b]. *)
Definition substring (a b : nat) (s : string) : string :=
  let lo := Nat.min a b in
  let hi := Nat.max a b in
  take (hi - lo) (drop lo s).

(** [s[i]] and [s.charCodeAt(i)]: [None] stands for [undefined] and for
    [NaN]. *)
Definition charAt (i : nat) (s : string) : option ascii :=
  match drop i s with
  | String c _ => Some c
  | EmptyString => None
  end.

(** [c.toLowerCase()] on one code unit of the Latin-1 range. *)
Definition lowerChar (c : ascii) : ascii :=
  if inRange 65 90 c then ascii_of_nat (code c + 32)
  else if inRange 192 222 c && negb (code c =? 215)
       then ascii_of_nat (code c + 32)
  else c.

(** [s.toLowerCase()] *)
Fixpoint toLowerCase (s : string) : string :=
  match s with
  | EmptyString => EmptyString
  | String c s' => String (lowerChar c) (toLowerCase s')
  end.

(** [a === b] on strings. *)
Definition eqb (a b : string) : bool := bool_decide (a = b).

(** [p] is a prefix of [s], code unit by code unit. *)
Fixpoint startsWith (p s : string) : bool :=
  match p, s with
  | EmptyString, _ => true
  | String a p', String b s' => isChar a b && startsWith p' s'
  | String _ _, EmptyString => false
  end.

(** The same comparison after [toLowerCase] of each code unit. *)
Fixpoint startsWithIgnoreCase (p s : string) : bool :=
  match p, s with
  | EmptyString, _ => true
  | String a p', String b s' =>
      isChar (lowerChar a) (lowerChar b) && startsWithIgnoreCase p' s'
  | String _ _, EmptyString => false
  end.

(** [s.indexOf(p)]: the least index at which [p] occurs in [s]. *)
Fixpoint indexOf (p s : string) : option nat :=
  if startsWith p s then Some 0
  else match s with
       | EmptyString => None
       | String _ s' => S <$> indexOf p s'
       end.

(** Number of leading code units of [s] that satisfy [f]. *)
Fixpoint span (f : ascii -> bool) (s : string) : nat :=
  match s with
  | String c s' => if f c then S (span f s') else 0
  | EmptyString => 0
  end.

(** [s.replace(/[...]/g, r)] for a character class and a one-unit
    replacement. *)
Fixpoint replaceClass (f : ascii -> bool) (r : ascii) (s : string) : string :=
  match s with
  | EmptyString => EmptyString
  | String c s' => String (if f c then r else c) (replaceClass f r s')
  end.

(** *** Character classes of the regular expressions of the sources *)

(** [\s] restricted to code units below 256. *)
Definition isSpace (c : ascii) : bool :=
  inRange 9 13 c || (code c =? 32) || (code c =? 160).

(** [\d] *)
Definition isDigit (c : ascii) : bool := inRange 48 57 c.

(** [\w] *)
Definition isWord (c : ascii) : bool :=
  inRange 65 90 c || inRange 97 122 c || isDigit c || (code c =? 95).

End JsString.

(** ** Results of effectful code

    A method either returns a value or throws; [OutOfFuel] is the answer of
    a recursive method whose call depth exceeds the fuel it was given. *)

Inductive result (A : Type) : Type :=
| Ok (a : A)
| Throw (msg : string)
| OutOfFuel.
Arguments Ok {A} a.
Arguments Throw {A} msg.
Arguments OutOfFuel {A}.

(** ** The character stream

    Modelled from the spec: the stream interface [modes.IStream] and its
    implementation (a line and a read position) are not part of the listed
    sources; each method is modelled by the contract that its name and its
    use in [State.tokenize] give it.  The methods whose name ends in [2]
    return the number of code units consumed, the others the text consumed. *)

Module LineStream.

Record t : Type := mk { _source : string; _pos : nat }.

(** The text that has not been read yet. *)
Definition rest (s : t) : string := JsString.drop (_pos s) (_source s).

Definition pos (s : t) : nat := _pos s.

Definition eos (s : t) : bool := JsString.length (_source s) <=? _pos s.

(** [this._pos += n] *)
Definition advanceBy (n : nat) (s : t) : t :=
  {| _source := _source s; _pos := _pos s + n |}.

Definition _advance2 (n : nat) (s : t) : nat * t := (n, advanceBy n s).

Definition advance (n : nat) (s : t) : string * t :=
  (JsString.substring (_pos s) (_pos s + n) (_source s), advanceBy n s).

Definition peek (s : t) : result ascii * t :=
  match JsString.charAt (_pos s) (_source s) with
  | Some c => (Ok c, s)
  | None => (Throw "Stream is at the end", s)
  end.

Definition next (s : t) : result ascii * t :=
  match JsString.charAt (_pos s) (_source s) with
  | Some c => (Ok c, advanceBy 1 s)
  | None => (Throw "Stream is at the end", s)
  end.

Definition next2 (s : t) : result unit * t :=
  match JsString.charAt (_pos s) (_source s) with
  | Some c => (Ok tt, advanceBy 1 s)
  | None => (Throw "Stream is at the end", s)
  end.

Definition _advanceIfCharCode (charCode : ascii) (s : t) : nat :=
  match JsString.charAt (_pos s) (_source s) with
  | Some c => if JsString.isChar charCode c then 1 else 0
  | None => 0
  end.

Definition advanceIfCharCode2 (charCode : ascii) (s : t) : nat * t :=
  _advance2 (_advanceIfCharCode charCode s) s.

Definition _advanceIfString (condition : string) (s : t) : nat :=
  if JsString.startsWith condition (rest s)
  then JsString.length condition else 0.

Definition advanceIfString2 (condition : string) (s : t) : nat * t :=
  _advance2 (_advanceIfString condition s) s.

Definition _advanceIfStringCaseInsensitive (condition : string) (s : t) : nat :=
  if JsString.startsWithIgnoreCase condition (rest s)
  then JsString.length condition else 0.

Definition advanceIfStringCaseInsensitive2 (condition : string) (s : t)
  : nat * t :=
  _advance2 (_advanceIfStringCaseInsensitive condition s) s.

(** Up to the first occurrence of [condition] (after it when [including]),
    or up to the end of the line when there is none. *)
Definition _advanceUntilString (condition : string) (including : bool) (s : t)
  : nat :=
  match JsString.indexOf condition (rest s) with
  | None => JsString.length (rest s)
  | Some i => if including then i + JsString.length condition else i
  end.

Definition advanceUntilString2 (condition : string) (including : bool) (s : t)
  : nat * t :=
  _advance2 (_advanceUntilString condition including s) s.

Definition advanceUntilString (condition : string) (including : bool) (s : t)
  : string * t :=
  advance (_advanceUntilString condition including s) s.

(** The white space of a line stream: tab, space and no-break space. *)
Definition isWhitespace (c : ascii) : bool :=
  (JsString.code c =? 9) || (JsString.code c =? 32) || (JsString.code c =? 160).

Definition skipWhitespace2 (s : t) : nat * t :=
  _advance2 (JsString.span isWhitespace (rest s)) s.

(** The regular expressions of the tokenizer are anchored at the read
    position and built from character classes only. *)
Inductive RegExp : Type :=
| ReStar (cls : ascii -> bool)
| RePlus (cls : ascii -> bool)
| ReSeq (cls : ascii -> bool) (r : RegExp).

(** Length of the (greedy) match of [re] at the start of [s]. *)
Fixpoint lastMatchLength (re : RegExp) (s : string) : option nat :=
  match re with
  | ReStar cls => Some (JsString.span cls s)
  | RePlus cls =>
      let n := JsString.span cls s in
      if n =? 0 then None else Some n
  | ReSeq cls r =>
      match s with
      | String c s' => if cls c then S <$> lastMatchLength r s' else None
      | EmptyString => None
      end
  end.

Definition _advanceIfRegExp (condition : RegExp) (s : t) : nat :=
  if eos s then 0
  else match lastMatchLength condition (rest s) with
       | Some n => n
       | None => 0
       end.

Definition advanceIfRegExp (condition : RegExp) (s : t) : string * t :=
  advance (_advanceIfRegExp condition s) s.

End LineStream.

(** ** html.ts: the tokenizer state *)

Module Html.

Inductive States : Type :=
| Content
| OpeningStartTag
| OpeningEndTag
| WithinDoctype
| WithinTag
| WithinComment
| WithinEmbeddedContent
| AttributeName
| AttributeValue.

#[global] Instance States_eq_dec : EqDecision States.
Proof. solve_decision. Defined.

(** list of elements that embed other content *)
Definition tagsEmbeddingContent : list string := ["script"; "style"].

(** [arr.indexOf(x) !== -1] *)
Definition listContains (l : list string) (x : string) : bool :=
  existsb (JsString.eqb x) l.

(** The fields of [State]; [None] is JavaScript's [null]. *)
Record State : Type := mkState {
  kind : States;
  lastTagName : string;
  lastAttributeName : option string;
  embeddedContentType : option string;
  attributeValueQuote : string;
  attributeValue : string
}.

(** The token types are constants of the modules [htmlTokenTypes] and
    [razorTokenTypes], which are not part of the listed sources; they are kept
    symbolic.  [lit s] is a string literal of the tokenizer itself. *)
Inductive tokenType : Type :=
| lit (s : string)
| COMMENT
| DELIM_COMMENT
| DOCTYPE
| DELIM_DOCTYPE
| DELIM_END
| DELIM_START
| DELIM_ASSIGN
| ATTRIB_NAME
| ATTRIB_VALUE
| getTag (name : string)
| EMBED_CS.

(** The C# states that the Razor tokenizer hands over to; [parent] is the
    state that created them. *)
Inductive nextStateT : Type :=
| CSComment (parent : State) (commentChar : string)
| CSStatement (parent : State) (level plevel : Z)
    (razorMode expression firstToken firstTokenWasKeyword : bool).

(** [modes.ITokenizationResult]; an absent [dontMergeWithPrev] is [false]. *)
Record ITokenizationResult : Type := mkResult {
  type : option tokenType;
  dontMergeWithPrev : bool;
  nextState : option nextStateT
}.

Definition token (ty : tokenType) : ITokenizationResult :=
  {| type := Some ty; dontMergeWithPrev := false; nextState := None |}.

Definition delimiter (ty : tokenType) : ITokenizationResult :=
  {| type := Some ty; dontMergeWithPrev := true; nextState := None |}.

(** *** The objects a call of [tokenize] works on: the state [this] and the
    stream, both mutated in place. *)

Record world : Type := mkWorld { this : State; stream : LineStream.t }.

Definition M (A : Type) : Type := world -> result A * world.

Definition ret {A} (a : A) : M A := fun w => (Ok a, w).

Definition bind {A B} (m : M A) (k : A -> M B) : M B :=
  fun w =>
    match m w with
    | (Ok a, w') => k a w'
    | (Throw msg, w') => (Throw msg, w')
    | (OutOfFuel, w') => (OutOfFuel, w')
    end.

Definition outOfFuel {A} : M A := fun w => (OutOfFuel, w).

Declare Scope tok_scope.
Delimit Scope tok_scope with tok.
Notation "x <- m ;; k" := (bind m (fun x => k))
  (at level 100, m at next level, k at level 200, right associativity)
  : tok_scope.
Notation "m ;; k" := (bind m (fun _ => k))
  (at level 100, k at level 200, right associativity) : tok_scope.

(** Reading and assigning the fields of [this]. *)
Definition get {A} (field : State -> A) : M A :=
  fun w => (Ok (field (this w)), w).

Definition assign (f : State -> State) : M unit :=
  fun w => (Ok tt, {| this := f (this w); stream := stream w |}).

Definition set_kind (k : States) (s : State) : State :=
  mkState k (lastTagName s) (lastAttributeName s) (embeddedContentType s)
    (attributeValueQuote s) (attributeValue s).
Definition set_lastTagName (x : string) (s : State) : State :=
  mkState (kind s) x (lastAttributeName s) (embeddedContentType s)
    (attributeValueQuote s) (attributeValue s).
Definition set_lastAttributeName (x : option string) (s : State) : State :=
  mkState (kind s) (lastTagName s) x (embeddedContentType s)
    (attributeValueQuote s) (attributeValue s).
Definition set_embeddedContentType (x : option string) (s : State) : State :=
  mkState (kind s) (lastTagName s) (lastAttributeName s) x
    (attributeValueQuote s) (attributeValue s).
Definition set_attributeValueQuote (x : string) (s : State) : State :=
  mkState (kind s) (lastTagName s) (lastAttributeName s)
    (embeddedContentType s) x (attributeValue s).
Definition set_attributeValue (x : string) (s : State) : State :=
  mkState (kind s) (lastTagName s) (lastAttributeName s)
    (embeddedContentType s) (attributeValueQuote s) x.

(** Calling a method of the stream. *)
Definition call {A} (method : LineStream.t -> A * LineStream.t) : M A :=
  fun w =>
    let (a, s') := method (stream w) in
    (Ok a, {| this := this w; stream := s' |}).

Definition callThrowing {A} (method : LineStream.t -> result A * LineStream.t)
  : M A :=
  fun w =>
    let (r, s') := method (stream w) in
    (r, {| this := this w; stream := s' |}).

Definition eos : M bool := fun w => (Ok (LineStream.eos (stream w)), w).

(** A number used as a condition is true when it is not zero. *)
Definition truthy (n : nat) : bool := negb (n =? 0).

(** [c] as a string of one code unit. *)
Definition str (c : ascii) : string := String c EmptyString.

(** [s === t] when [s] may be [null]. *)
Definition isStr (s : option string) (t : string) : bool :=
  match s with
  | Some s' => JsString.eqb s' t
  | None => false
  end.

(** The code units of the two quotes. *)
Definition dquote : ascii := "034".
Definition squote : ascii := "039".

(** *** The regular expressions of [State] *)

(** [[_:\w]] *)
Definition nameStart (c : ascii) : bool :=
  JsString.isChar "_" c || JsString.isChar ":" c || JsString.isWord c.

(** [[_:\w-.\d]] *)
Definition nameChar (c : ascii) : bool :=
  JsString.isChar "_" c || JsString.isChar ":" c || JsString.isWord c
  || JsString.isChar "-" c || JsString.isChar "." c || JsString.isDigit c.

(** The negated class of [nextAttributeName]: no white space, quote, [>],
    [/], [=], and no code unit in 00-0F, 7F or 80-9F. *)
Definition attributeNameChar (c : ascii) : bool :=
  negb (JsString.isSpace c || JsString.isChar dquote c || JsString.isChar squote c
        || JsString.isChar ">" c || JsString.isChar "/" c
        || JsString.isChar "=" c || JsString.inRange 0 15 c
        || (JsString.code c =? 127) || JsString.inRange 128 159 c).

(** The negated class of an unquoted attribute value: no white space,
    quote, back quote, [=], [<] or [>]. *)
Definition unquotedValueChar (c : ascii) : bool :=
  negb (JsString.isSpace c || JsString.isChar dquote c || JsString.isChar squote c
        || JsString.isChar "`" c || JsString.isChar "=" c
        || JsString.isChar "<" c || JsString.isChar ">" c).

(** [/^[_:\w][_:\w-.\d]*/] *)
Definition elementNameRegExp : LineStream.RegExp :=
  LineStream.ReSeq nameStart (LineStream.ReStar nameChar).

(** The regular expression of [nextAttributeName]: that class, starred. *)
Definition attributeNameRegExp : LineStream.RegExp :=
  LineStream.ReStar attributeNameChar.

(** The regular expression of an unquoted value: that class, one or more
    times. *)
Definition unquotedValueRegExp : LineStream.RegExp :=
  LineStream.RePlus unquotedValueChar.

(** *** The methods of [State] *)

Local Open Scope tok_scope.

(** [[:_.]], the class that [escapeTagName] replaces by a dash. *)
Definition escapedChar (c : ascii) : bool :=
  JsString.isChar ":" c || JsString.isChar "_" c || JsString.isChar "." c.

Definition escapeTagName (s : string) : tokenType :=
  getTag (JsString.replaceClass escapedChar "-" s).

Definition nextElementName : M string :=
  s <- call (LineStream.advanceIfRegExp elementNameRegExp) ;;
  ret (JsString.toLowerCase s).

Definition nextAttributeName : M string :=
  s <- call (LineStream.advanceIfRegExp attributeNameRegExp) ;;
  ret (JsString.toLowerCase s).

Definition charIs (c : ascii) (o : option ascii) : bool :=
  match o with
  | Some c' => JsString.isChar c c'
  | None => false
  end.

Definition unquote (value : string) : string :=
  let start := 0 in
  let end_ := JsString.length value in
  let start := if charIs dquote (JsString.charAt 0 value)
               then start + 1 else start in
  let end_ := if (0 <? end_) && charIs dquote (JsString.charAt (end_ - 1) value)
              then end_ - 1 else end_ in
  JsString.substring start end_ value.

(** ['script' === name || 'style' === name] *)
Definition isScriptOrStyle (name : string) : bool :=
  JsString.eqb "script" name || JsString.eqb "style" name.

(** The quote is the double or the single quote, as a string of one unit. *)
Definition isQuote (q : string) : bool :=
  JsString.eqb q (str dquote) || JsString.eqb q (str squote).

(** [stream.skipWhitespace2() || stream.eos()] *)
Definition skippedWhitespaceOrEos : M bool :=
  n <- call LineStream.skipWhitespace2 ;;
  if truthy n then ret true else eos.

(** [!stream.eos() && stream.peek() === c] *)
Definition notEosAndPeekIs (c : ascii) : M bool :=
  e <- eos ;;
  if e then ret false
  else ch <- callThrowing LineStream.peek ;; ret (JsString.isChar c ch).

(** The statements after the [switch], reached by every [break]. *)
Definition afterSwitch : M ITokenizationResult :=
  callThrowing LineStream.next2 ;;
  assign (set_kind Content) ;;
  ret (token (lit EmptyString)).

(** One activation of [tokenize]; [thisTokenize] is the method that the
    virtual call [this.tokenize(stream)] reaches. *)
Definition tokenizeBody (thisTokenize : M ITokenizationResult)
  : M ITokenizationResult :=
  k <- get kind ;;
  match k with
  | WithinComment =>
      n <- call (LineStream.advanceUntilString2 "-->" false) ;;
      if truthy n then ret (token COMMENT)
      else
        n <- call (LineStream.advanceIfString2 "-->") ;;
        if truthy n then
          assign (set_kind Content) ;;
          ret (delimiter DELIM_COMMENT)
        else afterSwitch
  | WithinDoctype =>
      n <- call (LineStream.advanceUntilString2 ">" false) ;;
      if truthy n then ret (token DOCTYPE)
      else
        n <- call (LineStream.advanceIfString2 ">") ;;
        if truthy n then
          assign (set_kind Content) ;;
          ret (delimiter DELIM_DOCTYPE)
        else afterSwitch
  | Content =>
      let tagDelimiter :=
        n <- call (LineStream.advanceIfCharCode2 "/") ;;
        if truthy n then
          assign (set_kind OpeningEndTag) ;;
          ret (delimiter DELIM_END)
        else
          assign (set_kind OpeningStartTag) ;;
          ret (delimiter DELIM_START) in
      n <- call (LineStream.advanceIfCharCode2 "<") ;;
      if truthy n then
        bang <- notEosAndPeekIs "!" ;;
        if bang then
          n <- call (LineStream.advanceIfString2 "!--") ;;
          if truthy n then
            assign (set_kind WithinComment) ;;
            ret (delimiter DELIM_COMMENT)
          else
            n <- call (LineStream.advanceIfStringCaseInsensitive2 "!DOCTYPE") ;;
            if truthy n then
              assign (set_kind WithinDoctype) ;;
              ret (delimiter DELIM_DOCTYPE)
            else tagDelimiter
        else tagDelimiter
      else afterSwitch
  | OpeningEndTag =>
      tagName <- nextElementName ;;
      if 0 <? JsString.length tagName then
        ret (token (escapeTagName tagName))
      else
        n <- call (LineStream.advanceIfString2 ">") ;;
        if truthy n then
          assign (set_kind Content) ;;
          ret (delimiter DELIM_END)
        else
          call (LineStream.advanceUntilString2 ">" false) ;;
          ret (token (lit EmptyString))
  | OpeningStartTag =>
      name <- nextElementName ;;
      assign (set_lastTagName name) ;;
      tag <- get lastTagName ;;
      if 0 <? JsString.length tag then
        assign (set_lastAttributeName None) ;;
        (if isScriptOrStyle tag then
           assign (set_lastAttributeName None) ;;
           assign (set_embeddedContentType None)
         else ret tt) ;;
        assign (set_kind WithinTag) ;;
        tag <- get lastTagName ;;
        ret (token (escapeTagName tag))
      else afterSwitch
  | WithinTag =>
      blank <- skippedWhitespaceOrEos ;;
      if blank then
        assign (set_lastAttributeName (Some EmptyString)) ;;
        ret (token (lit EmptyString))
      else
        let closeTag :=
          n <- call (LineStream.advanceIfString2 "/>") ;;
          if truthy n then
            assign (set_kind Content) ;;
            ret (delimiter DELIM_START)
          else
            n <- call (LineStream.advanceIfCharCode2 ">") ;;
            if truthy n then
              tag <- get lastTagName ;;
              if listContains tagsEmbeddingContent tag then
                assign (set_kind WithinEmbeddedContent) ;;
                ret (delimiter DELIM_START)
              else
                assign (set_kind Content) ;;
                ret (delimiter DELIM_START)
            else
              callThrowing LineStream.next2 ;;
              ret (token (lit EmptyString)) in
        attr <- get lastAttributeName ;;
        if isStr attr EmptyString then
          name <- nextAttributeName ;;
          if 0 <? JsString.length name then
            assign (set_lastAttributeName (Some name)) ;;
            assign (set_kind AttributeName) ;;
            ret (token ATTRIB_NAME)
          else closeTag
        else closeTag
  | AttributeName =>
      blank <- skippedWhitespaceOrEos ;;
      if blank then ret (token (lit EmptyString))
      else
        n <- call (LineStream.advanceIfCharCode2 "=") ;;
        if truthy n then
          assign (set_kind AttributeValue) ;;
          ret (token DELIM_ASSIGN)
        else
          assign (set_kind WithinTag) ;;
          assign (set_lastAttributeName (Some EmptyString)) ;;
          thisTokenize
  | AttributeValue =>
      e <- eos ;;
      if e then ret (token (lit EmptyString))
      else
        n <- call LineStream.skipWhitespace2 ;;
        if truthy n then
          quote <- get attributeValueQuote ;;
          if isQuote quote then ret (token ATTRIB_VALUE)
          else ret (token (lit EmptyString))
        else
          quote <- get attributeValueQuote ;;
          if isQuote quote then
            value <- get attributeValue ;;
            tag <- get lastTagName ;;
            attr <- get lastAttributeName ;;
            if JsString.eqb value quote && isScriptOrStyle tag
               && isStr attr "type" then
              text <- call (LineStream.advanceUntilString quote true) ;;
              assign (set_attributeValue text) ;;
              value <- get attributeValue ;;
              if 0 <? JsString.length value then
                assign (set_embeddedContentType (Some (unquote value))) ;;
                assign (set_kind WithinTag) ;;
                assign (set_attributeValue EmptyString) ;;
                assign (set_attributeValueQuote EmptyString) ;;
                ret (token ATTRIB_VALUE)
              else afterSwitch
            else
              n <- match JsString.charAt 0 quote with
                   | Some c => call (LineStream.advanceIfCharCode2 c)
                   | None => ret 0
                   end ;;
              (if truthy n then
                 assign (set_kind WithinTag) ;;
                 assign (set_attributeValue EmptyString) ;;
                 assign (set_attributeValueQuote EmptyString) ;;
                 assign (set_lastAttributeName None)
               else
                 part <- callThrowing LineStream.next ;;
                 value <- get attributeValue ;;
                 assign (set_attributeValue (value +:+ str part))) ;;
              ret (token ATTRIB_VALUE)
          else
            text <- call (LineStream.advanceIfRegExp unquotedValueRegExp) ;;
            if 0 <? JsString.length text then
              assign (set_kind WithinTag) ;;
              assign (set_lastAttributeName None) ;;
              ret (token ATTRIB_VALUE)
            else
              ch <- callThrowing LineStream.peek ;;
              if JsString.isChar squote ch || JsString.isChar dquote ch then
                assign (set_attributeValueQuote (str ch)) ;;
                assign (set_attributeValue (str ch)) ;;
                callThrowing LineStream.next2 ;;
                ret (token ATTRIB_VALUE)
              else
                assign (set_kind WithinTag) ;;
                assign (set_lastAttributeName None) ;;
                thisTokenize
  | WithinEmbeddedContent => afterSwitch
  end.

(** [State.prototype.tokenize] run on an object whose class overrides
    [tokenize] by [override] (given the inherited method, [override] is the
    method of the class).  [fuel] bounds the depth of the nested calls. *)
Fixpoint tokenizeIn (override : M ITokenizationResult -> M ITokenizationResult)
    (fuel : nat) : M ITokenizationResult :=
  match fuel with
  | 0 => outOfFuel
  | S fuel' => tokenizeBody (override (tokenizeIn override fuel'))
  end.

(** [tokenize] of a [State] object: the class does not override it. *)
Definition tokenize (fuel : nat) : M ITokenizationResult :=
  tokenizeIn (fun inherited => inherited) fuel.

End Html.

(** *** Repeated calls

    A line is tokenized by calling [tokenize] until the stream is at its
    end; [steps] bounds the number of calls and [depth] is the fuel of each
    call.  The answer is [None] when the calls are used up before the end of
    the line, or when a call does not return a token. *)

Fixpoint tokenizeLine (depth steps : nat) (w : Html.world)
  : option (list Html.ITokenizationResult * Html.world) :=
  if LineStream.eos (Html.stream w) then Some ([], w)
  else
    match steps with
    | 0 => None
    | S steps' =>
        match Html.tokenize depth w with
        | (Ok r, w') =>
            match tokenizeLine depth steps' w' with
            | Some (rs, w'') => Some (r :: rs, w'')
            | None => None
            end
        | (_, _) => None
        end
    end.

(** ** razor.ts: the Razor state *)

Module Razor.
Import Html.
Local Open Scope tok_scope.

(** [stream.eos() || stream.peek() !== c] *)
Definition eosOrPeekIsNot (c : ascii) : M bool :=
  e <- eos ;;
  if e then ret true
  else ch <- callThrowing LineStream.peek ;; ret (negb (JsString.isChar c ch)).

(** [RAZORState.prototype.tokenize]; [inherited] is [super.tokenize]. *)
Definition tokenizeOverride (inherited : M ITokenizationResult)
  : M ITokenizationResult :=
  at_ <- notEosAndPeekIs "@" ;;
  if at_ then
    callThrowing LineStream.next ;;
    star <- notEosAndPeekIs "*" ;;
    if star then
      parent <- get (fun s => s) ;;
      ret {| type := None; dontMergeWithPrev := false;
             nextState := Some (CSComment parent "@") |}
    else
      code <- eosOrPeekIsNot "@" ;;
      if code then
        parent <- get (fun s => s) ;;
        ret {| type := Some EMBED_CS; dontMergeWithPrev := false;
               nextState :=
                 Some (CSStatement parent 0 0 true true true false) |}
      else inherited
  else inherited.

(** [tokenize] of a [RAZORState] object.  The inherited method runs on the
    same object, so its calls of [this.tokenize] reach the override again. *)
Definition tokenize (fuel : nat) : M ITokenizationResult :=
  tokenizeOverride (tokenizeIn tokenizeOverride fuel).

End Razor.

(** ** html.ts and razor.ts: the modes *)

Module HTMLMode.
Import Html.

(** The class of a state object. *)
Inductive stateClass : Type := StateClass | RAZORStateClass.

(** [modes.IState]: an HTML state (of class [State] or of its subclass
    [RAZORState]) or a state of another mode. *)
Inductive IState : Type :=
| StateObject (cls : stateClass) (fields : State)
| OtherState (modeId : string).

Definition getInitialState : IState :=
  StateObject StateClass
    (mkState Content EmptyString (Some EmptyString) (Some EmptyString)
       EmptyString EmptyString).

(** [state instanceof State && state.kind === States.WithinEmbeddedContent] *)
Definition enterNestedMode (state : IState) : bool :=
  match state with
  | StateObject _ fields => bool_decide (kind fields = WithinEmbeddedContent)
  | OtherState _ => false
  end.

(** *** The regular expression of [getLeavingNestedModeData]

    [new RegExp('<\\/' + tagName + '\\s*>', 'i')] reads the tag name as
    regular expression source.  The model covers the tag names that
    [nextElementName] can store: of the code units of such a name only the
    dot is special, it matches every code unit but a line terminator. *)

Inductive patternItem : Type :=
| Literal (c : ascii)
| AnyChar.

Definition compileChar (c : ascii) : option patternItem :=
  if JsString.isChar "." c then Some AnyChar
  else if nameChar c then Some (Literal c)
  else None.

Fixpoint compileTagName (tagName : string) : option (list patternItem) :=
  match tagName with
  | EmptyString => Some []
  | String c s =>
      match compileChar c, compileTagName s with
      | Some i, Some l => Some (i :: l)
      | _, _ => None
      end
  end.

Definition isLineTerminator (c : ascii) : bool :=
  (JsString.code c =? 10) || (JsString.code c =? 13).

Definition matchItem (i : patternItem) (c : ascii) : bool :=
  match i with
  | Literal a => JsString.isChar (JsString.lowerChar a) (JsString.lowerChar c)
  | AnyChar => negb (isLineTerminator c)
  end.

(** The text behind a match of the items at the start of [s]. *)
Fixpoint matchItems (items : list patternItem) (s : string) : option string :=
  match items, s with
  | [], _ => Some s
  | i :: items', String c s' =>
      if matchItem i c then matchItems items' s' else None
  | _ :: _, EmptyString => None
  end.

(** The whole expression matches at the start of [s]. *)
Definition matchesAtStart (items : list patternItem) (s : string) : bool :=
  match s with
  | String c1 (String c2 s') =>
      JsString.isChar "<" c1 && JsString.isChar "/" c2 &&
      match matchItems items s' with
      | Some r =>
          JsString.startsWith ">"
            (JsString.drop (JsString.span JsString.isSpace r) r)
      | None => false
      end
  | _ => false
  end.

(** [regexp.exec(line)]: the index of the leftmost match. *)
Fixpoint exec (items : list patternItem) (line : string) : option nat :=
  if matchesAtStart items line then Some 0
  else match line with
       | EmptyString => None
       | String _ line' => S <$> exec items line'
       end.

Record ILeavingNestedModeData : Type := mkLeaving {
  nestedModeBuffer : string;
  bufferAfterNestedMode : string;
  stateAfterNestedMode : IState
}.

(** [HTMLMode.getLeavingNestedModeData] on a state with the given fields.
    The outer [None] says that the tag name is outside the modelled regular
    expressions, the inner one is JavaScript's [null]. *)
Definition getLeavingNestedModeData (line : string) (state : State)
  : option (option ILeavingNestedModeData) :=
  let tagName := lastTagName state in
  match compileTagName tagName with
  | None => None
  | Some regexp =>
      match exec regexp line with
      | Some index =>
          Some (Some
            {| nestedModeBuffer := JsString.substring 0 index line;
               bufferAfterNestedMode :=
                 JsString.substring index (JsString.length line) line;
               stateAfterNestedMode :=
                 StateObject StateClass
                   (mkState Content EmptyString (Some EmptyString)
                      (Some EmptyString) EmptyString EmptyString) |})
      | None => Some None
      end
  end.

End HTMLMode.

Module RAZORMode.
Import Html HTMLMode.

(** [RAZORMode.getLeavingNestedModeData]: the inherited result with a
    [RAZORState] as the state after the nested mode. *)
Definition getLeavingNestedModeData (line : string) (state : State)
  : option (option ILeavingNestedModeData) :=
  match HTMLMode.getLeavingNestedModeData line state with
  | Some (Some leavingNestedModeData) =>
      Some (Some
        {| nestedModeBuffer := nestedModeBuffer leavingNestedModeData;
           bufferAfterNestedMode := bufferAfterNestedMode leavingNestedModeData;
           stateAfterNestedMode :=
             StateObject RAZORStateClass
               (mkState Content EmptyString (Some EmptyString)
                  (Some EmptyString) EmptyString EmptyString) |})
  | other => other
  end.

End RAZORMode.

(** The stream is not at its end and its next code unit is [c]. *)
Definition peekIs (c : ascii) (s : LineStream.t) : bool :=
  match LineStream.rest s with
  | String c' _ => JsString.isChar c c'
  | EmptyString => false
  end.

(** Number of code units between the read position and the end of the
    line. *)
Definition remaining (s : LineStream.t) : nat :=
  JsString.length (LineStream._source s) - LineStream._pos s.

(** One call makes progress: it returns a token and the stream has
    advanced by [n >= 1] code units, not beyond the end of the line. *)
Definition progress (s : LineStream.t)
    (out : result Html.ITokenizationResult * Html.world) : Prop :=
  exists r st' n,
    out = (Ok r, Html.mkWorld st' (LineStream.advanceBy n s)) /\
    1 <= n <= JsString.length (LineStream.rest s).

(** *** The split that the specification describes

    The line is cut at the first case-insensitive occurrence of the text
    [</] + [tagName] + [>]. *)

Fixpoint indexOfIgnoreCase (p s : string) : option nat :=
  if JsString.startsWithIgnoreCase p s then Some 0
  else match s with
       | EmptyString => None
       | String _ s' => S <$> indexOfIgnoreCase p s'
       end.

Definition closingTagText (tagName : string) : string :=
  "</" +:+ tagName +:+ ">".

Definition splitAtClosingTag (line tagName : string) : option (string * string) :=
  match indexOfIgnoreCase (closingTagText tagName) line with
  | Some i => Some (JsString.take i line, JsString.drop i line)
  | None => None
  end.

(** The state that [getLeavingNestedModeData] returns to. *)
Definition contentState : Html.State :=
  Html.mkState Html.Content EmptyString (Some EmptyString) (Some EmptyString)
    EmptyString EmptyString.

(** A state of kind [k] with the fields of the initial state. *)
Definition stateOfKind (k : Html.States) : Html.State :=
  Html.mkState k EmptyString (Some EmptyString) (Some EmptyString)
    EmptyString EmptyString.

(** The tag name of the state is in the modelled fragment of the regular
    expressions. *)
Definition tagNameCompiles (w : Html.world) : Prop :=
  is_Some (HTMLMode.compileTagName (Html.lastTagName (Html.this w))).

(** The states of the tokenizers: the initial state and the state that a
    call of [tokenize] (of [State] or of [RAZORState]) leaves behind. *)
Inductive tokenizerState : Html.State -> Prop :=
| tokenizerState_initial :
    tokenizerState (stateOfKind Html.Content)
| tokenizerState_html (fuel : nat) (st : Html.State) (s : LineStream.t) :
    tokenizerState st ->
    tokenizerState (Html.this (Html.tokenize fuel (Html.mkWorld st s)).2)
| tokenizerState_razor (fuel : nat) (st : Html.State) (s : LineStream.t) :
    tokenizerState st ->
    tokenizerState (Html.this (Razor.tokenize fuel (Html.mkWorld st s)).2).

(** ** abstractScrollbar.ts: the scrollbar state

    The numbers of the scrollbar are modelled exactly: the sizes and
    positions that [Math.round] has made integers are in [Z], the ratio and
    the intermediate values are rationals.  The rounding errors of floating
    point numbers, infinities and [NaN] are outside the model. *)

Module Scrollbar.
Local Open Scope Z_scope.

(** The minimal size of the slider (such that it can still be clickable) *)
Definition MINIMUM_SLIDER_SIZE : Z := 20.

(** [Math.floor] *)
Definition floor (x : Q) : Z := Qfloor x.

(** [Math.round]: the nearest integer, a half is rounded up. *)
Definition round (x : Q) : Z := Qfloor (x + (1 # 2)).

Record ScrollbarState : Type := mkScrollbarState {
  _scrollbarSize : Z;
  _oppositeScrollbarSize : Z;
  _arrowSize : Z;
  _visibleSize : Z;
  _scrollSize : Z;
  _scrollPosition : Z;
  _computedAvailableSize : Z;
  _computedRepresentableSize : Z;
  _computedRatio : Q;
  _computedIsNeeded : bool;
  _computedSliderSize : Z;
  _computedSliderPosition : Z
}.

(** The slider of a scrollbar that is needed: its size and its position
    before the final rounding. *)
Definition neededSlider (visibleSize scrollPosition : Z)
    (computedRepresentableSize : Z) (computedRatio : Q) : Q * Q :=
  let computedSliderSize :=
    inject_Z (floor (inject_Z visibleSize * computedRatio)) in
  let computedSliderPosition :=
    inject_Z (floor (inject_Z scrollPosition * computedRatio)) in
  if Qlt_le_dec computedSliderSize (inject_Z MINIMUM_SLIDER_SIZE) then
    let sliderArtificialOffset :=
      ((inject_Z MINIMUM_SLIDER_SIZE - computedSliderSize) / 2)%Q in
    let computedSliderSize := inject_Z MINIMUM_SLIDER_SIZE in
    let computedSliderPosition :=
      (computedSliderPosition - sliderArtificialOffset)%Q in
    let computedSliderPosition :=
      if Qlt_le_dec (inject_Z computedRepresentableSize)
           (computedSliderPosition + computedSliderSize)
      then (inject_Z computedRepresentableSize - computedSliderSize)%Q
      else computedSliderPosition in
    let computedSliderPosition :=
      if Qlt_le_dec computedSliderPosition 0
      then 0%Q
      else computedSliderPosition in
    (computedSliderSize, computedSliderPosition)
  else (computedSliderSize, computedSliderPosition).

Definition _refreshComputedValues (s : ScrollbarState) : ScrollbarState :=
  let oppositeScrollbarSize := _oppositeScrollbarSize s in
  let arrowSize := _arrowSize s in
  let visibleSize := _visibleSize s in
  let scrollSize := _scrollSize s in
  let scrollPosition := _scrollPosition s in
  let computedAvailableSize := Z.max 0 (visibleSize - oppositeScrollbarSize) in
  let computedRepresentableSize :=
    Z.max 0 (computedAvailableSize - 2 * arrowSize) in
  let computedRatio :=
    if 0 <? scrollSize
    then (inject_Z computedRepresentableSize / inject_Z scrollSize)%Q
    else 0%Q in
  let computedIsNeeded := visibleSize <? scrollSize in
  let slider :=
    if negb computedIsNeeded
    then (inject_Z computedRepresentableSize, 0%Q)
    else neededSlider visibleSize scrollPosition computedRepresentableSize
           computedRatio in
  {| _scrollbarSize := _scrollbarSize s;
     _oppositeScrollbarSize := oppositeScrollbarSize;
     _arrowSize := arrowSize;
     _visibleSize := visibleSize;
     _scrollSize := scrollSize;
     _scrollPosition := scrollPosition;
     _computedAvailableSize := round (inject_Z computedAvailableSize);
     _computedRepresentableSize := round (inject_Z computedRepresentableSize);
     _computedRatio := computedRatio;
     _computedIsNeeded := computedIsNeeded;
     _computedSliderSize := round (fst slider);
     _computedSliderPosition := round (snd slider) |}.

(** [new ScrollbarState(arrowSize, scrollbarSize, oppositeScrollbarSize)] *)
Definition new (arrowSize scrollbarSize oppositeScrollbarSize : Q)
  : ScrollbarState :=
  _refreshComputedValues
    {| _scrollbarSize := round scrollbarSize;
       _oppositeScrollbarSize := round oppositeScrollbarSize;
       _arrowSize := round arrowSize;
       _visibleSize := 0;
       _scrollSize := 0;
       _scrollPosition := 0;
       _computedAvailableSize := 0;
       _computedRepresentableSize := 0;
       _computedRatio := (1 # 10)%Q;
       _computedIsNeeded := false;
       _computedSliderSize := 0;
       _computedSliderPosition := 0 |}.

Definition with_visibleSize (x : Z) (s : ScrollbarState) : ScrollbarState :=
  mkScrollbarState (_scrollbarSize s) (_oppositeScrollbarSize s) (_arrowSize s)
    x (_scrollSize s) (_scrollPosition s) (_computedAvailableSize s)
    (_computedRepresentableSize s) (_computedRatio s) (_computedIsNeeded s)
    (_computedSliderSize s) (_computedSliderPosition s).

Definition with_scrollSize (x : Z) (s : ScrollbarState) : ScrollbarState :=
  mkScrollbarState (_scrollbarSize s) (_oppositeScrollbarSize s) (_arrowSize s)
    (_visibleSize s) x (_scrollPosition s) (_computedAvailableSize s)
    (_computedRepresentableSize s) (_computedRatio s) (_computedIsNeeded s)
    (_computedSliderSize s) (_computedSliderPosition s).

Definition with_scrollPosition (x : Z) (s : ScrollbarState) : ScrollbarState :=
  mkScrollbarState (_scrollbarSize s) (_oppositeScrollbarSize s) (_arrowSize s)
    (_visibleSize s) (_scrollSize s) x (_computedAvailableSize s)
    (_computedRepresentableSize s) (_computedRatio s) (_computedIsNeeded s)
    (_computedSliderSize s) (_computedSliderPosition s).

(** The setters return whether the value has changed, and the state. *)
Definition setVisibleSize (visibleSize : Q) (s : ScrollbarState)
  : bool * ScrollbarState :=
  let iVisibleSize := round visibleSize in
  if negb (_visibleSize s =? iVisibleSize)
  then (true, _refreshComputedValues (with_visibleSize iVisibleSize s))
  else (false, s).

Definition setScrollSize (scrollSize : Q) (s : ScrollbarState)
  : bool * ScrollbarState :=
  let iScrollSize := round scrollSize in
  if negb (_scrollSize s =? iScrollSize)
  then (true, _refreshComputedValues (with_scrollSize iScrollSize s))
  else (false, s).

Definition setScrollPosition (scrollPosition : Q) (s : ScrollbarState)
  : bool * ScrollbarState :=
  let iScrollPosition := round scrollPosition in
  if negb (_scrollPosition s =? iScrollPosition)
  then (true, _refreshComputedValues (with_scrollPosition iScrollPosition s))
  else (false, s).

Definition validateScrollPosition (desiredScrollPosition : Q)
    (s : ScrollbarState) : Z :=
  let desiredScrollPosition := round desiredScrollPosition in
  let desiredScrollPosition := Z.max desiredScrollPosition 0 in
  let desiredScrollPosition :=
    Z.min desiredScrollPosition (_scrollSize s - _visibleSize s) in
  desiredScrollPosition.

(** The ratio that [_refreshComputedValues] computes. *)
Definition ratio (representable scrollSize : Z) : Q :=
  if 0 <? scrollSize
  then (inject_Z representable / inject_Z scrollSize)%Q
  else 0%Q.

(** The states of a scrollbar: what the constructor and the setters
    produce. *)
Inductive reachable : ScrollbarState -> Prop :=
| reachable_new (arrowSize scrollbarSize oppositeScrollbarSize : Q) :
    reachable (new arrowSize scrollbarSize oppositeScrollbarSize)
| reachable_setVisibleSize (x : Q) (s : ScrollbarState) :
    reachable s -> reachable (snd (setVisibleSize x s))
| reachable_setScrollSize (x : Q) (s : ScrollbarState) :
    reachable s -> reachable (snd (setScrollSize x s))
| reachable_setScrollPosition (x : Q) (s : ScrollbarState) :
    reachable s -> reachable (snd (setScrollPosition x s)).

End Scrollbar.

(** ** configurationService.ts: the configuration service *)

Module Configuration.

(** A resource, by its path. *)
Definition uri : Type := string.

Record IStat : Type := mkStat {
  stat_resource : uri;
  isDirectory : bool;
  children : option (list uri)
}.

Record IContent : Type := mkContent {
  content_resource : uri;
  content_value : string
}.

(** *** Promises

    Modelled from the spec: the promises of [vs/base/common/winjs.base] are
    not part of the listed sources.  A promise is modelled by its outcome,
    and [then] runs the handler that belongs to the outcome; a handler that
    throws rejects the promise that [then] returns.  The reason of a
    rejection is any JavaScript value, of which the model keeps whether it
    is [falsy] ([undefined], [null], ...) or an error object. *)

Inductive reason : Type :=
| Falsy
| ErrorObject (message : string).

Definition isTruthy (err : reason) : bool :=
  match err with
  | Falsy => false
  | ErrorObject _ => true
  end.

Inductive promise (A : Type) : Type :=
| Resolved (a : A)
| Rejected (err : reason).
Arguments Resolved {A} a.
Arguments Rejected {A} err.

(** The error of reading a property of [undefined]. *)
Definition typeError : reason := ErrorObject "TypeError".

(** [TPromise.join] of an object of promises: the object of their values,
    rejected when one of them is. *)
Definition value_of {A} (p : promise A) : option A :=
  match p with
  | Resolved a => Some a
  | Rejected _ => None
  end.

Definition join {A} (promises : gmap string (promise A))
  : promise (gmap string A) :=
  if decide (map_Forall (fun _ p => is_Some (value_of p)) promises)
  then Resolved (omap value_of promises)
  else Rejected (ErrorObject "join").

(** *** Configuration objects

    An object is a finite map from keys to values; objects live in a heap
    and are passed by reference. *)

Abbreviation loc := positive.

Section Service.

Context {value : Type}.

Local Abbreviation object := (gmap string value).
Local Abbreviation heap := (gmap loc (gmap string value)).

(** Modelled from the spec: [objects.clone] of [vs/base/common/objects] is
    not part of the listed sources; it returns a new object with the keys
    and values of its argument. *)
Definition clone (l : loc) (h : heap) : loc * heap :=
  let l' := fresh (dom h) in
  (l', <[l' := default ∅ (h !! l)]> h).

(** Modelled from the spec: [objects.mixin] of [vs/base/common/objects] is
    not part of the listed sources; it copies the keys of [source] into the
    object [destination], and overwrites the keys that are there only when
    [overwrite] is set; it returns [destination]. *)
Definition mixin (destination : loc) (source : object) (overwrite : bool)
    (h : heap) : loc * heap :=
  (destination,
   alter (fun target : object =>
            if overwrite then source ∪ target else target ∪ source)
     destination h).

(** [model.IConfigFile] *)
Record IConfigFile : Type := mkConfigFile {
  file_contents : object;
  parseError : bool
}.

Record consolidatedT : Type := mkConsolidated {
  contents : object;
  parseErrors : list string
}.

Record ILoadConfigResult : Type := mkLoadConfigResult {
  merged : loc;
  consolidated : consolidatedT;
  globals : loc
}.

(** The service: its fields and the heap of the objects it works on. *)
Record service : Type := mkService {
  bulkFetchFromWorkspacePromise : option (promise unit);
  workspaceFilePathToConfiguration : gmap string (promise IConfigFile);
  cachedConfig : option ILoadConfigResult;
  objects : heap
}.

(** What the service is given: the abstract methods of the class, the
    workspace context service and the functions of [./model] and of
    [vs/base/common/paths], none of which is part of the listed sources. *)
Context (resolveStat : uri -> promise IStat).
Context (resolveContents : list uri -> promise (list IContent)).
Context (toResource : string -> uri).
Context (toWorkspaceRelativePath : uri -> string).
Context (extname : string -> string).
Context (newConfigFile : string -> IConfigFile).
Context (consolidate : gmap string IConfigFile -> consolidatedT).
Context (getDefaultValues : loc).
Context (workspaceSettingsRootFolder : string).
Context (parseErrorsValue : list string -> value).

Definition set_bulkFetch (p : option (promise unit)) (sv : service) : service :=
  mkService p (workspaceFilePathToConfiguration sv) (cachedConfig sv)
    (objects sv).

Definition set_files (m : gmap string (promise IConfigFile)) (sv : service)
  : service :=
  mkService (bulkFetchFromWorkspacePromise sv) m (cachedConfig sv)
    (objects sv).

(** The first handlers of the bulk fetch: the contents of the [.json]
    children of the folder.  [None] is [undefined]. *)
Definition fetchContents : promise (option (list IContent)) :=
  match resolveStat (toResource workspaceSettingsRootFolder) with
  | Resolved stat =>
      if negb (isDirectory stat) then Resolved (Some [])
      else
        match children stat with
        | None => Rejected typeError
        | Some children =>
            match resolveContents
                    (filter (fun r => extname r = ".json") children) with
            | Resolved contents => Resolved (Some contents)
            | Rejected err => Rejected err
            end
        end
  | Rejected err =>
      if isTruthy err
      then Resolved (Some []) (* never fail this call *)
      else Resolved None
  end.

(** The second handlers: every content becomes a resolved configuration
    file of the map; an error is reported by [errors.onUnexpectedError]. *)
Definition storeContents (sv : service) : promise unit * service :=
  match fetchContents with
  | Resolved (Some contents) =>
      (Resolved tt,
       set_files
         (foldl (fun m content =>
                   <[toWorkspaceRelativePath (content_resource content) :=
                       Resolved (newConfigFile (content_value content))]> m)
            (workspaceFilePathToConfiguration sv) contents) sv)
  | Resolved None => (Rejected typeError, sv)
  | Rejected _ => (Resolved tt, sv)
  end.

Definition loadWorkspaceConfiguration (sv : service)
  : promise (gmap string IConfigFile) * service :=
  let sv :=
    match bulkFetchFromWorkspacePromise sv with
    | None =>
        let (p, sv') := storeContents sv in
        set_bulkFetch (Some p) sv'
    | Some _ => sv
    end in
  match bulkFetchFromWorkspacePromise sv with
  | Some (Resolved _) => (join (workspaceFilePathToConfiguration sv), sv)
  | Some (Rejected err) => (Rejected err, sv)
  | None => (Rejected typeError, sv)
  end.

(** The first handler of [doLoadConfiguration]. *)
Definition mergeConfiguration (globals : loc)
    (values : gmap string IConfigFile) (h : heap)
  : ILoadConfigResult * heap :=
  let consolidated := consolidate values in
  let (target, h) := clone globals h in
  let (merged, h) := mixin target (contents consolidated) true h in
  ({| merged := merged; consolidated := consolidated; globals := globals |},
   h).

(** [getConfiguration()] without a section: the merged object, to which
    the parse errors are added when there are some. *)
Definition getConfiguration (sv : service) : option loc * service :=
  match cachedConfig sv with
  | None => (None, sv)
  | Some config =>
      let result := merged config in
      let parseErrors := parseErrors (consolidated config) in
      if 0 <? length parseErrors then
        (Some result,
         mkService (bulkFetchFromWorkspacePromise sv)
           (workspaceFilePathToConfiguration sv) (cachedConfig sv)
           (alter (fun o : object =>
                     <["$parseErrors" := parseErrorsValue parseErrors]> o)
              result (objects sv)))
      else (Some result, sv)
  end.

(** [doLoadConfiguration()] without a section. *)
Definition doLoadConfiguration (sv : service)
  : promise (option loc) * service :=
  let globals := getDefaultValues in
  let (values, sv) := loadWorkspaceConfiguration sv in
  match values with
  | Resolved values =>
      let (res, h) := mergeConfiguration globals values (objects sv) in
      let sv :=
        mkService (bulkFetchFromWorkspacePromise sv)
          (workspaceFilePathToConfiguration sv) (Some res) h in
      let (result, sv) := getConfiguration sv in
      (Resolved result, sv)
  | Rejected err => (Rejected err, sv)
  end.

(** The folder is missing: its stat is rejected with an error, or it is
    not a directory. *)
Definition missingFolder : Prop :=
  (exists err, resolveStat (toResource workspaceSettingsRootFolder)
               = Rejected err /\ isTruthy err = true) \/
  (exists stat, resolveStat (toResource workspaceSettingsRootFolder)
                = Resolved stat /\ isDirectory stat = false).

End Service.

(** A service right after its construction, with an empty heap but for the
    default values at location [1]. *)
Definition freshService : @service Z :=
  mkService None ∅ None {[ 1%positive := {[ "editor.fontSize" := 12%Z ]} ]}.

(** A workspace whose settings folder cannot be resolved: the stat is
    rejected with [err]. *)
Definition loadWithoutFolder (err : reason)
  : promise (gmap string (@IConfigFile Z)) * @service Z :=
  loadWorkspaceConfiguration (fun _ => Rejected err)
    (fun _ => Resolved []) (fun path => path) (fun resource => resource)
    (fun path => path) (fun _ => mkConfigFile ∅ false) ".vscode"
    freshService.

End Configuration.

(** ** Vocabulary of the further properties of the tokenizer *)

(** Every code unit of [s] satisfies [f]. *)
Fixpoint allChars (f : ascii -> bool) (s : string) : bool :=
  match s with
  | EmptyString => true
  | String c s' => f c && allChars f s'
  end.

(** The code units of a stored tag name: those of an element name, in
    lower case. *)
Definition lowerNameChar (c : ascii) : bool :=
  Html.nameChar c && JsString.isChar (JsString.lowerChar c) c.

(** The code units of the name of a tag token: [[a-z0-9-]]. *)
Definition tagTokenChar (c : ascii) : bool :=
  JsString.inRange 97 122 c || JsString.isDigit c || JsString.isChar "-" c.

(** [times] calls of [tokenize], one after the other: the tokens and the
    state and stream after the last call; [None] when a call does not
    return a token. *)
Fixpoint tokenizeTimes (depth times : nat) (w : Html.world)
  : option (list Html.ITokenizationResult * Html.world) :=
  match times with
  | 0 => Some ([], w)
  | S times' =>
      match Html.tokenize depth w with
      | (Ok r, w') =>
          match tokenizeTimes depth times' w' with
          | Some (rs, w'') => Some (r :: rs, w'')
          | None => None
          end
      | (_, _) => None
      end
  end.

(** No quote is pending outside an attribute value: the quote and the
    value read so far are empty, or the state is inside an attribute value
    that was opened by a quote, and the value read so far starts with that
    quote. *)
Definition quoteInvariant (st : Html.State) : Prop :=
  (Html.attributeValueQuote st = EmptyString /\
   Html.attributeValue st = EmptyString) \/
  (Html.kind st = Html.AttributeValue /\
   Html.isQuote (Html.attributeValueQuote st) = true /\
   JsString.startsWith (Html.attributeValueQuote st) (Html.attributeValue st)
   = true).

(** ** html.ts: the nested mode of a state *)

Module NestedMode.
Import Html.

Section ModeService.

(** The mode service; [None] is [null]. *)
Context {IMode Promise : Type}.
Context (isRegisteredMode : string -> bool).
Context (getMode : string -> option IMode).
Context (getOrCreateMode : string -> Promise).

Record IEnteringNestedModeData : Type := mkEntering {
  mode : option IMode;
  missingModePromise : option Promise
}.

(** [HTMLMode.getNestedMode] on a state with the fields [htmlState]. *)
Definition getNestedMode (htmlState : State) : IEnteringNestedModeData :=
  let found :=
    match embeddedContentType htmlState with
    | Some contentType =>
        if isRegisteredMode contentType then
          match getMode contentType with
          | Some result => (Some result, None)
          | None => (None, Some (getOrCreateMode contentType))
          end
        else (None, None)
    | None =>
        let mimeType :=
          if JsString.eqb "script" (lastTagName htmlState)
          then "text/javascript"
          else if JsString.eqb "style" (lastTagName htmlState)
          then "text/css"
          else "text/plain" in
        (getMode mimeType, None)
    end in
  let result :=
    match found.1 with
    | None => getMode "text/plain"
    | Some result => Some result
    end in
  {| mode := result; missingModePromise := found.2 |}.

End ModeService.

End NestedMode.

(** ** scrollableElement.ts and abstractScrollbar.ts: showing the scrollbar *)

Module VisibilityController.

(** [enum Visibility] of scrollableElement.ts *)
Inductive Visibility : Type := Auto | Hidden | Visible.

Definition visibilityFromString (visibility : string) : Visibility :=
  if JsString.eqb visibility "hidden" then Hidden
  else if JsString.eqb visibility "visible" then Visible
  else Auto.

(** The fields of [VisibilityController].  Of the DOM node the model keeps
    the class name ([None]: the field is [null]); of the reveal timer (a
    [TimeoutTimer], which is outside the listed sources) whether a callback
    is pending. *)
Record t : Type := mk {
  _visibility : Visibility;
  _visibleClassName : string;
  _invisibleClassName : string;
  _domNode : option string;
  _shouldBeVisible : bool;
  _isNeeded : bool;
  _isVisible : bool;
  _revealTimer : bool
}.

Definition new (visibility : Visibility)
    (visibleClassName invisibleClassName : string) : t :=
  {| _visibility := visibility;
     _visibleClassName := visibleClassName;
     _invisibleClassName := invisibleClassName;
     _domNode := None;
     _isVisible := false;
     _isNeeded := false;
     _shouldBeVisible := false;
     _revealTimer := false |}.

Definition with_domNode (x : option string) (c : t) : t :=
  mk (_visibility c) (_visibleClassName c) (_invisibleClassName c) x
    (_shouldBeVisible c) (_isNeeded c) (_isVisible c) (_revealTimer c).
Definition with_shouldBeVisible (x : bool) (c : t) : t :=
  mk (_visibility c) (_visibleClassName c) (_invisibleClassName c)
    (_domNode c) x (_isNeeded c) (_isVisible c) (_revealTimer c).
Definition with_isNeeded (x : bool) (c : t) : t :=
  mk (_visibility c) (_visibleClassName c) (_invisibleClassName c)
    (_domNode c) (_shouldBeVisible c) x (_isVisible c) (_revealTimer c).
Definition with_isVisible (x : bool) (c : t) : t :=
  mk (_visibility c) (_visibleClassName c) (_invisibleClassName c)
    (_domNode c) (_shouldBeVisible c) (_isNeeded c) x (_revealTimer c).
Definition with_revealTimer (x : bool) (c : t) : t :=
  mk (_visibility c) (_visibleClassName c) (_invisibleClassName c)
    (_domNode c) (_shouldBeVisible c) (_isNeeded c) (_isVisible c) x.

(** [this._domNode.setClassName(name)]; [None] is the [TypeError] of a call
    on [null]. *)
Definition setClassName (name : string) (c : t) : option t :=
  match _domNode c with
  | Some _ => Some (with_domNode (Some name) c)
  | None => None
  end.

Definition applyVisibilitySetting (shouldBeVisible : bool) (c : t) : bool :=
  match _visibility c with
  | Hidden => false
  | Visible => true
  | Auto => shouldBeVisible
  end.

(** [_revealTimer.setIfNotSet] leaves a pending callback in place. *)
Definition _reveal (c : t) : t :=
  if _isVisible c then c
  else with_revealTimer true (with_isVisible true c).

(** [_revealTimer.cancel()] comes first. *)
Definition _hide (withFadeAway : bool) (c : t) : option t :=
  let c := with_revealTimer false c in
  if negb (_isVisible c) then Some c
  else
    setClassName
      (_invisibleClassName c +:+ (if withFadeAway then " fade" else EmptyString))
      (with_isVisible false c).

Definition ensureVisibility (c : t) : option t :=
  if negb (_isNeeded c) then _hide false c
  else if _shouldBeVisible c then Some (_reveal c)
  else _hide true c.

Definition setShouldBeVisible (rawShouldBeVisible : bool) (c : t) : option t :=
  let shouldBeVisible := applyVisibilitySetting rawShouldBeVisible c in
  if negb (Bool.eqb (_shouldBeVisible c) shouldBeVisible)
  then ensureVisibility (with_shouldBeVisible shouldBeVisible c)
  else Some c.

Definition setIsNeeded (isNeeded : bool) (c : t) : option t :=
  if negb (Bool.eqb (_isNeeded c) isNeeded)
  then ensureVisibility (with_isNeeded isNeeded c)
  else Some c.

(** [setDomNode(domNode)]: the class name of the new node is overwritten at
    once. *)
Definition setDomNode (c : t) : option t :=
  setShouldBeVisible false (with_domNode (Some (_invisibleClassName c)) c).

(** The callback that [_reveal] has handed to the timer runs. *)
Definition revealTimerFires (c : t) : option t :=
  if _revealTimer c
  then setClassName (_visibleClassName c) (with_revealTimer false c)
  else Some c.

(** The class name shows an invisible scrollbar. *)
Definition showsInvisible (c : t) : Prop :=
  _domNode c = Some (_invisibleClassName c) \/
  _domNode c = Some (_invisibleClassName c +:+ " fade").

(** The bookkeeping of a controller that has a DOM node: the visible flag
    follows the two requests, the request follows the visibility setting, a
    pending reveal belongs to a visible scrollbar, and the class name
    follows the flag as soon as the timer has run. *)
Definition consistent (c : t) : Prop :=
  _isVisible c = _isNeeded c && _shouldBeVisible c /\
  _shouldBeVisible c = applyVisibilitySetting (_shouldBeVisible c) c /\
  (_revealTimer c = true -> _isVisible c = true) /\
  is_Some (_domNode c) /\
  (_isVisible c = false -> showsInvisible c) /\
  (_isVisible c = true -> _revealTimer c = false ->
   _domNode c = Some (_visibleClassName c)) /\
  (_isVisible c = true -> _revealTimer c = true -> showsInvisible c).

End VisibilityController.

Module AbstractScrollbar.
Import VisibilityController.
Local Open Scope Z_scope.

(** The fields of [AbstractScrollbar] that the update and render methods
    use.  [rendered] holds the arguments of the last calls of the abstract
    methods [_renderDomNode] and [_updateSlider]. *)
Record t : Type := mk {
  _lazyRender : bool;
  _scrollbarState : Scrollbar.ScrollbarState;
  _visibilityController : VisibilityController.t;
  _shouldRender : bool;
  rendered : option ((Z * Z) * (Z * Z))
}.

Definition new (lazyRender : bool) (scrollbarState : Scrollbar.ScrollbarState)
    (visibility : Visibility) (extraScrollbarClassName : string) : t :=
  {| _lazyRender := lazyRender;
     _scrollbarState := scrollbarState;
     _visibilityController :=
       VisibilityController.new visibility
         ("visible scrollbar " +:+ extraScrollbarClassName)
         ("invisible scrollbar " +:+ extraScrollbarClassName);
     _shouldRender := true;
     rendered := None |}.

Definition with_visibilityController (c : VisibilityController.t) (a : t) : t :=
  mk (_lazyRender a) (_scrollbarState a) c (_shouldRender a) (rendered a).

(** The part of [_createDomNode] that concerns the visibility. *)
Definition _createDomNode (a : t) : option t :=
  c ← setDomNode (_visibilityController a);
  Some (with_visibilityController c a).

Definition render (a : t) : t :=
  if negb (_shouldRender a) then a
  else
    let s := _scrollbarState a in
    {| _lazyRender := _lazyRender a;
       _scrollbarState := s;
       _visibilityController := _visibilityController a;
       _shouldRender := false;
       rendered :=
         Some ((Scrollbar._computedAvailableSize s, Scrollbar._scrollbarSize s),
               (Scrollbar._computedSliderSize s,
                Scrollbar._arrowSize s + Scrollbar._computedSliderPosition s))
    |}.

(** The common body of [onElementSize], [onElementScrollSize] and
    [onElementScrollPosition], given the outcome of the setter. *)
Definition afterSetter (set : bool * Scrollbar.ScrollbarState) (a : t)
  : option (bool * t) :=
  if set.1 then
    c ← setIsNeeded (Scrollbar._computedIsNeeded set.2)
          (_visibilityController a);
    let a := {| _lazyRender := _lazyRender a;
                _scrollbarState := set.2;
                _visibilityController := c;
                _shouldRender := true;
                rendered := rendered a |} in
    let a := if negb (_lazyRender a) then render a else a in
    Some (_shouldRender a, a)
  else Some (_shouldRender a, a).

Definition onElementSize (visibleSize : Q) (a : t) : option (bool * t) :=
  afterSetter (Scrollbar.setVisibleSize visibleSize (_scrollbarState a)) a.

Definition onElementScrollSize (elementScrollSize : Q) (a : t)
  : option (bool * t) :=
  afterSetter (Scrollbar.setScrollSize elementScrollSize (_scrollbarState a)) a.

Definition onElementScrollPosition (elementScrollPosition : Q) (a : t)
  : option (bool * t) :=
  afterSetter
    (Scrollbar.setScrollPosition elementScrollPosition (_scrollbarState a)) a.

Definition beginReveal (a : t) : option t :=
  c ← setShouldBeVisible true (_visibilityController a);
  Some (with_visibilityController c a).

Definition beginHide (a : t) : option t :=
  c ← setShouldBeVisible false (_visibilityController a);
  Some (with_visibilityController c a).

(** The reveal timer of the visibility controller fires. *)
Definition revealTimerFires (a : t) : option t :=
  c ← VisibilityController.revealTimerFires (_visibilityController a);
  Some (with_visibilityController c a).

(** What [render] writes for the current state. *)
Definition upToDate (a : t) : Prop :=
  let s := _scrollbarState a in
  rendered a =
  Some ((Scrollbar._computedAvailableSize s, Scrollbar._scrollbarSize s),
        (Scrollbar._computedSliderSize s,
         Scrollbar._arrowSize s + Scrollbar._computedSliderPosition s)).

(** The scrollbar state, the visibility controller and the rendering are
    in step. *)
Definition inSync (a : t) : Prop :=
  consistent (_visibilityController a) /\
  _isNeeded (_visibilityController a)
  = Scrollbar._computedIsNeeded (_scrollbarState a) /\
  Scrollbar.reachable (_scrollbarState a) /\
  (_shouldRender a = false -> upToDate a).

End AbstractScrollbar.

(** ** verticalScrollbar.ts *)

Module VerticalScrollbar.
Import VisibilityController.

(** The options that the constructor reads for the state and the
    visibility. *)
Record IScrollableElementOptions : Type := mkOptions {
  lazyRender : bool;
  arrowSize : Q;
  vertical : Visibility;
  verticalScrollbarSize : Q;
  verticalHasArrows : bool
}.

(** The constructor up to [_createDomNode]; the arrows and the slider node
    are outside the model. *)
Definition new (options : IScrollableElementOptions)
  : option AbstractScrollbar.t :=
  let s :=
    Scrollbar.new
      (if verticalHasArrows options then arrowSize options else 0%Q)
      (match vertical options with
       | Hidden => 0%Q
       | _ => verticalScrollbarSize options
       end)
      0%Q in
  AbstractScrollbar._createDomNode
    (AbstractScrollbar.new (lazyRender options) s (vertical options) "vertical").

(** The states of a vertical scrollbar: what the constructor, the update
    methods, [beginReveal], [beginHide], [render] and the reveal timer
    produce. *)
Inductive reachable : AbstractScrollbar.t -> Prop :=
| reachable_new options a :
    new options = Some a -> reachable a
| reachable_onElementSize x a r :
    reachable a -> AbstractScrollbar.onElementSize x a = Some r ->
    reachable r.2
| reachable_onElementScrollSize x a r :
    reachable a -> AbstractScrollbar.onElementScrollSize x a = Some r ->
    reachable r.2
| reachable_onElementScrollPosition x a r :
    reachable a -> AbstractScrollbar.onElementScrollPosition x a = Some r ->
    reachable r.2
| reachable_beginReveal a a' :
    reachable a -> AbstractScrollbar.beginReveal a = Some a' -> reachable a'
| reachable_beginHide a a' :
    reachable a -> AbstractScrollbar.beginHide a = Some a' -> reachable a'
| reachable_render a :
    reachable a -> reachable (AbstractScrollbar.render a)
| reachable_revealTimerFires a a' :
    reachable a -> AbstractScrollbar.revealTimerFires a = Some a' ->
    reachable a'.

End VerticalScrollbar.

(** * Properties *)


Module JsStringFacts.
Import JsString.

Lemma drop_drop (n m : nat) (s : string) : drop n (drop m s) = drop (m + n) s.
Proof.
  revert s; induction m as [|m IH]; intros s; simpl; [done|].
  destruct s; simpl; [by destruct n|apply IH].
Qed.

Lemma drop_empty_iff (n : nat) (s : string) :
  drop n s = EmptyString <-> length s <= n.
Proof.
  revert s; induction n as [|n IH]; intros [|c s]; simpl;
    try (split; first [done|lia]).
  rewrite IH. unfold length. lia.
Qed.

Lemma length_drop (n : nat) (s : string) : length (drop n s) = length s - n.
Proof.
  revert s; induction n as [|n IH]; intros [|c s]; unfold length in *;
    simpl; try done; try lia.
Qed.

Lemma length_take (n : nat) (s : string) :
  length (take n s) = Nat.min n (length s).
Proof.
  revert s; induction n as [|n IH]; intros [|c s]; simpl; try done.
  unfold length in *. simpl. by rewrite IH.
Qed.

Lemma take_drop (n : nat) (s : string) : take n s +:+ drop n s = s.
Proof.
  revert s; induction n as [|n IH]; intros [|c s]; cbn; try done.
  change (String c (take n s +:+ drop n s) = String c s). by rewrite IH.
Qed.

Lemma take_all (n : nat) (s : string) : length s <= n -> take n s = s.
Proof.
  revert s; induction n as [|n IH]; intros [|c s]; unfold length; simpl;
    try done; try lia.
  intros H. rewrite IH; [done|unfold length; lia].
Qed.

Lemma substring_from (p n : nat) (s : string) :
  substring p (p + n) s = take n (drop p s).
Proof.
  unfold substring.
  replace (Nat.min p (p + n)) with p by lia.
  by replace (Nat.max p (p + n) - p) with n by lia.
Qed.

Lemma length_toLowerCase (s : string) : length (toLowerCase s) = length s.
Proof. induction s as [|c s IH]; unfold length in *; simpl; congruence. Qed.

Lemma isChar_true (a c : ascii) : isChar a c = true <-> a = c.
Proof. unfold isChar. destruct (ascii_dec a c); split; congruence. Qed.

Lemma isChar_refl (a : ascii) : isChar a a = true.
Proof. by apply isChar_true. Qed.

Lemma startsWith_cons (a : ascii) (p s : string) :
  startsWith (String a p) s = true ->
  exists r, s = String a r /\ startsWith p r = true.
Proof.
  destruct s as [|b s]; simpl; [done|].
  intros [->%isChar_true H]%andb_true_iff. eauto.
Qed.

Lemma span_le (f : ascii -> bool) (s : string) : span f s <= length s.
Proof.
  induction s as [|c s IH]; unfold length in *; simpl; [lia|].
  destruct (f c); lia.
Qed.

Lemma startsWith_length (p s : string) :
  startsWith p s = true -> length p <= length s.
Proof.
  revert s; induction p as [|a p IH]; intros [|b s]; unfold length in *;
    simpl; try done; try lia.
  intros [_ H]%andb_true_iff. apply IH in H. lia.
Qed.

Lemma startsWithIgnoreCase_length (p s : string) :
  startsWithIgnoreCase p s = true -> length p <= length s.
Proof.
  revert s; induction p as [|a p IH]; intros [|b s]; unfold length in *;
    simpl; try done; try lia.
  intros [_ H]%andb_true_iff. apply IH in H. lia.
Qed.

Lemma indexOf_zero (p s : string) :
  indexOf p s = Some 0 <-> startsWith p s = true.
Proof.
  destruct s as [|c s]; simpl; destruct (startsWith p _); try done.
  destruct (indexOf p s); simpl; split; congruence.
Qed.

Lemma indexOf_bound (p s : string) (i : nat) :
  indexOf p s = Some i -> i + length p <= length s.
Proof.
  revert i; induction s as [|c s IH]; intros i; simpl.
  - destruct (startsWith p EmptyString) eqn:E; [|done].
    intros [= <-]. by apply startsWith_length in E.
  - destruct (startsWith p (String c s)) eqn:E.
    + intros [= <-]. by apply startsWith_length in E.
    + destruct (indexOf p s) as [j|]; simpl; [|done].
      intros [= <-]. specialize (IH j eq_refl). unfold length in *. simpl. lia.
Qed.

End JsStringFacts.

Module LineStreamFacts.
Import LineStream JsStringFacts.

(** Number of code units that are left to read. *)
Lemma rest_advanceBy (n : nat) (s : t) :
  rest (advanceBy n s) = JsString.drop n (rest s).
Proof. unfold rest, advanceBy; simpl. by rewrite drop_drop. Qed.

Lemma advanceBy_advanceBy (n m : nat) (s : t) :
  advanceBy m (advanceBy n s) = advanceBy (n + m) s.
Proof. unfold advanceBy; simpl. f_equal. lia. Qed.

Lemma advanceBy_0 (s : t) : advanceBy 0 s = s.
Proof. destruct s. unfold advanceBy. simpl. f_equal. lia. Qed.

Lemma eos_rest (s : t) :
  eos s = match rest s with EmptyString => true | String _ _ => false end.
Proof.
  unfold eos, rest. destruct (JsString.drop _ _) eqn:E.
  - apply drop_empty_iff in E. by apply Nat.leb_le.
  - apply Nat.leb_gt.
    destruct (Nat.le_gt_cases (JsString.length (_source s)) (_pos s))
      as [H|H]; [|done].
    apply drop_empty_iff in H. congruence.
Qed.

Lemma eos_false (s : t) :
  eos s = false -> exists c r, rest s = String c r.
Proof. rewrite eos_rest. destruct (rest s); [done|eauto]. Qed.

Lemma charAt_pos (s : t) :
  JsString.charAt (_pos s) (_source s) =
  match rest s with String c _ => Some c | EmptyString => None end.
Proof. reflexivity. Qed.

Lemma _advanceIfCharCode_rest (c : ascii) (s : t) :
  _advanceIfCharCode c s =
  match rest s with
  | String c' _ => if JsString.isChar c c' then 1 else 0
  | EmptyString => 0
  end.
Proof. unfold _advanceIfCharCode. rewrite charAt_pos. by destruct (rest s). Qed.

Lemma peek_rest (s : t) :
  peek s = match rest s with
           | String c _ => (Ok c, s)
           | EmptyString => (Throw "Stream is at the end", s)
           end.
Proof. unfold peek. rewrite charAt_pos. by destruct (rest s). Qed.

Lemma next_rest (s : t) :
  next s = match rest s with
           | String c _ => (Ok c, advanceBy 1 s)
           | EmptyString => (Throw "Stream is at the end", s)
           end.
Proof. unfold next. rewrite charAt_pos. by destruct (rest s). Qed.

Lemma next2_rest (s : t) :
  next2 s = match rest s with
            | String c _ => (Ok tt, advanceBy 1 s)
            | EmptyString => (Throw "Stream is at the end", s)
            end.
Proof. unfold next2. rewrite charAt_pos. by destruct (rest s). Qed.

Lemma advanced_text (n : nat) (s : t) :
  JsString.substring (_pos s) (_pos s + n) (_source s) =
  JsString.take n (rest s).
Proof. apply substring_from. Qed.

End LineStreamFacts.

Module HtmlFacts.
Import Html LineStreamFacts JsStringFacts.

(** *** Symbolic execution of the monadic code

    The calls whose outcome depends on the text ahead are rewritten to a
    case analysis on [LineStream.rest]. *)

Lemma truthy_true (n : nat) : truthy n = true -> 1 <= n.
Proof. unfold truthy. destruct n; [done|lia]. Qed.

Lemma truthy_false (n : nat) : truthy n = false -> n = 0.
Proof. unfold truthy. by destruct n. Qed.

Lemma ltb_truthy (n : nat) : (0 <? n) = truthy n.
Proof. by destruct n. Qed.

Lemma eos_at (s : LineStream.t) (c : ascii) (r : string) :
  LineStream.rest s = String c r -> LineStream.eos s = false.
Proof. intros H. by rewrite eos_rest, H. Qed.

Lemma bind_notEosAndPeekIs {B} (c : ascii) (k : bool -> M B) (w : world) :
  bind (notEosAndPeekIs c) k w =
  k match LineStream.rest (stream w) with
    | String c' _ => JsString.isChar c c'
    | EmptyString => false
    end w.
Proof.
  destruct w as [st s].
  unfold notEosAndPeekIs, bind, Html.eos, callThrowing, ret.
  cbn [stream this]. rewrite eos_rest.
  destruct (LineStream.rest s) eqn:E; [done|].
  cbn [stream this]. by rewrite peek_rest, E.
Qed.

Lemma bind_skippedWhitespaceOrEos {B} (k : bool -> M B) (w : world) :
  bind skippedWhitespaceOrEos k w =
  let n := JsString.span LineStream.isWhitespace (LineStream.rest (stream w)) in
  if truthy n
  then k true (mkWorld (this w) (LineStream.advanceBy n (stream w)))
  else k (LineStream.eos (stream w)) w.
Proof.
  destruct w as [st s]. unfold skippedWhitespaceOrEos, bind, Html.eos, call, ret.
  cbn [stream this LineStream.skipWhitespace2 LineStream._advance2].
  destruct (truthy _) eqn:E; [done|].
  cbn [stream this]. apply truthy_false in E. rewrite E.
  by rewrite advanceBy_0.
Qed.

Lemma bind_next2 {B} (k : unit -> M B) (w : world) :
  bind (callThrowing LineStream.next2) k w =
  match LineStream.rest (stream w) with
  | String _ _ => k tt (mkWorld (this w) (LineStream.advanceBy 1 (stream w)))
  | EmptyString => (Throw "Stream is at the end", w)
  end.
Proof.
  destruct w as [st s]. unfold bind, callThrowing. cbn [stream this].
  rewrite next2_rest. by destruct (LineStream.rest s).
Qed.

Lemma bind_next {B} (k : ascii -> M B) (w : world) :
  bind (callThrowing LineStream.next) k w =
  match LineStream.rest (stream w) with
  | String c _ => k c (mkWorld (this w) (LineStream.advanceBy 1 (stream w)))
  | EmptyString => (Throw "Stream is at the end", w)
  end.
Proof.
  destruct w as [st s]. unfold bind, callThrowing. cbn [stream this].
  rewrite next_rest. by destruct (LineStream.rest s).
Qed.

Lemma bind_peek {B} (k : ascii -> M B) (w : world) :
  bind (callThrowing LineStream.peek) k w =
  match LineStream.rest (stream w) with
  | String c _ => k c w
  | EmptyString => (Throw "Stream is at the end", w)
  end.
Proof.
  destruct w as [st s]. unfold bind, callThrowing. cbn [stream this].
  rewrite peek_rest. by destruct (LineStream.rest s).
Qed.

Lemma _advanceIfRegExp_le (re : LineStream.RegExp) (s : LineStream.t) :
  LineStream._advanceIfRegExp re s <= JsString.length (LineStream.rest s).
Proof.
  unfold LineStream._advanceIfRegExp. destruct (LineStream.eos s); [lia|].
  generalize (LineStream.rest s); clear s.
  induction re as [cls|cls|cls re IH]; intros r; simpl.
  - apply span_le.
  - destruct (_ =? 0); [lia|apply span_le].
  - destruct r as [|c r]; [lia|].
    destruct (cls c); [|lia]. specialize (IH r).
    destruct (LineStream.lastMatchLength re r); unfold JsString.length in *;
      simpl; lia.
Qed.

Lemma _advanceUntilString_le (c : string) (b : bool) (s : LineStream.t) :
  LineStream._advanceUntilString c b s <= JsString.length (LineStream.rest s).
Proof.
  unfold LineStream._advanceUntilString.
  destruct (JsString.indexOf c _) as [i|] eqn:E; [|lia].
  apply indexOf_bound in E. destruct b; lia.
Qed.

Lemma length_advanced (n : nat) (s : LineStream.t) :
  n <= JsString.length (LineStream.rest s) ->
  JsString.length
    (JsString.substring (LineStream._pos s) (LineStream._pos s + n)
       (LineStream._source s)) = n.
Proof. intros H. rewrite advanced_text, length_take. lia. Qed.

Lemma length_name (re : LineStream.RegExp) (s : LineStream.t) :
  JsString.length
    (JsString.toLowerCase
       (JsString.substring (LineStream._pos s)
          (LineStream._pos s + LineStream._advanceIfRegExp re s)
          (LineStream._source s))) = LineStream._advanceIfRegExp re s.
Proof.
  rewrite length_toLowerCase. apply length_advanced, _advanceIfRegExp_le.
Qed.

Lemma length_regExpText (re : LineStream.RegExp) (s : LineStream.t) :
  JsString.length
    (JsString.substring (LineStream._pos s)
       (LineStream._pos s + LineStream._advanceIfRegExp re s)
       (LineStream._source s)) = LineStream._advanceIfRegExp re s.
Proof. apply length_advanced, _advanceIfRegExp_le. Qed.

Lemma length_untilText (c : string) (b : bool) (s : LineStream.t) :
  JsString.length
    (JsString.substring (LineStream._pos s)
       (LineStream._pos s + LineStream._advanceUntilString c b s)
       (LineStream._source s)) = LineStream._advanceUntilString c b s.
Proof. apply length_advanced, _advanceUntilString_le. Qed.

(** Before a string that is not ahead, [advanceUntilString2] consumes
    something. *)
Lemma _advanceUntilString_pos (c : string) (s : LineStream.t) :
  LineStream.eos s = false ->
  LineStream._advanceIfString c s = 0 ->
  c <> EmptyString ->
  1 <= LineStream._advanceUntilString c false s.
Proof.
  unfold LineStream._advanceIfString, LineStream._advanceUntilString.
  rewrite eos_rest. intros Heos H Hc.
  destruct (JsString.indexOf c _) as [[|i]|] eqn:E.
  - apply indexOf_zero in E. rewrite E in H.
    destruct c; [done|]. discriminate H.
  - lia.
  - destruct (LineStream.rest s); [done|]. unfold JsString.length. simpl. lia.
Qed.

Ltac run1 :=
  cbn [tokenize tokenizeIn tokenizeBody Razor.tokenize Razor.tokenizeOverride
       bind ret get assign call Html.eos this stream
       nextElementName nextAttributeName
       kind lastTagName lastAttributeName embeddedContentType
       attributeValueQuote attributeValue
       set_kind set_lastTagName set_lastAttributeName set_embeddedContentType
       set_attributeValueQuote set_attributeValue
       LineStream._advance2 LineStream.advance LineStream.advanceIfCharCode2
       LineStream.advanceIfString2 LineStream.advanceIfStringCaseInsensitive2
       LineStream.advanceUntilString2 LineStream.advanceUntilString
       LineStream.skipWhitespace2 LineStream.advanceIfRegExp].

Lemma bind_assoc {A B C} (m : M A) (f : A -> M B) (k : B -> M C) (w : world) :
  bind (bind m f) k w = bind m (fun x => bind (f x) k) w.
Proof. unfold bind. by destruct (m w) as [[a| |] w']. Qed.

Lemma bind_afterSwitch {B} (k : ITokenizationResult -> M B) (w : world) :
  bind afterSwitch k w =
  bind (callThrowing LineStream.next2)
    (fun _ => bind (assign (set_kind Content))
                (fun _ => k (token (lit EmptyString)))) w.
Proof.
  unfold afterSwitch. by rewrite !bind_assoc.
Qed.

Lemma run_afterSwitch (w : world) :
  afterSwitch w =
  match LineStream.rest (stream w) with
  | String _ _ =>
      (Ok (token (lit EmptyString)),
       mkWorld (set_kind Content (this w))
         (LineStream.advanceBy 1 (stream w)))
  | EmptyString => (Throw "Stream is at the end", w)
  end.
Proof.
  unfold afterSwitch. rewrite bind_next2. by destruct (LineStream.rest _).
Qed.

Ltac run :=
  repeat (run1;
          rewrite ?bind_assoc;
          rewrite ?bind_notEosAndPeekIs, ?bind_skippedWhitespaceOrEos,
            ?bind_next2, ?bind_next, ?bind_peek, ?run_afterSwitch;
          cbn [this stream];
          rewrite ?length_name, ?length_regExpText, ?length_untilText,
            ?ltb_truthy, ?advanceBy_advanceBy, ?advanceBy_0).

Lemma _advanceIfCharCode_le (c : ascii) (s : LineStream.t) :
  LineStream._advanceIfCharCode c s <= JsString.length (LineStream.rest s).
Proof.
  rewrite _advanceIfCharCode_rest.
  destruct (LineStream.rest s) as [|c' r]; [done|].
  unfold JsString.length. destruct (JsString.isChar c c'); simpl; lia.
Qed.

Lemma _advanceIfString_le (c : string) (s : LineStream.t) :
  LineStream._advanceIfString c s <= JsString.length (LineStream.rest s).
Proof.
  unfold LineStream._advanceIfString.
  destruct (JsString.startsWith c _) eqn:E; [|lia].
  by apply startsWith_length.
Qed.

Lemma _advanceIfStringCaseInsensitive_le (c : string) (s : LineStream.t) :
  LineStream._advanceIfStringCaseInsensitive c s
  <= JsString.length (LineStream.rest s).
Proof.
  unfold LineStream._advanceIfStringCaseInsensitive.
  destruct (JsString.startsWithIgnoreCase c _) eqn:E; [|lia].
  by apply startsWithIgnoreCase_length.
Qed.

Lemma skipWhitespace_le (s : LineStream.t) :
  JsString.span LineStream.isWhitespace (LineStream.rest s)
  <= JsString.length (LineStream.rest s).
Proof. apply span_le. Qed.

Lemma length_rest_advanceBy (n : nat) (s : LineStream.t) :
  JsString.length (LineStream.rest (LineStream.advanceBy n s))
  = JsString.length (LineStream.rest s) - n.
Proof. by rewrite rest_advanceBy, length_drop. Qed.

(** Record that the call that has consumed [n] code units has stayed on
    the line. *)
Ltac note_bound n :=
  let B := fresh "B" in
  lazymatch n with
  | LineStream._advanceIfCharCode ?c ?s =>
      pose proof (_advanceIfCharCode_le c s) as B
  | LineStream._advanceIfString ?c ?s =>
      pose proof (_advanceIfString_le c s) as B
  | LineStream._advanceIfStringCaseInsensitive ?c ?s =>
      pose proof (_advanceIfStringCaseInsensitive_le c s) as B
  | LineStream._advanceUntilString ?c ?b ?s =>
      pose proof (_advanceUntilString_le c b s) as B
  | LineStream._advanceIfRegExp ?re ?s =>
      pose proof (_advanceIfRegExp_le re s) as B
  | JsString.span LineStream.isWhitespace (LineStream.rest ?s) =>
      pose proof (skipWhitespace_le s) as B
  | _ => idtac
  end;
  rewrite ?length_rest_advanceBy in *.

Ltac branch :=
  match goal with
  | H : LineStream.rest ?s = String _ _
    |- context [match LineStream.rest ?s with _ => _ end] => rewrite H
  | H : ?c = _ |- context [if ?c then _ else _] => rewrite H
  | |- context [if truthy ?n then _ else _] =>
      let E := fresh "E" in
      destruct (truthy n) eqn:E;
      [apply truthy_true in E; note_bound n
      |apply truthy_false in E; rewrite ?E]
  | |- context [if ?c then _ else _] => destruct c eqn:?
  | |- context [match JsString.charAt 0 ?q with _ => _ end] =>
      destruct (JsString.charAt 0 q) eqn:?
  | |- context [match LineStream.rest ?s with _ => _ end] =>
      destruct (LineStream.rest s) eqn:?
  end.

Ltac leaf :=
  unfold ret;
  match goal with
  | |- progress _ (Ok _, _) =>
      eexists _, _, _; split; [reflexivity|];
      try lia;
      try (match goal with
           | H : LineStream._advanceIfString ?c ?s = 0 |- _ =>
               pose proof (_advanceUntilString_pos c s ltac:(assumption) H
                             ltac:(done));
               pose proof (_advanceUntilString_le c false s);
               lia
           end)
  end.

Lemma tokenize_progress (st : State) (s : LineStream.t) :
  LineStream.eos s = false ->
  progress s (tokenize 2 (mkWorld st s)).
Proof.
  intros Heos. destruct (eos_false s Heos) as (c & r & Hrest).
  assert (1 <= JsString.length (LineStream.rest s)) as Hlen.
  { rewrite Hrest. unfold JsString.length. simpl. lia. }
  destruct st as [k tag attr ty q v]. destruct k.
  all: run.
  all: repeat (branch; run).
  all: try leaf.
  all: exfalso; lia.
Qed.

(** The virtual call is only made in kind [WithinTag] and before the stream
    has advanced. *)
Lemma tokenizeBody_agree (X Y : M ITokenizationResult) (w : world) :
  (forall st', kind st' = WithinTag ->
     X (mkWorld st' (stream w)) = Y (mkWorld st' (stream w))) ->
  tokenizeBody X w = tokenizeBody Y w.
Proof.
  destruct w as [st s]. cbn [stream]. intros H.
  destruct st as [k tag attr ty q v]. destruct k; try reflexivity.
  all: run.
  all: repeat (branch; run).
  all: try reflexivity.
  all: by apply H.
Qed.

(** In kind [WithinTag] there is no virtual call at all. *)
Lemma tokenizeBody_WithinTag (X Y : M ITokenizationResult) (w : world) :
  kind (this w) = WithinTag -> tokenizeBody X w = tokenizeBody Y w.
Proof.
  destruct w as [[k tag attr ty q v] s]. cbn [this kind]. by intros ->.
Qed.

Lemma tokenize_depth (fuel : nat) (w : world) :
  tokenize (S (S fuel)) w = tokenize 2 w.
Proof.
  unfold tokenize. cbn [tokenizeIn].
  apply tokenizeBody_agree. intros st' Hk.
  by apply tokenizeBody_WithinTag.
Qed.

Lemma tokenize_returns (w : world) : (tokenize 2 w).1 <> OutOfFuel.
Proof.
  destruct w as [[k tag attr ty q v] s]. destruct k.
  all: run.
  all: repeat (branch; run).
  all: done.
Qed.

End HtmlFacts.

Module TokenizerClaims.
Import Html LineStreamFacts JsStringFacts HtmlFacts.

(** Execution on a stream whose text ahead is known (hypothesis [H]). *)
Ltac known H :=
  repeat (run;
          rewrite ?_advanceIfCharCode_rest;
          unfold LineStream._advanceIfString,
            LineStream._advanceIfStringCaseInsensitive;
          rewrite ?rest_advanceBy, ?H;
          cbn [JsString.drop Nat.add JsString.length
               String.length truthy Nat.eqb negb andb];
          rewrite ?isChar_refl).

Lemma lower_bang (c : ascii) :
  JsString.isChar (JsString.lowerChar "!") (JsString.lowerChar c) = true ->
  c = "!"%char.
Proof.
  destruct c as [[] [] [] [] [] [] [] []]; vm_compute; congruence.
Qed.

Lemma lower_D_not_dash (c : ascii) :
  JsString.isChar (JsString.lowerChar "D") (JsString.lowerChar c) = true ->
  JsString.isChar "-" c = false.
Proof.
  destruct c as [[] [] [] [] [] [] [] []]; vm_compute; congruence.
Qed.

Lemma doctype_not_comment (after : string) :
  JsString.startsWithIgnoreCase "!DOCTYPE" after = true ->
  exists r, after = String "!" r /\ JsString.startsWith "!--" after = false.
Proof.
  destruct after as [|c1 [|c2 r]]; cbn [JsString.startsWithIgnoreCase];
    try done.
  - rewrite andb_false_r. done.
  - intros [->%lower_bang [H%lower_D_not_dash _]%andb_true_iff]%andb_true_iff.
    eexists; split; [done|]. cbn [JsString.startsWith].
    by rewrite H, andb_false_r.
Qed.

Section Content.
Variables (st : State) (s : LineStream.t) (after : string) (fuel : nat).
Hypothesis Hkind : kind st = Content.
Hypothesis Hrest : LineStream.rest s = String "<" after.

Lemma content_comment :
  JsString.startsWith "!--" after = true ->
  tokenize (S fuel) (mkWorld st s) =
  (Ok (delimiter DELIM_COMMENT),
   mkWorld (set_kind WithinComment st) (LineStream.advanceBy 4 s)).
Proof using Hkind Hrest.
  intros H1.
  destruct st as [k tag attr ty q v]. cbn [kind] in Hkind. subst k.
  destruct (startsWith_cons _ _ _ H1) as (r & -> & _).
  known Hrest. rewrite H1. known Hrest. reflexivity.
Qed.

Lemma content_doctype :
  JsString.startsWithIgnoreCase "!DOCTYPE" after = true ->
  tokenize (S fuel) (mkWorld st s) =
  (Ok (delimiter DELIM_DOCTYPE),
   mkWorld (set_kind WithinDoctype st) (LineStream.advanceBy 9 s)).
Proof using Hkind Hrest.
  intros H2.
  destruct st as [k tag attr ty q v]. cbn [kind] in Hkind. subst k.
  destruct (doctype_not_comment _ H2) as (r & -> & H1).
  known Hrest. rewrite H1. known Hrest. rewrite H2. known Hrest. reflexivity.
Qed.

Lemma content_end_tag :
  JsString.startsWith "/" after = true ->
  tokenize (S fuel) (mkWorld st s) =
  (Ok (delimiter DELIM_END),
   mkWorld (set_kind OpeningEndTag st) (LineStream.advanceBy 2 s)).
Proof using Hkind Hrest.
  intros H3.
  destruct st as [k tag attr ty q v]. cbn [kind] in Hkind. subst k.
  destruct (startsWith_cons _ _ _ H3) as (r & -> & _).
  known Hrest. 
  replace (JsString.isChar "!" "/") with false by done.
  known Hrest. reflexivity.
Qed.

Lemma content_start_tag :
  JsString.startsWith "!--" after = false ->
  JsString.startsWithIgnoreCase "!DOCTYPE" after = false ->
  JsString.startsWith "/" after = false ->
  tokenize (S fuel) (mkWorld st s) =
  (Ok (delimiter DELIM_START),
   mkWorld (set_kind OpeningStartTag st) (LineStream.advanceBy 1 s)).
Proof using Hkind Hrest.
  intros H1 H2 H3.
  destruct st as [k tag attr ty q v]. cbn [kind] in Hkind. subst k.
  known Hrest. destruct after as [|c r]; known Hrest; [reflexivity|].
  assert (JsString.isChar "/" c = false) as Hc.
  { cbn [JsString.startsWith] in H3. by rewrite andb_true_r in H3. }
  destruct (JsString.isChar "!" c) eqn:E.
  - known Hrest. rewrite H1. known Hrest. rewrite H2. known Hrest.
    rewrite Hc. known Hrest. reflexivity.
  - known Hrest. rewrite Hc. known Hrest. reflexivity.
Qed.

End Content.

Lemma span_head_false (f : ascii -> bool) (c : ascii) (r : string) :
  f c = false -> JsString.span f (String c r) = 0.
Proof. intros H. cbn [JsString.span]. by rewrite H. Qed.

Lemma listContains_tags (tag : string) :
  listContains tagsEmbeddingContent tag = true <->
  tag = "script" \/ tag = "style".
Proof.
  unfold listContains, tagsEmbeddingContent, JsString.eqb. cbn [existsb].
  rewrite !orb_true_iff, !bool_decide_eq_true. intuition congruence.
Qed.

Section WithinTag.
Variables (st : State) (s : LineStream.t) (r : string) (fuel : nat).
Hypothesis Hkind : kind st = WithinTag.
Hypothesis Hrest : LineStream.rest s = String ">" r.

Lemma no_attribute_name :
  LineStream._advanceIfRegExp attributeNameRegExp s = 0.
Proof using Hrest.
  unfold LineStream._advanceIfRegExp. rewrite (eos_at _ _ _ Hrest), Hrest.
  reflexivity.
Qed.

Lemma withinTag_close :
  tokenize (S fuel) (mkWorld st s) =
  (Ok (delimiter DELIM_START),
   mkWorld
     (set_kind (if listContains tagsEmbeddingContent (lastTagName st)
                then WithinEmbeddedContent else Content) st)
     (LineStream.advanceBy 1 s)).
Proof using Hkind Hrest.
  destruct st as [k tag attr ty q v]. cbn [kind] in Hkind. subst k.
  assert (JsString.startsWith "/>" (String ">" r) = false) as Hslash by done.
  run. rewrite Hrest at 1. rewrite span_head_false by done.
  cbn [truthy Nat.eqb negb]. rewrite (eos_at _ _ _ Hrest). run.
  destruct (isStr attr EmptyString).
  - run. rewrite no_attribute_name. known Hrest. rewrite Hslash.
    known Hrest. by destruct (listContains _ _).
  - known Hrest. rewrite Hslash. known Hrest. by destruct (listContains _ _).
Qed.

End WithinTag.

Lemma enterNestedMode_true (state : HTMLMode.IState) :
  HTMLMode.enterNestedMode state = true <->
  exists cls fields,
    state = HTMLMode.StateObject cls fields /\
    kind fields = WithinEmbeddedContent.
Proof.
  destruct state as [cls fields|id]; cbn [HTMLMode.enterNestedMode].
  - rewrite bool_decide_eq_true. split; [eauto|].
    by intros (? & ? & [= <- <-] & ?).
  - split; [done|]. by intros (? & ? & ? & _).
Qed.

(** *** Razor *)

(** The stream is not at its end and its next code unit is [c]. *)
Lemma override_inherited (X : M ITokenizationResult) (w : world) :
  peekIs "@" (stream w) = false ->
  Razor.tokenizeOverride X w = X w.
Proof.
  intros H. unfold Razor.tokenizeOverride. rewrite bind_notEosAndPeekIs.
  unfold peekIs in H. by rewrite H.
Qed.

Lemma tokenizeIn_override (fuel : nat) (st : State) (s : LineStream.t) :
  peekIs "@" s = false ->
  tokenizeIn Razor.tokenizeOverride fuel (mkWorld st s) =
  tokenize fuel (mkWorld st s).
Proof.
  intros H. unfold tokenize. revert st.
  induction fuel as [|fuel IH]; intros st; [done|].
  cbn [tokenizeIn]. apply tokenizeBody_agree. cbn [stream]. intros st' _.
  rewrite override_inherited by done. apply IH.
Qed.

Lemma razor_refines_html (fuel : nat) (st : State) (s : LineStream.t) :
  peekIs "@" s = false ->
  Razor.tokenize fuel (mkWorld st s) = tokenize fuel (mkWorld st s).
Proof.
  intros H. unfold Razor.tokenize. rewrite override_inherited by done.
  by apply tokenizeIn_override.
Qed.

(** *** Repeated calls *)

Lemma tokenizeLine_ends (steps : nat) (st : State) (s : LineStream.t) :
  remaining s <= steps ->
  exists rs w',
    tokenizeLine 2 steps (mkWorld st s) = Some (rs, w') /\
    LineStream.eos (stream w') = true.
Proof.
  revert st s. induction steps as [|steps IH]; intros st s Hs.
  - exists [], (mkWorld st s). cbn [tokenizeLine stream].
    assert (LineStream.eos s = true) as ->; [|done].
    unfold LineStream.eos, remaining in *. apply Nat.leb_le. lia.
  - cbn [tokenizeLine stream]. destruct (LineStream.eos s) eqn:Heos.
    { by exists [], (mkWorld st s). }
    destruct (tokenize_progress st s Heos) as (t & st' & n & -> & Hn & _).
    destruct (IH st' (LineStream.advanceBy n s)) as (rs & w' & -> & Hw').
    { unfold LineStream.eos in Heos. apply Nat.leb_gt in Heos.
      unfold remaining, LineStream.advanceBy, JsString.length in *.
      cbn [LineStream._source LineStream._pos] in *. lia. }
    by exists (t :: rs), w'.
Qed.

Lemma tokenizeLine_depth (fuel steps : nat) (w : world) :
  tokenizeLine (S (S fuel)) steps w = tokenizeLine 2 steps w.
Proof.
  revert w. induction steps as [|steps IH]; intros w; [done|].
  cbn [tokenizeLine]. rewrite tokenize_depth.
  destruct (LineStream.eos (stream w)); [done|].
  destruct (tokenize 2 w) as [[r| |] w']; [|done..].
  by rewrite IH.
Qed.

End TokenizerClaims.

Module NestedModeFacts.
Import Html HTMLMode JsStringFacts.

Lemma exec_spec (items : list patternItem) (line : string) (i : nat) :
  exec items line = Some i ->
  i <= JsString.length line /\
  matchesAtStart items (JsString.drop i line) = true /\
  forall j, j < i -> matchesAtStart items (JsString.drop j line) = false.
Proof.
  revert i; induction line as [|c line IH]; intros i; cbn [exec].
  - destruct (matchesAtStart items EmptyString) eqn:E; [|done].
    intros [= <-]. repeat split; try done; try lia; intros; lia.
  - destruct (matchesAtStart items (String c line)) eqn:E.
    + intros [= <-]. repeat split; try done; try lia; intros; lia.
    + destruct (exec items line) as [k|]; [|done]. cbn. intros [= <-].
      destruct (IH k eq_refl) as (Hk & Hm & Hj).
      repeat split; try done; [unfold JsString.length in *; simpl; lia|].
      intros [|j] Hlt; [done|]. apply Hj. lia.
Qed.

Lemma substring_prefix (i : nat) (line : string) :
  JsString.substring 0 i line = JsString.take i line.
Proof. unfold JsString.substring. by rewrite Nat.min_0_l, Nat.max_0_l, Nat.sub_0_r. Qed.

Lemma substring_suffix (i : nat) (line : string) :
  i <= JsString.length line ->
  JsString.substring i (JsString.length line) line = JsString.drop i line.
Proof.
  intros H. unfold JsString.substring.
  rewrite Nat.min_l, Nat.max_r by done.
  apply take_all. by rewrite length_drop.
Qed.

Lemma leaving_html (line : string) (state : State)
    (d : ILeavingNestedModeData) :
  HTMLMode.getLeavingNestedModeData line state = Some (Some d) ->
  exists regexp i,
    compileTagName (lastTagName state) = Some regexp /\
    exec regexp line = Some i /\
    nestedModeBuffer d = JsString.take i line /\
    bufferAfterNestedMode d = JsString.drop i line /\
    stateAfterNestedMode d = StateObject StateClass contentState.
Proof.
  unfold HTMLMode.getLeavingNestedModeData.
  destruct (compileTagName _) as [regexp|]; [|done].
  destruct (exec regexp line) as [i|] eqn:E; [|done].
  intros [= <-]. exists regexp, i.
  cbn [nestedModeBuffer bufferAfterNestedMode stateAfterNestedMode].
  rewrite substring_prefix, substring_suffix; [done|].
  by apply exec_spec in E as [? _].
Qed.

Lemma leaving_razor (line : string) (state : State)
    (d : ILeavingNestedModeData) :
  RAZORMode.getLeavingNestedModeData line state = Some (Some d) ->
  exists regexp i,
    compileTagName (lastTagName state) = Some regexp /\
    exec regexp line = Some i /\
    nestedModeBuffer d = JsString.take i line /\
    bufferAfterNestedMode d = JsString.drop i line /\
    stateAfterNestedMode d = StateObject RAZORStateClass contentState.
Proof.
  unfold RAZORMode.getLeavingNestedModeData.
  destruct (HTMLMode.getLeavingNestedModeData line state) as [[d'|]|] eqn:E;
    [|done..].
  apply leaving_html in E as (regexp & i & H1 & H2 & H3 & H4 & _).
  intros [= <-]. exists regexp, i. by cbn.
Qed.

(** *** The tag names that the tokenizer stores

    [lastTagName] is only assigned by [nextElementName]: in every state that
    the tokenizer reaches from the initial state the tag name is one that
    the model of the regular expression covers. *)

Lemma compileChar_lower (c : ascii) :
  nameChar c = true -> is_Some (compileChar (JsString.lowerChar c)).
Proof.
  destruct c as [[] [] [] [] [] [] [] []]; vm_compute; by eauto.
Qed.

Lemma nameStart_nameChar (c : ascii) : nameStart c = true -> nameChar c = true.
Proof.
  unfold nameStart, nameChar. intros ->. done.
Qed.

Lemma compile_span (n : nat) (r : string) :
  n <= JsString.span nameChar r ->
  is_Some (compileTagName (JsString.toLowerCase (JsString.take n r))).
Proof.
  revert r; induction n as [|n IH]; intros r Hn; [by destruct r; eexists|].
  destruct r as [|c r]; cbn [JsString.span] in Hn; [lia|].
  destruct (nameChar c) eqn:Ec; [|lia].
  cbn [JsString.take JsString.toLowerCase compileTagName].
  destruct (compileChar_lower c Ec) as [i ->].
  destruct (IH r ltac:(lia)) as [l ->]. by eexists.
Qed.

Lemma elementName_compiles (s : LineStream.t) :
  is_Some
    (compileTagName
       (JsString.toLowerCase
          (JsString.substring (LineStream._pos s)
             (LineStream._pos s
              + LineStream._advanceIfRegExp elementNameRegExp s)
             (LineStream._source s)))).
Proof.
  rewrite LineStreamFacts.advanced_text.
  unfold LineStream._advanceIfRegExp.
  destruct (LineStream.eos s); [by eexists|].
  destruct (LineStream.rest s) as [|c r]; [by eexists|].
  cbn [elementNameRegExp LineStream.lastMatchLength].
  destruct (nameStart c) eqn:Ec; [|by eexists].
  cbn [fmap option_fmap option_map JsString.take JsString.toLowerCase
       compileTagName].
  destruct (compileChar_lower c (nameStart_nameChar c Ec)) as [i ->].
  destruct (compile_span (JsString.span nameChar r) r ltac:(lia)) as [l ->].
  by eexists.
Qed.

Lemma tokenizeBody_tagName (X : M ITokenizationResult) (w : world) :
  (forall w', tagNameCompiles w' -> tagNameCompiles (X w').2) ->
  tagNameCompiles w -> tagNameCompiles (tokenizeBody X w).2.
Proof.
  destruct w as [[k tag attr ty q v] s]. unfold tagNameCompiles at 2 3.
  cbn [this lastTagName]. intros HX Htag.
  pose proof (elementName_compiles s) as Hname.
  destruct k.
  all: HtmlFacts.run.
  all: repeat (HtmlFacts.branch; HtmlFacts.run).
  all: try (cbn [snd this lastTagName]; first [exact Htag|exact Hname]).
  all: try (apply HX; unfold tagNameCompiles; cbn [this lastTagName];
            exact Htag).
  all: unfold tagNameCompiles;
    cbn [snd this lastTagName set_kind set_lastTagName];
    match goal with
    | E : LineStream._advanceIfRegExp elementNameRegExp _ = 0 |- _ =>
        rewrite E in Hname
    end;
    exact Hname.
Qed.

Lemma tokenizeOverride_tagName (X : M ITokenizationResult) (w : world) :
  (forall w', tagNameCompiles w' -> tagNameCompiles (X w').2) ->
  tagNameCompiles w -> tagNameCompiles (Razor.tokenizeOverride X w).2.
Proof.
  destruct w as [st s]. intros HX Htag.
  unfold Razor.tokenizeOverride, Razor.eosOrPeekIsNot.
  HtmlFacts.run.
  repeat (HtmlFacts.branch; HtmlFacts.run); try exact Htag; by apply HX.
Qed.

Lemma tokenizeIn_tagName
    (override : M ITokenizationResult -> M ITokenizationResult) (fuel : nat) :
  (forall X w,
     (forall w', tagNameCompiles w' -> tagNameCompiles (X w').2) ->
     tagNameCompiles w -> tagNameCompiles (override X w).2) ->
  forall w, tagNameCompiles w -> tagNameCompiles (tokenizeIn override fuel w).2.
Proof.
  intros Hov. induction fuel as [|fuel IH]; intros w H; [done|].
  cbn [tokenizeIn]. apply tokenizeBody_tagName; [|done].
  intros w' Hw'. by apply Hov.
Qed.

Lemma tokenizerState_compiles (st : State) :
  tokenizerState st -> is_Some (compileTagName (lastTagName st)).
Proof.
  induction 1 as [|fuel st s _ IH|fuel st s _ IH].
  - by eexists.
  - by apply (tokenizeIn_tagName (fun X => X) fuel (fun X w HX => HX w)
                (mkWorld st s)).
  - unfold Razor.tokenize.
    apply (tokenizeOverride_tagName _ (mkWorld st s)); [|done].
    apply tokenizeIn_tagName, tokenizeOverride_tagName.
Qed.

(** On the states of the tokenizers the model of the regular expression is
    defined. *)
Lemma leaving_defined (line : string) (st : State) :
  tokenizerState st ->
  is_Some (HTMLMode.getLeavingNestedModeData line st) /\
  is_Some (RAZORMode.getLeavingNestedModeData line st).
Proof.
  intros [regexp H]%tokenizerState_compiles.
  unfold RAZORMode.getLeavingNestedModeData,
    HTMLMode.getLeavingNestedModeData.
  rewrite H. destruct (exec regexp line); split; by eexists.
Qed.

End NestedModeFacts.

Module ScrollbarFacts.
Import Scrollbar.
Local Open Scope Z_scope.

Lemma round_inject_Z (z : Z) : round (inject_Z z) = z.
Proof.
  unfold round, Qfloor, Qplus, inject_Z. cbn [Qnum Qden].
  change (Z.pos (1 * 2)) with 2. rewrite Z.mul_1_l.
  rewrite Z.div_add_l by lia. change (Z.div 1 2) with 0. lia.
Qed.

Lemma round_mono (x y : Q) : (x <= y)%Q -> round x <= round y.
Proof. intros H. unfold round. apply Qfloor_resp_le. lra. Qed.


Lemma floor_nonneg (x : Q) : (0 <= x)%Q -> 0 <= floor x.
Proof. intros H. change 0 with (Qfloor 0). by apply Qfloor_resp_le. Qed.


Lemma ratio_nonneg (representable scrollSize : Z) :
  0 <= representable -> (0 <= ratio representable scrollSize)%Q.
Proof.
  intros H. unfold ratio. destruct (0 <? scrollSize) eqn:E; [|lra].
  apply Z.ltb_lt in E. apply Qle_shift_div_l.
  - change 0%Q with (inject_Z 0). by rewrite <- Zlt_Qlt.
  - rewrite Qmult_0_l. change 0%Q with (inject_Z 0). by rewrite <- Zle_Qle.
Qed.



Lemma refresh_idempotent (s : ScrollbarState) :
  _refreshComputedValues (_refreshComputedValues s) = _refreshComputedValues s.
Proof. reflexivity. Qed.

(** The computed values of a reachable state are up to date. *)
Lemma reachable_refreshed (s : ScrollbarState) :
  reachable s -> _refreshComputedValues s = s.
Proof.
  induction 1 as [a b c|x s _ IH|x s _ IH|x s _ IH].
  - apply refresh_idempotent.
  - unfold setVisibleSize. destruct (negb _); [apply refresh_idempotent|done].
  - unfold setScrollSize. destruct (negb _); [apply refresh_idempotent|done].
  - unfold setScrollPosition.
    destruct (negb _); [apply refresh_idempotent|done].
Qed.


End ScrollbarFacts.

Module ConfigurationFacts.
Import Configuration.

Lemma join_empty {A} : join (∅ : gmap string (promise A)) = Resolved ∅.
Proof.
  unfold join. rewrite decide_True by apply map_Forall_empty.
  by rewrite omap_empty.
Qed.

Section Service.
Context {value : Type}.
Context (resolveStat : uri -> promise IStat).
Context (resolveContents : list uri -> promise (list IContent)).
Context (toResource : string -> uri).
Context (toWorkspaceRelativePath : uri -> string).
Context (extname : string -> string).
Context (newConfigFile : string -> @IConfigFile value).
Context (consolidate : gmap string (@IConfigFile value) -> @consolidatedT value).
Context (getDefaultValues : loc).
Context (workspaceSettingsRootFolder : string).
Context (parseErrorsValue : list string -> value).

Local Abbreviation object := (gmap string value).
Local Abbreviation heap := (gmap loc (gmap string value)).
Local Abbreviation fetchContents :=
  (fetchContents resolveStat resolveContents toResource extname
     workspaceSettingsRootFolder).
Local Abbreviation loadWorkspaceConfiguration :=
  (loadWorkspaceConfiguration resolveStat resolveContents toResource
     toWorkspaceRelativePath extname newConfigFile
     workspaceSettingsRootFolder).
Local Abbreviation missingFolder :=
  (missingFolder resolveStat toResource workspaceSettingsRootFolder).
Local Abbreviation doLoadConfiguration :=
  (doLoadConfiguration resolveStat resolveContents toResource
     toWorkspaceRelativePath extname newConfigFile consolidate
     getDefaultValues workspaceSettingsRootFolder parseErrorsValue).

Lemma fetchContents_missing :
  missingFolder -> fetchContents = Resolved (Some []).
Proof using Type.
  unfold Configuration.fetchContents.
  intros [(err & -> & ->)|(stat & -> & ->)]; done.
Qed.

Lemma loadWorkspaceConfiguration_missing (sv : @service value) :
  missingFolder ->
  bulkFetchFromWorkspacePromise sv = None ->
  exists sv',
    loadWorkspaceConfiguration sv
    = (join (workspaceFilePathToConfiguration sv), sv') /\
    workspaceFilePathToConfiguration sv' = workspaceFilePathToConfiguration sv /\
    objects sv' = objects sv.
Proof using Type.
  intros Hmissing Hnone.
  unfold Configuration.loadWorkspaceConfiguration, storeContents.
  rewrite Hnone, fetchContents_missing by done.
  cbn. eauto.
Qed.

Lemma mergeConfiguration_spec (g : loc) (values : gmap string IConfigFile)
    (h : heap) (G : object) :
  h !! g = Some G ->
  let out := mergeConfiguration consolidate g values h in
  let C := contents (consolidate values) in
  merged out.1 <> g /\
  globals out.1 = g /\
  consolidated out.1 = consolidate values /\
  out.2 !! g = Some G /\
  out.2 !! merged out.1 = Some (C ∪ G) /\
  (forall l, l <> merged out.1 -> out.2 !! l = h !! l).
Proof using Type.
  intros Hg. unfold mergeConfiguration, clone, mixin. cbn.
  set (l' := fresh (dom h)).
  assert (l' <> g) as Hne.
  { intros E. pose proof (is_fresh (dom h)) as Hf. fold l' in Hf.
    rewrite E in Hf. apply Hf, elem_of_dom. eauto. }
  rewrite Hg. cbn. rewrite alter_insert_eq.
  repeat split; try done.
  - by rewrite lookup_insert_ne.
  - by rewrite lookup_insert_eq.
  - intros l Hl. by rewrite lookup_insert_ne.
Qed.

Lemma doLoadConfiguration_spec (sv : @service value)
    (values : gmap string IConfigFile) (G : object) :
  (loadWorkspaceConfiguration sv).1 = Resolved values ->
  objects (loadWorkspaceConfiguration sv).2 !! getDefaultValues = Some G ->
  let merge :=
    mergeConfiguration consolidate getDefaultValues values
      (objects (loadWorkspaceConfiguration sv).2) in
  exists sv',
    doLoadConfiguration sv = (Resolved (Some (merged merge.1)), sv') /\
    cachedConfig sv' = Some merge.1 /\
    objects sv' !! getDefaultValues = Some G /\
    (parseErrors (consolidate values) = [] -> objects sv' = merge.2).
Proof using Type.
  intros Hv Hg merge.
  destruct (mergeConfiguration_spec getDefaultValues values _ G Hg)
    as (Hne & _ & Hc & Hg' & _). fold merge in Hne, Hc, Hg'.
  unfold Configuration.doLoadConfiguration.
  destruct (loadWorkspaceConfiguration sv) as [p sv1]. cbn [fst snd] in *.
  subst p. fold merge. destruct merge as [res h'].
  cbn [fst snd] in *. unfold getConfiguration. cbn [cachedConfig].
  rewrite Hc. destruct (parseErrors (consolidate values)) as [|e es].
  - cbn. eexists. repeat split; done.
  - cbn. eexists. repeat split; [|done].
    cbn [objects]. by rewrite lookup_alter_ne.
Qed.

End Service.

End ConfigurationFacts.

(** * The claims *)

Import Html.

(** ** The tokenizer *)

(** Claim C1.  In kind [Content], on a stream whose next code unit is [<],
    [tokenize] consumes the delimiter: it goes to [WithinComment] with a
    [DELIM_COMMENT] token when [!--] follows, to [WithinDoctype] with
    [DELIM_DOCTYPE] when [!DOCTYPE] follows in any case, to [OpeningEndTag]
    with [DELIM_END] when [/] follows, and to [OpeningStartTag] with
    [DELIM_START] otherwise. *)
Theorem C1_content_delimiter (st : State) (s : LineStream.t) (after : string)
    (fuel : nat) :
  kind st = Content ->
  LineStream.rest s = String "<" after ->
  let out := tokenize (S fuel) (mkWorld st s) in
  (JsString.startsWith "!--" after = true ->
   out = (Ok (delimiter DELIM_COMMENT),
          mkWorld (set_kind WithinComment st) (LineStream.advanceBy 4 s))) /\
  (JsString.startsWithIgnoreCase "!DOCTYPE" after = true ->
   out = (Ok (delimiter DELIM_DOCTYPE),
          mkWorld (set_kind WithinDoctype st) (LineStream.advanceBy 9 s))) /\
  (JsString.startsWith "/" after = true ->
   out = (Ok (delimiter DELIM_END),
          mkWorld (set_kind OpeningEndTag st) (LineStream.advanceBy 2 s))) /\
  (JsString.startsWith "!--" after = false ->
   JsString.startsWithIgnoreCase "!DOCTYPE" after = false ->
   JsString.startsWith "/" after = false ->
   out = (Ok (delimiter DELIM_START),
          mkWorld (set_kind OpeningStartTag st) (LineStream.advanceBy 1 s))).
Proof.
  intros Hk Hr out. subst out. repeat split.
  - by apply TokenizerClaims.content_comment.
  - by apply TokenizerClaims.content_doctype.
  - by apply TokenizerClaims.content_end_tag.
  - by apply TokenizerClaims.content_start_tag.
Qed.

Lemma C1_content_delimiter_witness :
  tokenize 1 (mkWorld (stateOfKind Content) (LineStream.mk "a<!DocType html>" 1))
  = (Ok (delimiter DELIM_DOCTYPE),
     mkWorld (stateOfKind WithinDoctype) (LineStream.mk "a<!DocType html>" 10)).
Proof.
  exact (proj1 (proj2 (C1_content_delimiter (stateOfKind Content)
                         (LineStream.mk "a<!DocType html>" 1)
                         "!DocType html>" 0 eq_refl eq_refl)) eq_refl).
Defined.

(** Claim C2.  On a stream that is not at its end, one call of [tokenize],
    in any of the nine kinds, returns a token and advances the stream by at
    least one code unit (and not beyond the end of the line); two nested activations are enough for every call
    (with more fuel the answer is the same); and repeated calls reach the
    end of the line within as many calls as code units are left. *)
Theorem C2_tokenize_progress (st : State) (s : LineStream.t) (fuel : nat) :
  LineStream.eos s = false ->
  (exists r st' n,
     tokenize (2 + fuel) (mkWorld st s)
     = (Ok r, mkWorld st' (LineStream.advanceBy n s)) /\
     1 <= n <= JsString.length (LineStream.rest s))
  /\ tokenize (2 + fuel) (mkWorld st s) = tokenize 2 (mkWorld st s)
  /\ (exists rs w',
        tokenizeLine (2 + fuel) (remaining s) (mkWorld st s) = Some (rs, w')
        /\ LineStream.eos (stream w') = true).
Proof.
  intros Heos. split; [|split].
  - cbn [Nat.add]. rewrite HtmlFacts.tokenize_depth.
    by apply HtmlFacts.tokenize_progress.
  - apply HtmlFacts.tokenize_depth.
  - cbn [Nat.add]. rewrite TokenizerClaims.tokenizeLine_depth.
    by apply TokenizerClaims.tokenizeLine_ends.
Qed.

Lemma C2_tokenize_progress_witness :
  exists r st' n,
    tokenize 2 (mkWorld (stateOfKind AttributeName) (LineStream.mk "x>" 0))
    = (Ok r, mkWorld st' (LineStream.mk "x>" n)) /\ 1 <= n <= 2.
Proof.
  destruct (C2_tokenize_progress (stateOfKind AttributeName)
              (LineStream.mk "x>" 0) 0 eq_refl)
    as [(r & st' & n & H & Hn) _].
  by exists r, st', n.
Defined.

(** The second activation is needed: the jump from [AttributeName] to
    [WithinTag] does not fit into one. *)
Example tokenize_depth_two :
  (tokenize 1 (mkWorld (stateOfKind AttributeName) (LineStream.mk "x>" 0))).1
  = OutOfFuel /\
  (tokenize 2 (mkWorld (stateOfKind AttributeName) (LineStream.mk "x>" 0))).1
  = Ok (token ATTRIB_NAME).
Proof. split; reflexivity. Qed.

(** At the end of the line, kind [Content] has nothing to read and
    [stream.next2()] throws. *)
Example tokenize_at_eos :
  (tokenize 2 (mkWorld (stateOfKind Content) (LineStream.mk "ab" 2))).1
  = Throw "Stream is at the end".
Proof. reflexivity. Qed.

(** Claim C3.  On a stream that is at its end or whose next code unit is
    not [@], [RAZORState.tokenize] returns what the inherited
    [State.tokenize] returns on the same stream and the same fields: the
    same result, the same state and the same stream afterwards. *)
Theorem C3_razor_refines_html (fuel : nat) (st : State) (s : LineStream.t) :
  (LineStream.eos s = true \/
   exists c r, LineStream.rest s = String c r /\ c <> "@"%char) ->
  Razor.tokenize fuel (mkWorld st s) = tokenize fuel (mkWorld st s).
Proof.
  intros H. apply TokenizerClaims.razor_refines_html. unfold peekIs.
  destruct H as [H|(c & r & -> & Hc)].
  - rewrite LineStreamFacts.eos_rest in H. by destruct (LineStream.rest s).
  - unfold JsString.isChar. destruct (ascii_dec "@" c); congruence.
Qed.

Lemma C3_razor_refines_html_witness :
  Razor.tokenize 2 (mkWorld (stateOfKind Content) (LineStream.mk "<p>" 0))
  = tokenize 2 (mkWorld (stateOfKind Content) (LineStream.mk "<p>" 0)).
Proof.
  apply (C3_razor_refines_html 2 (stateOfKind Content)
           (LineStream.mk "<p>" 0)).
  right. exists "<"%char, "p>". split; [reflexivity|discriminate].
Defined.

(** The two tokenizers differ only before an [@]. *)
Corollary razor_differs_only_at (fuel : nat) (st : State) (s : LineStream.t) :
  Razor.tokenize fuel (mkWorld st s) <> tokenize fuel (mkWorld st s) ->
  exists r, LineStream.rest s = String "@" r.
Proof.
  intros Hne. destruct (peekIs "@" s) eqn:E.
  - unfold peekIs in E. destruct (LineStream.rest s) as [|c r]; [done|].
    apply JsStringFacts.isChar_true in E. subst c. eauto.
  - by apply (TokenizerClaims.razor_refines_html fuel st) in E.
Qed.

(** Before an [@] they do differ: Razor switches to C#. *)
Example razor_at :
  (Razor.tokenize 2
     (mkWorld (stateOfKind Content) (LineStream.mk "@x" 0))).1
  = Ok {| type := Some EMBED_CS; dontMergeWithPrev := false;
          nextState := Some (CSStatement (stateOfKind Content) 0 0
                               true true true false) |} /\
  (tokenize 2 (mkWorld (stateOfKind Content) (LineStream.mk "@x" 0))).1
  = Ok (token (lit EmptyString)).
Proof. split; reflexivity. Qed.

(** Claim C4.  In kind [WithinTag], the token of a [>] is [DELIM_START]
    and the kind becomes [WithinEmbeddedContent] exactly when [lastTagName]
    is [script] or [style], and [Content] otherwise; [enterNestedMode] is
    true exactly for the HTML states of kind [WithinEmbeddedContent]. *)
Theorem C4_embedded_content_entry (st : State) (s : LineStream.t)
    (r : string) (fuel : nat) (state : HTMLMode.IState) :
  kind st = WithinTag ->
  LineStream.rest s = String ">" r ->
  (exists k',
     tokenize (S fuel) (mkWorld st s)
     = (Ok (delimiter DELIM_START),
        mkWorld (set_kind k' st) (LineStream.advanceBy 1 s)) /\
     (k' = WithinEmbeddedContent <->
      lastTagName st = "script" \/ lastTagName st = "style") /\
     (k' = Content <->
      ~ (lastTagName st = "script" \/ lastTagName st = "style")))
  /\ (HTMLMode.enterNestedMode state = true <->
      exists cls fields,
        state = HTMLMode.StateObject cls fields /\
        kind fields = WithinEmbeddedContent).
Proof.
  intros Hk Hr. split; [|apply TokenizerClaims.enterNestedMode_true].
  eexists. split; [by eapply TokenizerClaims.withinTag_close|].
  rewrite <- TokenizerClaims.listContains_tags.
  destruct (listContains tagsEmbeddingContent (lastTagName st)); split;
    split; congruence.
Qed.

Lemma C4_embedded_content_entry_witness :
  tokenize 1
    (mkWorld (mkState WithinTag "script" None None EmptyString EmptyString)
       (LineStream.mk "<script>" 7))
  = (Ok (delimiter DELIM_START),
     mkWorld
       (mkState WithinEmbeddedContent "script" None None EmptyString
          EmptyString)
       (LineStream.mk "<script>" 8)).
Proof.
  destruct (C4_embedded_content_entry
              (mkState WithinTag "script" None None EmptyString EmptyString)
              (LineStream.mk "<script>" 7) EmptyString 0
              HTMLMode.getInitialState eq_refl eq_refl)
    as [(k' & H & Hk & _) _].
  rewrite H. rewrite (proj2 Hk); [reflexivity|by left].
Defined.

(** ** The nested mode *)

Import HTMLMode.

(** Claim C7, as stated, fails: the regular expression allows white space
    before the [>], so a line is also split where the text [</] + tag name
    + [>] does not occur. *)
Lemma C7_counterexample :
  let state := mkState WithinEmbeddedContent "script" None None
                 EmptyString EmptyString in
  exists d,
    HTMLMode.getLeavingNestedModeData "</script >" state = Some (Some d) /\
    splitAtClosingTag "</script >" (lastTagName state) = None /\
    splitAtClosingTag "</script >" (lastTagName state)
    <> Some (nestedModeBuffer d, bufferAfterNestedMode d).
Proof. eexists. repeat split. discriminate. Qed.

(** Claim C7, amended.  When [getLeavingNestedModeData] of the HTML or of
    the Razor mode returns a result, the two buffers together are the line,
    the line is split at the leftmost match of [</], the tag name (read as
    a regular expression, without regard to case), optional white space and
    [>], and the state after the nested mode has kind [Content] and empty
    fields. *)
Theorem C7_leaving_nested_mode (line : string) (state : State)
    (cls : stateClass) (d : ILeavingNestedModeData) :
  match cls with
  | StateClass => HTMLMode.getLeavingNestedModeData line state
  | RAZORStateClass => RAZORMode.getLeavingNestedModeData line state
  end = Some (Some d) ->
  nestedModeBuffer d +:+ bufferAfterNestedMode d = line /\
  stateAfterNestedMode d = StateObject cls contentState /\
  exists regexp i,
    compileTagName (lastTagName state) = Some regexp /\
    nestedModeBuffer d = JsString.take i line /\
    bufferAfterNestedMode d = JsString.drop i line /\
    matchesAtStart regexp (bufferAfterNestedMode d) = true /\
    forall j, j < i -> matchesAtStart regexp (JsString.drop j line) = false.
Proof.
  intros H.
  assert (exists regexp i,
            compileTagName (lastTagName state) = Some regexp /\
            exec regexp line = Some i /\
            nestedModeBuffer d = JsString.take i line /\
            bufferAfterNestedMode d = JsString.drop i line /\
            stateAfterNestedMode d = StateObject cls contentState)
    as (regexp & i & Hc & He & Hb & Ha & Hs).
  { destruct cls; [by apply NestedModeFacts.leaving_html
                  |by apply NestedModeFacts.leaving_razor]. }
  apply NestedModeFacts.exec_spec in He as (_ & Hm & Hj).
  rewrite Hb, Ha. split; [apply JsStringFacts.take_drop|].
  split; [done|]. by exists regexp, i.
Qed.

Lemma C7_leaving_nested_mode_witness :
  exists d,
    HTMLMode.getLeavingNestedModeData "var x;</SCRIPT  >tail"
      (mkState WithinEmbeddedContent "script" None None EmptyString
         EmptyString) = Some (Some d) /\
    nestedModeBuffer d = "var x;" /\
    bufferAfterNestedMode d = "</SCRIPT  >tail" /\
    nestedModeBuffer d +:+ bufferAfterNestedMode d = "var x;</SCRIPT  >tail".
Proof.
  eexists. split; [reflexivity|]. split; [reflexivity|].
  split; [reflexivity|].
  exact (proj1 (C7_leaving_nested_mode "var x;</SCRIPT  >tail"
                  (mkState WithinEmbeddedContent "script" None None
                     EmptyString EmptyString)
                  StateClass _ eq_refl)).
Defined.

(** A dot in the tag name matches any code unit of the line. *)
Example leaving_dot :
  exists d,
    HTMLMode.getLeavingNestedModeData "</axb>"
      (mkState WithinEmbeddedContent "a.b" None None EmptyString EmptyString)
    = Some (Some d).
Proof. eexists. reflexivity. Qed.

(** ** The scrollbar *)




(** The two clamps at work. *)
Example validateScrollPosition_values :
  let s := (Scrollbar.setScrollSize 1000
              (Scrollbar.setVisibleSize 100 (Scrollbar.new 0 10 0)).2).2 in
  Scrollbar.validateScrollPosition (-(7 # 2)) s = 0%Z /\
  Scrollbar.validateScrollPosition (5 # 2) s = 3%Z /\
  Scrollbar.validateScrollPosition 5000 s = 900%Z /\
  Scrollbar.validateScrollPosition 5
    (Scrollbar.setVisibleSize 100 (Scrollbar.new 0 10 0)).2 = (-100)%Z.
Proof. repeat split. Qed.

(** ** The configuration service *)

Import Configuration.

(** Claim C5 on the code: a stat that is rejected with an error object is
    treated as an empty folder, but a stat that is rejected with a falsy
    reason makes [loadWorkspaceConfiguration] reject: the error handler
    returns [undefined] and [contents.forEach] throws. *)
Theorem C5_falsy_rejection :
  (loadWithoutFolder (ErrorObject "ENOENT")).1 = Resolved ∅ /\
  (loadWithoutFolder Falsy).1 = Rejected typeError.
Proof. split; reflexivity. Qed.

Section Service.
Context {value : Type}.
Context (resolveStat : uri -> promise IStat).
Context (resolveContents : list uri -> promise (list IContent)).
Context (toResource : string -> uri).
Context (toWorkspaceRelativePath : uri -> string).
Context (extname : string -> string).
Context (newConfigFile : string -> @IConfigFile value).
Context (consolidate : gmap string (@IConfigFile value) -> @consolidatedT value).
Context (getDefaultValues : loc).
Context (workspaceSettingsRootFolder : string).
Context (parseErrorsValue : list string -> value).

Local Abbreviation loadWorkspaceConfiguration :=
  (loadWorkspaceConfiguration resolveStat resolveContents toResource
     toWorkspaceRelativePath extname newConfigFile
     workspaceSettingsRootFolder).
Local Abbreviation doLoadConfiguration :=
  (doLoadConfiguration resolveStat resolveContents toResource
     toWorkspaceRelativePath extname newConfigFile consolidate
     getDefaultValues workspaceSettingsRootFolder parseErrorsValue).

(** With a stat that is rejected with an error object, or that is not a
    directory, a service without configuration files loads the empty map,
    and the merged configuration is a copy of the default values. *)
Lemma missing_folder_is_empty (sv : @service value)
    (G : gmap string value) :
  missingFolder resolveStat toResource workspaceSettingsRootFolder ->
  bulkFetchFromWorkspacePromise sv = None ->
  workspaceFilePathToConfiguration sv = ∅ ->
  contents (consolidate ∅) = ∅ ->
  parseErrors (consolidate ∅) = [] ->
  objects sv !! getDefaultValues = Some G ->
  (loadWorkspaceConfiguration sv).1 = Resolved ∅ /\
  exists m sv',
    doLoadConfiguration sv = (Resolved (Some m), sv') /\
    objects sv' !! m = Some G /\
    objects sv' !! getDefaultValues = Some G.
Proof using Type.
  intros Hmissing Hnone Hfiles Hc Hp Hg.
  destruct (ConfigurationFacts.loadWorkspaceConfiguration_missing
              resolveStat resolveContents toResource toWorkspaceRelativePath
              extname newConfigFile workspaceSettingsRootFolder sv
              Hmissing Hnone) as (sv1 & Hload & _ & Hobj).
  rewrite Hfiles, ConfigurationFacts.join_empty in Hload.
  split; [by rewrite Hload|].
  destruct (ConfigurationFacts.doLoadConfiguration_spec
              resolveStat resolveContents toResource toWorkspaceRelativePath
              extname newConfigFile consolidate getDefaultValues
              workspaceSettingsRootFolder parseErrorsValue sv ∅ G)
    as (sv' & Hdo & _ & Hg' & Hh).
  { by rewrite Hload. }
  { rewrite Hload. cbn [snd]. by rewrite Hobj. }
  eexists _, sv'. split; [exact Hdo|]. split; [|done].
  rewrite (Hh Hp), Hload. cbn [snd]. rewrite Hobj.
  destruct (ConfigurationFacts.mergeConfiguration_spec consolidate
              getDefaultValues ∅ (objects sv) G Hg)
    as (_ & _ & _ & _ & Hm & _).
  rewrite Hm, Hc. f_equal. apply (left_id ∅ (∪)).
Qed.


End Service.


Module TokenizerFacts.
Import Html LineStreamFacts JsStringFacts HtmlFacts TokenizerClaims.

Lemma eos_true_rest (s : LineStream.t) :
  LineStream.eos s = true -> LineStream.rest s = EmptyString.
Proof. rewrite eos_rest. by destruct (LineStream.rest s). Qed.

Lemma substring_nothing (p : nat) (s : string) :
  JsString.substring p (p + 0) s = EmptyString.
Proof. by rewrite substring_from. Qed.

(** Execution at the end of the stream. *)
Ltac at_eos Heos Hrest :=
  repeat (run;
          rewrite ?_advanceIfCharCode_rest;
          unfold LineStream._advanceIfString,
            LineStream._advanceIfStringCaseInsensitive,
            LineStream._advanceUntilString, LineStream._advanceIfRegExp;
          rewrite ?Heos, ?Hrest;
          cbn [JsString.drop Nat.add JsString.length String.length truthy
               Nat.eqb negb andb orb JsString.span JsString.startsWith
               JsString.indexOf JsString.toLowerCase];
          rewrite ?substring_nothing, ?advanceBy_0).

Lemma tokenize_at_end (st : State) (s : LineStream.t) (fuel : nat) :
  LineStream.eos s = true ->
  tokenize (S fuel) (mkWorld st s) =
  match kind st with
  | OpeningEndTag | AttributeName | AttributeValue =>
      (Ok (token (lit EmptyString)), mkWorld st s)
  | WithinTag =>
      (Ok (token (lit EmptyString)),
       mkWorld (set_lastAttributeName (Some EmptyString) st) s)
  | OpeningStartTag =>
      (Throw "Stream is at the end",
       mkWorld (set_lastTagName EmptyString st) s)
  | Content | WithinComment | WithinDoctype | WithinEmbeddedContent =>
      (Throw "Stream is at the end", mkWorld st s)
  end.
Proof.
  intros Heos. pose proof (eos_true_rest s Heos) as Hrest.
  destruct st as [k tag attr ty q v]. destruct k; cbn [kind].
  all: at_eos Heos Hrest.
  all: reflexivity.
Qed.

Lemma append_cons (c : ascii) (a b : string) :
  String c a +:+ b = String c (a +:+ b).
Proof. reflexivity. Qed.

Lemma span_app (f : ascii -> bool) (a b : string) :
  allChars f a = true ->
  JsString.span f (a +:+ b) = JsString.length a + JsString.span f b.
Proof.
  induction a as [|c a IH]; [done|].
  cbn [allChars]. intros [Hc Ha]%andb_true_iff.
  rewrite append_cons. cbn [JsString.span]. rewrite Hc, IH by done.
  reflexivity.
Qed.

Lemma take_app (a b : string) : JsString.take (JsString.length a) (a +:+ b) = a.
Proof.
  induction a as [|c a IH]; [by destruct b|].
  rewrite append_cons. unfold JsString.length in *.
  cbn [String.length JsString.take]. by rewrite IH.
Qed.

Lemma drop_app (a b : string) : JsString.drop (JsString.length a) (a +:+ b) = b.
Proof.
  induction a as [|c a IH]; [done|].
  rewrite append_cons. unfold JsString.length in *.
  cbn [String.length JsString.drop]. by rewrite IH.
Qed.

(** *** Comments and document types *)

Section Until.
Variables (st : State) (s : LineStream.t) (fuel : nat).
Hypothesis Heos : LineStream.eos s = false.

Lemma rest_length_pos : 1 <= JsString.length (LineStream.rest s).
Proof using Heos.
  destruct (eos_false s Heos) as (c & r & ->). unfold JsString.length.
  simpl. lia.
Qed.

Lemma comment_content :
  kind st = WithinComment ->
  tokenize (S fuel) (mkWorld st s) =
  match JsString.indexOf "-->" (LineStream.rest s) with
  | Some 0 =>
      (Ok (delimiter DELIM_COMMENT),
       mkWorld (set_kind Content st) (LineStream.advanceBy 3 s))
  | Some i => (Ok (token COMMENT), mkWorld st (LineStream.advanceBy i s))
  | None =>
      (Ok (token COMMENT),
       mkWorld st
         (LineStream.advanceBy (JsString.length (LineStream.rest s)) s))
  end.
Proof using Heos.
  destruct st as [k tag attr ty q v]. cbn [kind]. intros ->.
  pose proof rest_length_pos as Hlen.
  run. unfold LineStream._advanceUntilString, LineStream._advanceIfString.
  destruct (JsString.indexOf _ _) as [[|i]|] eqn:E.
  - apply indexOf_zero in E. cbn [truthy Nat.eqb negb]. run.
    unfold LineStream._advanceIfString. rewrite E. reflexivity.
  - reflexivity.
  - destruct (JsString.length (LineStream.rest s)); [lia|reflexivity].
Qed.

Lemma doctype_content :
  kind st = WithinDoctype ->
  tokenize (S fuel) (mkWorld st s) =
  match JsString.indexOf ">" (LineStream.rest s) with
  | Some 0 =>
      (Ok (delimiter DELIM_DOCTYPE),
       mkWorld (set_kind Content st) (LineStream.advanceBy 1 s))
  | Some i => (Ok (token DOCTYPE), mkWorld st (LineStream.advanceBy i s))
  | None =>
      (Ok (token DOCTYPE),
       mkWorld st
         (LineStream.advanceBy (JsString.length (LineStream.rest s)) s))
  end.
Proof using Heos.
  destruct st as [k tag attr ty q v]. cbn [kind]. intros ->.
  pose proof rest_length_pos as Hlen.
  run. unfold LineStream._advanceUntilString, LineStream._advanceIfString.
  destruct (JsString.indexOf _ _) as [[|i]|] eqn:E.
  - apply indexOf_zero in E. cbn [truthy Nat.eqb negb]. run.
    unfold LineStream._advanceIfString. rewrite E. reflexivity.
  - reflexivity.
  - destruct (JsString.length (LineStream.rest s)); [lia|reflexivity].
Qed.

End Until.

(** *** A whole start tag *)

Lemma nameStart_plain (c : ascii) :
  nameStart c = true ->
  JsString.isChar "!" c = false /\
  JsString.isChar (JsString.lowerChar "!") (JsString.lowerChar c) = false /\
  JsString.isChar "/" c = false /\
  nameChar c = true.
Proof.
  destruct c as [[] [] [] [] [] [] [] []]; vm_compute; try done.
Qed.

Lemma isScriptOrStyle_listContains (name : string) :
  listContains tagsEmbeddingContent name = isScriptOrStyle name.
Proof.
  unfold listContains, tagsEmbeddingContent, isScriptOrStyle, JsString.eqb.
  cbn [existsb]. rewrite orb_false_r.
  f_equal; apply bool_decide_ext; split; congruence.
Qed.

Section StartTag.
Variables (st : State) (s : LineStream.t) (c : ascii) (name' tail : string).
Variable fuel : nat.
Hypothesis Hkind : kind st = Content.
Hypothesis Hstart : nameStart c = true.
Hypothesis Hname : allChars nameChar name' = true.
Hypothesis Hrest :
  LineStream.rest s = String "<" (String c (name' +:+ String ">" tail)).

Lemma start_tag_name :
  tokenize (S fuel)
    (mkWorld (set_kind OpeningStartTag st) (LineStream.advanceBy 1 s)) =
  let lname := JsString.toLowerCase (String c name') in
  (Ok (token (escapeTagName lname)),
   mkWorld
     (mkState WithinTag lname None
        (if isScriptOrStyle lname then None else embeddedContentType st)
        (attributeValueQuote st) (attributeValue st))
     (LineStream.advanceBy (2 + JsString.length name') s)).
Proof using Hstart Hname Hrest.
  clear Hkind. destruct st as [k tag attr ty q v].
  destruct (nameStart_plain c Hstart) as (_ & _ & _ & Hc).
  assert (LineStream._advanceIfRegExp elementNameRegExp
            (LineStream.advanceBy 1 s) = S (JsString.length name')) as Hn.
  { unfold LineStream._advanceIfRegExp.
    rewrite eos_rest, rest_advanceBy, Hrest.
    cbn [JsString.drop elementNameRegExp LineStream.lastMatchLength].
    rewrite Hstart, span_app by done.
    cbn [JsString.span]. replace (nameChar ">") with false by done.
    cbn. f_equal. lia. }
  assert (JsString.substring (LineStream._pos (LineStream.advanceBy 1 s))
            (LineStream._pos (LineStream.advanceBy 1 s)
             + S (JsString.length name'))
            (LineStream._source (LineStream.advanceBy 1 s))
          = String c name') as Htext.
  { rewrite advanced_text, rest_advanceBy, Hrest.
    cbn [JsString.drop JsString.take]. f_equal. apply take_app. }
  run. rewrite Hn, Htext. cbn [truthy Nat.eqb negb]. run.
  destruct (isScriptOrStyle _); run; reflexivity.
Qed.

Lemma start_tag :
  tokenizeTimes (S fuel) 3 (mkWorld st s) =
  let lname := JsString.toLowerCase (String c name') in
  Some ([delimiter DELIM_START; token (escapeTagName lname);
         delimiter DELIM_START],
        mkWorld
          (mkState
             (if isScriptOrStyle lname then WithinEmbeddedContent else Content)
             lname None
             (if isScriptOrStyle lname then None else embeddedContentType st)
             (attributeValueQuote st) (attributeValue st))
          (LineStream.advanceBy (3 + JsString.length name') s)).
Proof using Hkind Hstart Hname Hrest.
  destruct (nameStart_plain c Hstart) as (H1 & H2 & H3 & _).
  cbn [tokenizeTimes].
  rewrite (TokenizerClaims.content_start_tag st s _ fuel Hkind Hrest).
  2: { cbn [JsString.startsWith]. by rewrite H1. }
  2: { cbn [JsString.startsWith JsString.startsWithIgnoreCase]. by rewrite H2. }
  2: { cbn [JsString.startsWith]. by rewrite H3. }
  cbv beta iota. rewrite start_tag_name. cbv beta iota zeta.
  set (lname := JsString.toLowerCase (String c name')).
  erewrite TokenizerClaims.withinTag_close with (r := tail); [|done|].
  - cbv beta iota. cbn [lastTagName set_kind kind embeddedContentType
                        lastAttributeName attributeValueQuote attributeValue].
    rewrite isScriptOrStyle_listContains.
    rewrite advanceBy_advanceBy.
    replace (2 + JsString.length name' + 1) with (3 + JsString.length name')
      by lia.
    reflexivity.
  - rewrite rest_advanceBy, Hrest.
    change (2 + JsString.length name') with (S (S (JsString.length name'))).
    cbn [JsString.drop]. apply drop_app.
Qed.

End StartTag.

(** *** [unquote] *)

Lemma length_append_one (content : string) (c : ascii) :
  JsString.length (content +:+ str c) = S (JsString.length content).
Proof.
  unfold JsString.length, str.
  induction content as [|c' content IH]; [done|].
  rewrite append_cons. cbn [String.length]. lia.
Qed.

Lemma unquote_quoted (content : string) :
  unquote (String dquote (content +:+ str dquote)) = content.
Proof.
  unfold unquote. cbn [JsString.charAt JsString.drop charIs].
  rewrite isChar_refl.
  assert (JsString.length (String dquote (content +:+ str dquote))
          = S (S (JsString.length content))) as Hlen.
  { pose proof (length_append_one content dquote) as H.
    unfold JsString.length in *. cbn [String.length]. lia. }
  rewrite Hlen.
  assert (JsString.charAt (S (S (JsString.length content)) - 1)
            (String dquote (content +:+ str dquote)) = Some dquote) as ->.
  { replace (S (S (JsString.length content)) - 1)
      with (S (JsString.length content)) by lia.
    unfold JsString.charAt. cbn [JsString.drop]. by rewrite drop_app. }
  cbn [Nat.ltb Nat.leb andb charIs]. rewrite isChar_refl.
  unfold JsString.substring.
  replace (Nat.min (0 + 1) (S (S (JsString.length content)) - 1)) with 1
    by lia.
  replace (Nat.max (0 + 1) (S (S (JsString.length content)) - 1) - 1)
    with (JsString.length content) by lia.
  cbn [JsString.drop]. apply take_app.
Qed.

Lemma length_substring (a b : nat) (s : string) :
  JsString.length (JsString.substring a b s) <= JsString.length s.
Proof.
  unfold JsString.substring. rewrite length_take, length_drop. lia.
Qed.

Lemma unquote_plain (value : string) :
  charIs dquote (JsString.charAt 0 value) = false ->
  charIs dquote (JsString.charAt (JsString.length value - 1) value) = false ->
  unquote value = value.
Proof.
  intros H1 H2. unfold unquote. rewrite H1, H2, andb_false_r.
  unfold JsString.substring. rewrite Nat.min_0_l, Nat.max_0_l, Nat.sub_0_r.
  by apply take_all.
Qed.

(** *** Razor before an [@] *)

Lemma bind_eosOrPeekIsNot {B} (c : ascii) (k : bool -> M B) (w : world) :
  bind (Razor.eosOrPeekIsNot c) k w =
  k match LineStream.rest (stream w) with
    | String c' _ => negb (JsString.isChar c c')
    | EmptyString => true
    end w.
Proof.
  destruct w as [st s].
  unfold Razor.eosOrPeekIsNot, bind, Html.eos, callThrowing, ret.
  cbn [stream this]. rewrite eos_rest.
  destruct (LineStream.rest s) eqn:E; [done|].
  cbn [stream this]. by rewrite peek_rest, E.
Qed.

Lemma override_at (X : M ITokenizationResult) (st : State)
    (s : LineStream.t) (r : string) :
  LineStream.rest s = String "@" r ->
  Razor.tokenizeOverride X (mkWorld st s) =
  let w1 := mkWorld st (LineStream.advanceBy 1 s) in
  match r with
  | EmptyString =>
      (Ok {| type := Some EMBED_CS; dontMergeWithPrev := false;
             nextState := Some (CSStatement st 0 0 true true true false) |},
       w1)
  | String c _ =>
      if JsString.isChar "*" c then
        (Ok {| type := None; dontMergeWithPrev := false;
               nextState := Some (CSComment st "@") |}, w1)
      else if JsString.isChar "@" c then X w1
      else
        (Ok {| type := Some EMBED_CS; dontMergeWithPrev := false;
               nextState := Some (CSStatement st 0 0 true true true false) |},
         w1)
  end.
Proof.
  intros Hrest. unfold Razor.tokenizeOverride.
  rewrite bind_notEosAndPeekIs. cbn [stream]. rewrite Hrest, isChar_refl.
  rewrite ?bind_assoc, bind_next. cbn [stream this]. rewrite Hrest.
  rewrite bind_notEosAndPeekIs. cbn [stream]. rewrite rest_advanceBy, Hrest.
  cbn [JsString.drop]. destruct r as [|c r'].
  - rewrite bind_eosOrPeekIsNot. cbn [stream]. rewrite rest_advanceBy, Hrest.
    reflexivity.
  - destruct (JsString.isChar "*" c); [reflexivity|].
    rewrite bind_eosOrPeekIsNot. cbn [stream]. rewrite rest_advanceBy, Hrest.
    cbn [JsString.drop]. by destruct (JsString.isChar "@" c).
Qed.

Lemma razor_comment (st : State) (s : LineStream.t) (r : string) (fuel : nat) :
  LineStream.rest s = String "@" (String "*" r) ->
  Razor.tokenize fuel (mkWorld st s) =
  (Ok {| type := None; dontMergeWithPrev := false;
         nextState := Some (CSComment st "@") |},
   mkWorld st (LineStream.advanceBy 1 s)).
Proof.
  intros Hrest. unfold Razor.tokenize. by rewrite (override_at _ _ _ _ Hrest).
Qed.

Lemma razor_statement (st : State) (s : LineStream.t) (r : string)
    (fuel : nat) :
  LineStream.rest s = String "@" r ->
  JsString.startsWith "*" r = false ->
  JsString.startsWith "@" r = false ->
  Razor.tokenize fuel (mkWorld st s) =
  (Ok {| type := Some EMBED_CS; dontMergeWithPrev := false;
         nextState := Some (CSStatement st 0 0 true true true false) |},
   mkWorld st (LineStream.advanceBy 1 s)).
Proof.
  intros Hrest H1 H2. unfold Razor.tokenize.
  rewrite (override_at _ _ _ _ Hrest). destruct r as [|c r']; [done|].
  cbn [JsString.startsWith] in H1, H2. rewrite andb_true_r in H1, H2.
  by rewrite H1, H2.
Qed.

Lemma razor_escape (st : State) (s : LineStream.t) (r : string) (fuel : nat) :
  LineStream.rest s = String "@" (String "@" r) ->
  Razor.tokenize fuel (mkWorld st s) =
  tokenizeIn Razor.tokenizeOverride fuel
    (mkWorld st (LineStream.advanceBy 1 s)).
Proof.
  intros Hrest. unfold Razor.tokenize. by rewrite (override_at _ _ _ _ Hrest).
Qed.

Lemma razor_escape_content (st : State) (s : LineStream.t) (r : string)
    (fuel : nat) :
  kind st = Content ->
  LineStream.rest s = String "@" (String "@" r) ->
  Razor.tokenize (S fuel) (mkWorld st s) =
  (Ok (token (lit EmptyString)), mkWorld st (LineStream.advanceBy 2 s)).
Proof.
  intros Hk Hrest. rewrite (razor_escape _ _ _ _ Hrest).
  destruct st as [k tag attr ty q v]. cbn [kind] in Hk. subst k.
  cbn [tokenizeIn tokenizeBody kind]. run.
  rewrite _advanceIfCharCode_rest, rest_advanceBy, Hrest.
  cbn [JsString.drop]. replace (JsString.isChar "<" "@") with false by done.
  cbn [truthy Nat.eqb negb]. run. rewrite rest_advanceBy, Hrest.
  cbn [JsString.drop]. reflexivity.
Qed.

(** *** Progress of the Razor tokenizer *)

Ltac leaf_or HX :=
  first [leaf | exfalso; lia | apply HX; reflexivity].

Lemma tokenizeBody_progress (X : M ITokenizationResult) (st : State)
    (s : LineStream.t) :
  LineStream.eos s = false ->
  (forall st', kind st' = WithinTag -> progress s (X (mkWorld st' s))) ->
  progress s (tokenizeBody X (mkWorld st s)).
Proof.
  intros Heos HX. destruct (eos_false s Heos) as (c & r & Hrest).
  assert (1 <= JsString.length (LineStream.rest s)) as Hlen.
  { rewrite Hrest. unfold JsString.length. simpl. lia. }
  destruct st as [k tag attr ty q v]. destruct k.
  all: run.
  all: repeat (branch; run).
  all: leaf_or HX.
Qed.

Lemma withinTag_progress (X : M ITokenizationResult) (st : State)
    (s : LineStream.t) :
  LineStream.eos s = false ->
  kind st = WithinTag ->
  progress s (tokenizeBody X (mkWorld st s)).
Proof.
  intros Heos Hk.
  rewrite (tokenizeBody_WithinTag X (tokenizeBody outOfFuel)) by done.
  by apply (tokenize_progress st s).
Qed.

Lemma progress_after_one (s : LineStream.t)
    (out : result ITokenizationResult * world) :
  LineStream.eos s = false ->
  progress (LineStream.advanceBy 1 s) out -> progress s out.
Proof.
  intros Heos (t & st' & n & -> & Hn).
  rewrite length_rest_advanceBy in Hn.
  exists t, st', (1 + n). rewrite advanceBy_advanceBy. split; [done|lia].
Qed.

Lemma override_progress (X : M ITokenizationResult) (st : State)
    (s : LineStream.t) :
  LineStream.eos s = false ->
  progress s (X (mkWorld st s)) ->
  (LineStream.eos (LineStream.advanceBy 1 s) = false ->
   progress (LineStream.advanceBy 1 s)
     (X (mkWorld st (LineStream.advanceBy 1 s)))) ->
  progress s (Razor.tokenizeOverride X (mkWorld st s)).
Proof.
  intros Heos H0 H1. destruct (eos_false s Heos) as (c & r & Hrest).
  assert (1 <= JsString.length (LineStream.rest s)) as Hlen.
  { rewrite Hrest. unfold JsString.length. simpl. lia. }
  destruct (JsString.isChar "@" c) eqn:Hc.
  2: { rewrite override_inherited; [done|]. unfold peekIs. cbn [stream].
       by rewrite Hrest. }
  apply isChar_true in Hc. subst c. rewrite (override_at _ _ _ _ Hrest).
  cbv zeta.
  assert (forall t, progress s (Ok t, mkWorld st (LineStream.advanceBy 1 s)))
    as Hone.
  { intros t. eexists _, _, _. split; [reflexivity|lia]. }
  destruct r as [|c r']; [apply Hone|].
  destruct (JsString.isChar "*" c); [apply Hone|].
  destruct (JsString.isChar "@" c); [|apply Hone].
  apply progress_after_one; [done|]. apply H1.
  by rewrite eos_rest, rest_advanceBy, Hrest.
Qed.

Lemma razor_progress (st : State) (s : LineStream.t) (fuel : nat) :
  LineStream.eos s = false ->
  progress s (Razor.tokenize (S (S fuel)) (mkWorld st s)).
Proof.
  intros Heos. unfold Razor.tokenize. cbn [tokenizeIn].
  assert (forall st0 s0, LineStream.eos s0 = false ->
            progress s0
              (tokenizeBody
                 (Razor.tokenizeOverride
                    (tokenizeBody
                       (Razor.tokenizeOverride
                          (tokenizeIn Razor.tokenizeOverride fuel))))
                 (mkWorld st0 s0))) as Hbody.
  { intros st0 s0 H0. apply tokenizeBody_progress; [done|].
    intros st' Hk. apply override_progress; [done| |intros H1];
      by apply withinTag_progress. }
  apply override_progress; [done| |intros H1]; by apply Hbody.
Qed.

Lemma override_agree (M1 M2 : M ITokenizationResult) (st : State)
    (s : LineStream.t) :
  (forall s', M1 (mkWorld st s') = M2 (mkWorld st s')) ->
  Razor.tokenizeOverride M1 (mkWorld st s)
  = Razor.tokenizeOverride M2 (mkWorld st s).
Proof.
  intros H. destruct (LineStream.rest s) as [|c r] eqn:Hrest.
  { rewrite !override_inherited; [apply H|unfold peekIs; cbn [stream]..];
      by rewrite Hrest. }
  destruct (JsString.isChar "@" c) eqn:Hc.
  2: { rewrite !override_inherited; [apply H|unfold peekIs; cbn [stream]..];
         by rewrite Hrest. }
  apply isChar_true in Hc. subst c. rewrite !(override_at _ _ _ _ Hrest).
  cbv zeta. destruct r as [|c r']; [done|].
  destruct (JsString.isChar "*" c); [done|].
  destruct (JsString.isChar "@" c); [apply H|done].
Qed.

Lemma razor_depth (fuel : nat) (w : world) :
  Razor.tokenize (S (S fuel)) w = Razor.tokenize 2 w.
Proof.
  destruct w as [st s]. unfold Razor.tokenize.
  apply override_agree. intros s'. cbn [tokenizeIn].
  apply tokenizeBody_agree. cbn [stream]. intros st' Hk.
  apply override_agree. intros s''. by apply tokenizeBody_WithinTag.
Qed.

(** *** Invariants of the tokenizer states *)

Lemma override_invariant (P : State -> Prop) (X : M ITokenizationResult) :
  (forall st s, P st -> P (this (X (mkWorld st s)).2)) ->
  forall st s, P st -> P (this (Razor.tokenizeOverride X (mkWorld st s)).2).
Proof.
  intros HX st s HP. destruct (LineStream.rest s) as [|c r] eqn:Hrest.
  { rewrite override_inherited; [by apply HX|unfold peekIs; cbn [stream]].
    by rewrite Hrest. }
  destruct (JsString.isChar "@" c) eqn:Hc.
  2: { rewrite override_inherited; [by apply HX|unfold peekIs; cbn [stream]].
       by rewrite Hrest. }
  apply isChar_true in Hc. subst c. rewrite (override_at _ _ _ _ Hrest).
  cbv zeta. destruct r as [|c r']; [done|].
  destruct (JsString.isChar "*" c); [done|].
  destruct (JsString.isChar "@" c); [by apply HX|done].
Qed.

Lemma tokenizeIn_invariant (P : State -> Prop)
    (override : M ITokenizationResult -> M ITokenizationResult) :
  (forall X,
     (forall st s, P st -> P (this (X (mkWorld st s)).2)) ->
     forall st s, P st -> P (this (tokenizeBody X (mkWorld st s)).2)) ->
  (forall X,
     (forall st s, P st -> P (this (X (mkWorld st s)).2)) ->
     forall st s, P st -> P (this (override X (mkWorld st s)).2)) ->
  forall fuel st s, P st -> P (this (tokenizeIn override fuel (mkWorld st s)).2).
Proof.
  intros Hbody Hov. induction fuel as [|fuel IH]; [done|].
  cbn [tokenizeIn]. apply Hbody. by apply Hov.
Qed.

Lemma tokenizerState_invariant (P : State -> Prop) :
  P (stateOfKind Content) ->
  (forall X,
     (forall st s, P st -> P (this (X (mkWorld st s)).2)) ->
     forall st s, P st -> P (this (tokenizeBody X (mkWorld st s)).2)) ->
  forall st, tokenizerState st -> P st.
Proof.
  intros Hinit Hbody st. induction 1 as [|fuel st s _ IH|fuel st s _ IH].
  - done.
  - by apply (tokenizeIn_invariant P (fun X => X) Hbody (fun X HX => HX)).
  - unfold Razor.tokenize. apply override_invariant; [|done].
    apply tokenizeIn_invariant; [done|]. apply override_invariant.
Qed.

Lemma _advanceUntilString_including (q : string) (s : LineStream.t) :
  LineStream.eos s = false ->
  q <> EmptyString ->
  1 <= LineStream._advanceUntilString q true s.
Proof.
  unfold LineStream._advanceUntilString. rewrite eos_rest. intros Heos Hq.
  destruct (JsString.indexOf q _) as [i|].
  - destruct q; [done|]. unfold JsString.length. simpl. lia.
  - destruct (LineStream.rest s); [done|]. unfold JsString.length. simpl. lia.
Qed.

Lemma isQuote_nonempty (q : string) : isQuote q = true -> q <> EmptyString.
Proof. by intros H ->. Qed.

Lemma isQuote_str (ch : ascii) :
  JsString.isChar squote ch || JsString.isChar dquote ch = true ->
  isQuote (str ch) = true.
Proof.
  intros [H%isChar_true|H%isChar_true]%orb_true_iff; by subst ch.
Qed.

Lemma startsWith_refl (q : string) : JsString.startsWith q q = true.
Proof.
  induction q as [|c q IH]; [done|]. cbn [JsString.startsWith].
  by rewrite isChar_refl, IH.
Qed.

Lemma startsWith_app (q v t : string) :
  JsString.startsWith q v = true -> JsString.startsWith q (v +:+ t) = true.
Proof.
  revert v. induction q as [|c q IH]; intros [|d v]; try done.
  cbn [JsString.startsWith]. rewrite append_cons.
  cbn [JsString.startsWith].
  intros [-> H]%andb_true_iff. by rewrite IH.
Qed.

Lemma quote_body (X : M ITokenizationResult) :
  (forall st s, quoteInvariant st ->
     quoteInvariant (this (X (mkWorld st s)).2)) ->
  forall st s, quoteInvariant st ->
    quoteInvariant (this (tokenizeBody X (mkWorld st s)).2).
Proof.
  intros HX [k tag attr ty q v] s Hinv.
  assert (forall k' tag' attr' ty',
            k' <> AttributeValue ->
            (q = EmptyString /\ v = EmptyString) ->
            quoteInvariant (mkState k' tag' attr' ty' q v)) as Hplain.
  { intros. by left. }
  assert (forall k' tag' attr' ty',
            quoteInvariant (mkState k' tag' attr' ty' EmptyString EmptyString))
    as Hempty.
  { intros. by left. }
  destruct Hinv as [[Hq Hv]|(Hk & Hq & Hv)]; cbn [kind attributeValueQuote
    attributeValue] in *.
  - subst q v. destruct k.
    all: run.
    all: repeat (branch; run).
    all: cbn [snd this set_kind set_lastTagName set_lastAttributeName
              set_embeddedContentType set_attributeValue
              set_attributeValueQuote kind lastTagName lastAttributeName
              embeddedContentType attributeValueQuote attributeValue].
    all: try apply Hempty.
    all: try (apply HX; apply Hempty).
    all: try done.
    right. cbn [kind attributeValueQuote attributeValue].
    split; [done|]. split; [by apply isQuote_str|apply startsWith_refl].
  - subst k. run.
    repeat (branch; run).
    all: cbn [snd this set_kind set_lastTagName set_lastAttributeName
              set_embeddedContentType set_attributeValue
              set_attributeValueQuote kind lastTagName lastAttributeName
              embeddedContentType attributeValueQuote attributeValue].
    all: try apply Hempty.
    all: try (right; cbn [kind attributeValueQuote attributeValue];
              split; [done|]; split; [done|]; first [done|by apply startsWith_app]).
    all: try (exfalso;
              match goal with
              | E : LineStream._advanceUntilString ?q' true ?s' = 0,
                Hq' : isQuote ?q' = true |- _ =>
                  pose proof (_advanceUntilString_including q' s'
                                ltac:(assumption) (isQuote_nonempty q' Hq'));
                  lia
              end).
Qed.

Lemma quote_invariant (st : State) : tokenizerState st -> quoteInvariant st.
Proof.
  apply tokenizerState_invariant; [by left|apply quote_body].
Qed.

(** *** The names of the tag tokens *)

Lemma allChars_take_span (f : ascii -> bool) (n : nat) (r : string) :
  n <= JsString.span f r -> allChars f (JsString.take n r) = true.
Proof.
  revert r. induction n as [|n IH]; intros r Hn; [done|].
  destruct r as [|c r]; [done|]. cbn [JsString.span] in Hn.
  destruct (f c) eqn:E; [|lia]. cbn [JsString.take allChars].
  rewrite E, IH; [done|lia].
Qed.

Lemma elementName_chars (s : LineStream.t) :
  allChars nameChar
    (JsString.substring (LineStream._pos s)
       (LineStream._pos s + LineStream._advanceIfRegExp elementNameRegExp s)
       (LineStream._source s)) = true.
Proof.
  rewrite advanced_text. unfold LineStream._advanceIfRegExp.
  destruct (LineStream.eos s); [done|].
  destruct (LineStream.rest s) as [|c r]; [done|].
  cbn [elementNameRegExp LineStream.lastMatchLength].
  destruct (nameStart c) eqn:Ec; [|done].
  cbn [fmap option_fmap option_map JsString.take allChars].
  rewrite (NestedModeFacts.nameStart_nameChar c Ec). by apply allChars_take_span.
Qed.

Lemma escaped_char (c : ascii) :
  nameChar c = true ->
  tagTokenChar (if escapedChar (JsString.lowerChar c) then "-"%char
                else JsString.lowerChar c) = true.
Proof.
  destruct c as [[] [] [] [] [] [] [] []]; vm_compute; congruence.
Qed.

Lemma escapeTagName_chars (t : string) :
  allChars nameChar t = true ->
  allChars tagTokenChar
    (JsString.replaceClass escapedChar "-" (JsString.toLowerCase t)) = true.
Proof.
  induction t as [|c t IH]; [done|].
  cbn [allChars JsString.toLowerCase JsString.replaceClass].
  intros [Hc Ht]%andb_true_iff. by rewrite escaped_char, IH.
Qed.

Lemma tokenizeBody_tagToken (X : M ITokenizationResult) :
  (forall w r name,
     (X w).1 = Ok r -> type r = Some (getTag name) ->
     allChars tagTokenChar name = true /\ name <> EmptyString) ->
  forall w r name,
    (tokenizeBody X w).1 = Ok r -> type r = Some (getTag name) ->
    allChars tagTokenChar name = true /\ name <> EmptyString.
Proof.
  intros HX [[k tag attr ty q v] s] r name.
  pose proof (elementName_chars s) as Hname.
  apply escapeTagName_chars in Hname.
  pose proof (length_name elementNameRegExp s) as Hlen.
  destruct k.
  all: run.
  all: repeat (branch; run).
  all: try (unfold ret; cbn [fst]; intros [= <-]; cbn [type token delimiter];
            try discriminate).
  all: try (cbn [fst]; discriminate).
  all: try (apply HX).
  all: unfold escapeTagName; intros [= <-]; split; [exact Hname|].
  all: intros Hempty;
    match goal with
    | E : 1 <= LineStream._advanceIfRegExp elementNameRegExp _ |- _ =>
        rewrite <- Hlen in E
    end;
    destruct (JsString.toLowerCase _); [cbn in *; lia|discriminate Hempty].
Qed.

Lemma override_tagToken (X : M ITokenizationResult) :
  (forall w r name,
     (X w).1 = Ok r -> type r = Some (getTag name) ->
     allChars tagTokenChar name = true /\ name <> EmptyString) ->
  forall w r name,
    (Razor.tokenizeOverride X w).1 = Ok r -> type r = Some (getTag name) ->
    allChars tagTokenChar name = true /\ name <> EmptyString.
Proof.
  intros HX [st s] r name. destruct (LineStream.rest s) as [|c t] eqn:Hrest.
  { rewrite override_inherited; [by apply HX|unfold peekIs; cbn [stream]].
    by rewrite Hrest. }
  destruct (JsString.isChar "@" c) eqn:Hc.
  2: { rewrite override_inherited; [by apply HX|unfold peekIs; cbn [stream]].
       by rewrite Hrest. }
  apply isChar_true in Hc. subst c. rewrite (override_at _ _ _ _ Hrest).
  cbv zeta. destruct t as [|c r']; [by intros [= <-]|].
  destruct (JsString.isChar "*" c); [by intros [= <-]|].
  destruct (JsString.isChar "@" c); [by apply HX|by intros [= <-]].
Qed.

Lemma tokenizeIn_tagToken
    (override : M ITokenizationResult -> M ITokenizationResult) :
  (forall X,
     (forall w r name,
        (X w).1 = Ok r -> type r = Some (getTag name) ->
        allChars tagTokenChar name = true /\ name <> EmptyString) ->
     forall w r name,
       (override X w).1 = Ok r -> type r = Some (getTag name) ->
       allChars tagTokenChar name = true /\ name <> EmptyString) ->
  forall fuel w r name,
    (tokenizeIn override fuel w).1 = Ok r -> type r = Some (getTag name) ->
    allChars tagTokenChar name = true /\ name <> EmptyString.
Proof.
  intros Hov. induction fuel as [|fuel IH]; [done|].
  cbn [tokenizeIn]. apply tokenizeBody_tagToken. by apply Hov.
Qed.

(** *** The end of a line *)

Lemma eos_true_pos (s : LineStream.t) :
  LineStream._pos s <= JsString.length (LineStream._source s) ->
  LineStream.eos s = true ->
  LineStream._pos s = JsString.length (LineStream._source s).
Proof.
  unfold LineStream.eos. intros Hle H%Nat.leb_le. lia.
Qed.

Lemma length_rest (s : LineStream.t) :
  JsString.length (LineStream.rest s) = remaining s.
Proof. unfold LineStream.rest, remaining. apply length_drop. Qed.

Lemma tokenizeLine_exact (fuel steps : nat) (st : State) (s : LineStream.t)
    (rs : list ITokenizationResult) (w' : world) :
  LineStream._pos s <= JsString.length (LineStream._source s) ->
  tokenizeLine (S (S fuel)) steps (mkWorld st s) = Some (rs, w') ->
  LineStream._source (stream w') = LineStream._source s /\
  LineStream._pos (stream w') = JsString.length (LineStream._source s) /\
  List.length rs <= remaining s.
Proof.
  rewrite tokenizeLine_depth.
  revert st s rs. induction steps as [|steps IH]; intros st s rs Hpos;
    cbn [tokenizeLine stream].
  - destruct (LineStream.eos s) eqn:Heos; [|done]. intros [= <- <-].
    cbn [stream List.length]. split; [done|].
    split; [by apply eos_true_pos|lia].
  - destruct (LineStream.eos s) eqn:Heos.
    { intros [= <- <-]. cbn [stream List.length]. split; [done|].
      split; [by apply eos_true_pos|lia]. }
    destruct (tokenize_progress st s Heos) as (t & st' & n & -> & Hn & Hle).
    rewrite length_rest in Hle.
    destruct (tokenizeLine 2 steps _) as [[rs' w'']|] eqn:E; [|done].
    intros [= <- <-].
    apply IH in E as (Hsrc & Hp & Hlen).
    + unfold remaining, LineStream.advanceBy in *.
      cbn [LineStream._source LineStream._pos List.length] in *.
      split; [done|]. split; [done|]. lia.
    + unfold remaining, LineStream.advanceBy in *.
      cbn [LineStream._source LineStream._pos] in *. lia.
Qed.

(** *** The [type] attribute of a script or style tag *)

Lemma unquote_closing (content : string) (c : ascii) :
  JsString.isChar dquote c = false ->
  unquote (String c content +:+ str dquote) = String c content.
Proof.
  intros Hc. unfold unquote. rewrite append_cons.
  cbn [JsString.charAt JsString.drop charIs]. rewrite Hc.
  assert (JsString.length (String c (content +:+ str dquote))
          = S (S (JsString.length content))) as Hlen.
  { pose proof (length_append_one content dquote) as H.
    unfold JsString.length in *. cbn [String.length]. lia. }
  rewrite Hlen.
  assert (JsString.charAt (S (S (JsString.length content)) - 1)
            (String c (content +:+ str dquote)) = Some dquote) as ->.
  { replace (S (S (JsString.length content)) - 1)
      with (S (JsString.length content)) by lia.
    unfold JsString.charAt. cbn [JsString.drop]. by rewrite drop_app. }
  cbn [Nat.ltb Nat.leb andb charIs]. rewrite isChar_refl.
  unfold JsString.substring.
  rewrite Nat.min_0_l, Nat.max_0_l, Nat.sub_0_r.
  replace (S (S (JsString.length content)) - 1)
    with (JsString.length (String c content))
    by (unfold JsString.length; cbn [String.length]; lia).
  rewrite <- append_cons. apply take_app.
Qed.

Lemma unquote_single (content : string) (c : ascii) :
  JsString.isChar dquote c = false ->
  unquote (String c content +:+ str squote) = String c content +:+ str squote.
Proof.
  intros Hc. apply unquote_plain.
  - rewrite append_cons. cbn [JsString.charAt JsString.drop charIs]. exact Hc.
  - rewrite append_cons.
    assert (JsString.length (String c (content +:+ str squote))
            = S (S (JsString.length content))) as ->.
    { pose proof (length_append_one content squote) as H.
      unfold JsString.length in *. cbn [String.length]. lia. }
    replace (S (S (JsString.length content)) - 1)
      with (S (JsString.length content)) by lia.
    unfold JsString.charAt. cbn [JsString.drop]. by rewrite drop_app.
Qed.



End TokenizerFacts.


Module LeavingFacts.
Import Html HTMLMode JsStringFacts.

(** *** Every closing tag is found *)

Lemma lower_image (c : ascii) :
  JsString.lowerChar c = c \/
  JsString.inRange 97 122 (JsString.lowerChar c) = true \/
  JsString.inRange 192 255 (JsString.lowerChar c) = true.
Proof.
  destruct c as [[] [] [] [] [] [] [] []]; vm_compute; tauto.
Qed.

Lemma lower_fixed (a : ascii) :
  JsString.inRange 65 90 a = false ->
  JsString.inRange 192 255 a = false ->
  JsString.lowerChar a = a.
Proof.
  destruct a as [[] [] [] [] [] [] [] []]; vm_compute; congruence.
Qed.

Lemma lower_is (a c : ascii) :
  JsString.inRange 65 90 a = false ->
  JsString.inRange 97 122 a = false ->
  JsString.inRange 192 255 a = false ->
  JsString.isChar (JsString.lowerChar a) (JsString.lowerChar c) = true ->
  c = a.
Proof.
  intros H1 H2 H3 H%isChar_true. rewrite (lower_fixed a H1 H3) in H.
  destruct (lower_image c) as [Hc|[Hc|Hc]]; rewrite <- H in Hc; congruence.
Qed.

Lemma matchItem_ignoreCase (c d : ascii) (it : patternItem) :
  compileChar c = Some it ->
  JsString.isChar (JsString.lowerChar c) (JsString.lowerChar d) = true ->
  matchItem it d = true.
Proof.
  unfold compileChar. destruct (JsString.isChar "." c) eqn:Ec.
  - apply isChar_true in Ec. subst c. intros [= <-] H.
    apply lower_is in H; [|done..]. by subst d.
  - destruct (nameChar c); [|done]. by intros [= <-].
Qed.

Lemma matchItems_ignoreCase (tag t s : string) (items : list patternItem) :
  compileTagName tag = Some items ->
  JsString.startsWithIgnoreCase (tag +:+ t) s = true ->
  exists r, matchItems items s = Some r /\
            JsString.startsWithIgnoreCase t r = true.
Proof.
  revert s items. induction tag as [|c tag IH]; intros s items.
  - intros [= <-] H. by exists s.
  - cbn [compileTagName].
    destruct (compileChar c) as [it|] eqn:Ec; [|done].
    destruct (compileTagName tag) as [l|] eqn:El; [|done].
    intros [= <-]. change (String c tag +:+ t) with (String c (tag +:+ t)).
    destruct s as [|d s]; [done|]. cbn [JsString.startsWithIgnoreCase].
    intros [Hc Hs]%andb_true_iff. cbn [matchItems].
    rewrite (matchItem_ignoreCase c d it Ec Hc). by apply IH.
Qed.

Lemma closingTag_matches (tag s : string) (items : list patternItem) :
  compileTagName tag = Some items ->
  JsString.startsWithIgnoreCase (closingTagText tag) s = true ->
  matchesAtStart items s = true.
Proof.
  intros Hc. unfold closingTagText.
  change ("</" +:+ tag +:+ ">") with (String "<" (String "/" (tag +:+ ">"))).
  destruct s as [|c1 [|c2 s]]; cbn [JsString.startsWithIgnoreCase]; try done.
  { by rewrite andb_false_r. }
  intros [H1 [H2 H]%andb_true_iff]%andb_true_iff.
  apply lower_is in H1; [|done..]. apply lower_is in H2; [|done..].
  subst c1 c2. cbn [matchesAtStart]. rewrite !isChar_refl. cbn [andb].
  destruct (matchItems_ignoreCase tag ">" s items Hc H) as (r & -> & Hr).
  destruct r as [|c r]; [done|]. cbn [JsString.startsWithIgnoreCase] in Hr.
  apply andb_true_iff in Hr as [Hr _]. apply lower_is in Hr; [|done..].
  by subst c.
Qed.

Lemma exec_complete (tag line : string) (items : list patternItem) (i : nat) :
  compileTagName tag = Some items ->
  indexOfIgnoreCase (closingTagText tag) line = Some i ->
  exists j, exec items line = Some j /\ j <= i.
Proof.
  intros Hc. revert i. induction line as [|c line IH]; intros i;
    cbn [indexOfIgnoreCase exec].
  - destruct (JsString.startsWithIgnoreCase _ _) eqn:E; [|done].
    intros [= <-]. rewrite (closingTag_matches tag _ items Hc E).
    by exists 0.
  - destruct (JsString.startsWithIgnoreCase _ _) eqn:E.
    + intros [= <-]. rewrite (closingTag_matches tag _ items Hc E).
      by exists 0.
    + destruct (indexOfIgnoreCase _ line) as [k|];
        cbn [fmap option_fmap option_map]; [|discriminate].
      intros [= <-].
      destruct (matchesAtStart items (String c line));
        [exists 0; split; [done|lia]|].
      destruct (IH k eq_refl) as (j & -> & Hj).
      exists (S j). split; [done|lia].
Qed.

Lemma leaving_complete (line : string) (st : State) (before after : string) :
  tokenizerState st ->
  splitAtClosingTag line (lastTagName st) = Some (before, after) ->
  exists d d',
    HTMLMode.getLeavingNestedModeData line st = Some (Some d) /\
    RAZORMode.getLeavingNestedModeData line st = Some (Some d') /\
    nestedModeBuffer d' = nestedModeBuffer d /\
    bufferAfterNestedMode d' = bufferAfterNestedMode d /\
    JsString.length (nestedModeBuffer d) <= JsString.length before.
Proof.
  intros [items Hc]%NestedModeFacts.tokenizerState_compiles.
  unfold splitAtClosingTag.
  destruct (indexOfIgnoreCase _ line) as [i|] eqn:Ei; [|done].
  intros [= <- <-].
  destruct (exec_complete _ _ _ _ Hc Ei) as (j & Hj & Hle).
  unfold RAZORMode.getLeavingNestedModeData,
    HTMLMode.getLeavingNestedModeData.
  rewrite Hc, Hj. eexists _, _. split; [done|]. split; [done|].
  cbn [nestedModeBuffer bufferAfterNestedMode]. split; [done|]. split; [done|].
  rewrite NestedModeFacts.substring_prefix, !length_take. lia.
Qed.

End LeavingFacts.


Module VisibilityFacts.
Import VisibilityController.

Lemma append_empty (s : string) : s +:+ EmptyString = s.
Proof.
  induction s as [|c s IH]; [done|].
  change (String c s +:+ EmptyString) with (String c (s +:+ EmptyString)).
  by rewrite IH.
Qed.

Ltac cases c :=
  destruct c as [v vn ivn [d|] sbv needed vis timer];
  unfold consistent, showsInvisible;
  cbn [_visibility _visibleClassName _invisibleClassName _domNode
       _shouldBeVisible _isNeeded _isVisible _revealTimer];
  intros (Hvis & Hsbv & Htimer & Hdom & Hinv & Hshown & Hpending);
  [|by destruct Hdom as [? [=]]];
  destruct v, sbv, needed, vis, timer;
  cbn in Hvis, Hsbv; try discriminate;
  try (by specialize (Htimer eq_refl)).

Ltac settle :=
  eexists; split; [reflexivity|];
  unfold consistent, showsInvisible;
  cbn [_visibility _visibleClassName _invisibleClassName _domNode
       _shouldBeVisible _isNeeded _isVisible _revealTimer
       applyVisibilitySetting with_domNode with_shouldBeVisible
       with_isNeeded with_isVisible with_revealTimer andb];
  rewrite ?append_empty;
  repeat split; try done; try (intros; by eauto).

Lemma setIsNeeded_consistent (isNeeded : bool) (c : t) :
  consistent c ->
  exists c',
    setIsNeeded isNeeded c = Some c' /\
    consistent c' /\
    _isNeeded c' = isNeeded /\
    _shouldBeVisible c' = _shouldBeVisible c /\
    _visibility c' = _visibility c /\
    _visibleClassName c' = _visibleClassName c /\
    _invisibleClassName c' = _invisibleClassName c.
Proof.
  cases c; destruct isNeeded;
    cbn [setIsNeeded ensureVisibility _hide _reveal setClassName Bool.eqb negb
         _visibility _visibleClassName _invisibleClassName _domNode
         _shouldBeVisible _isNeeded _isVisible _revealTimer
         with_domNode with_shouldBeVisible
         with_isNeeded with_isVisible with_revealTimer];
    settle.
Qed.

Lemma setShouldBeVisible_consistent (raw : bool) (c : t) :
  consistent c ->
  exists c',
    setShouldBeVisible raw c = Some c' /\
    consistent c' /\
    _isNeeded c' = _isNeeded c /\
    _shouldBeVisible c' = applyVisibilitySetting raw c /\
    _visibility c' = _visibility c /\
    _visibleClassName c' = _visibleClassName c /\
    _invisibleClassName c' = _invisibleClassName c.
Proof.
  cases c; destruct raw;
    cbn [setShouldBeVisible applyVisibilitySetting ensureVisibility _hide
         _reveal setClassName Bool.eqb negb
         _visibility _visibleClassName _invisibleClassName _domNode
         _shouldBeVisible _isNeeded _isVisible _revealTimer
         with_domNode with_shouldBeVisible
         with_isNeeded with_isVisible with_revealTimer];
    settle.
Qed.

Lemma revealTimerFires_consistent (c : t) :
  consistent c ->
  exists c',
    revealTimerFires c = Some c' /\
    consistent c' /\
    _revealTimer c' = false /\
    _isNeeded c' = _isNeeded c /\
    _shouldBeVisible c' = _shouldBeVisible c /\
    _isVisible c' = _isVisible c /\
    _visibility c' = _visibility c /\
    _visibleClassName c' = _visibleClassName c /\
    _invisibleClassName c' = _invisibleClassName c.
Proof.
  cases c;
    cbn [revealTimerFires setClassName negb
         _visibility _visibleClassName _invisibleClassName _domNode
         _shouldBeVisible _isNeeded _isVisible _revealTimer
         with_domNode with_shouldBeVisible
         with_isNeeded with_isVisible with_revealTimer];
    settle.
Qed.

Lemma setDomNode_new (visibility : Visibility)
    (visibleClassName invisibleClassName : string) :
  exists c,
    setDomNode (new visibility visibleClassName invisibleClassName) = Some c /\
    consistent c /\
    _isNeeded c = false /\
    _visibility c = visibility /\
    _visibleClassName c = visibleClassName /\
    _invisibleClassName c = invisibleClassName.
Proof.
  destruct visibility;
    cbn [setDomNode new setShouldBeVisible applyVisibilitySetting
         ensureVisibility _hide _reveal setClassName Bool.eqb negb
         _visibility _visibleClassName _invisibleClassName _domNode
         _shouldBeVisible _isNeeded _isVisible _revealTimer
         with_domNode with_shouldBeVisible
         with_isNeeded with_isVisible with_revealTimer];
    settle.
Qed.

(** The visible flag under the three settings. *)
Lemma consistent_visible (c : t) :
  consistent c ->
  match _visibility c with
  | Hidden => _isVisible c = false
  | Visible => _isVisible c = _isNeeded c
  | Auto => _isVisible c = _isNeeded c && _shouldBeVisible c
  end.
Proof.
  cases c; done.
Qed.

End VisibilityFacts.

Module WidgetFacts.
Import VisibilityController AbstractScrollbar VisibilityFacts.

Ltac parts :=
  unfold inSync, upToDate;
  cbn [_lazyRender _scrollbarState _visibilityController _shouldRender
       rendered with_visibilityController fst snd];
  split_and?; try done.

Lemma setter_unchanged (s : Scrollbar.ScrollbarState) (x : Q) :
  ((Scrollbar.setVisibleSize x s).1 = false ->
   (Scrollbar.setVisibleSize x s).2 = s) /\
  ((Scrollbar.setScrollSize x s).1 = false ->
   (Scrollbar.setScrollSize x s).2 = s) /\
  ((Scrollbar.setScrollPosition x s).1 = false ->
   (Scrollbar.setScrollPosition x s).2 = s).
Proof.
  unfold Scrollbar.setVisibleSize, Scrollbar.setScrollSize,
    Scrollbar.setScrollPosition.
  repeat split; by destruct (negb _).
Qed.

Lemma render_inSync (a : t) :
  inSync a ->
  inSync (render a) /\ _shouldRender (render a) = false /\
  upToDate (render a) /\
  _scrollbarState (render a) = _scrollbarState a /\
  _visibilityController (render a) = _visibilityController a /\
  _lazyRender (render a) = _lazyRender a.
Proof.
  intros (Hc & Hn & Hr & Hup). unfold render.
  destruct (_shouldRender a) eqn:E; cbn [negb].
  - by parts.
  - specialize (Hup eq_refl). by parts.
Qed.

Lemma afterSetter_inSync (set : bool * Scrollbar.ScrollbarState) (a : t) :
  inSync a ->
  Scrollbar.reachable set.2 ->
  (set.1 = false -> set.2 = _scrollbarState a) ->
  exists r,
    afterSetter set a = Some r /\
    inSync r.2 /\
    r.1 = _shouldRender r.2 /\
    _scrollbarState r.2 = set.2 /\
    _lazyRender r.2 = _lazyRender a /\
    _visibility (_visibilityController r.2)
    = _visibility (_visibilityController a) /\
    (set.1 = true ->
     if _lazyRender a then r.1 = true else r.1 = false /\ upToDate r.2).
Proof.
  intros Hsync Hreach Hsame. pose proof Hsync as (Hc & Hn & Hr & Hup).
  unfold afterSetter. destruct set as [[] s']; cbn [fst snd] in *.
  - destruct (setIsNeeded_consistent (Scrollbar._computedIsNeeded s') _ Hc)
      as (c' & -> & Hc' & Hn' & _ & Hv & _).
    cbn [mbind option_bind _lazyRender]. eexists. split; [reflexivity|].
    cbn [fst snd].
    assert (inSync
              {| _lazyRender := _lazyRender a; _scrollbarState := s';
                 _visibilityController := c'; _shouldRender := true;
                 rendered := rendered a |}) as Hsync'.
    { by parts. }
    destruct (_lazyRender a) eqn:El; cbn [negb].
    + by parts.
    + destruct (render_inSync _ Hsync') as (H1 & H2 & H3 & H4 & H5 & H6).
      rewrite H2, H4, H5, H6. by parts.
  - specialize (Hsame eq_refl). subst s'. eexists. split; [reflexivity|].
    by parts.
Qed.

Lemma withController_inSync (c : VisibilityController.t) (a : t) :
  inSync a -> consistent c ->
  _isNeeded c = _isNeeded (_visibilityController a) ->
  inSync (with_visibilityController c a).
Proof.
  intros (Hc & Hn & Hr & Hup) Hc' Hn'. parts. by rewrite Hn'.
Qed.

Lemma new_inSync (options : VerticalScrollbar.IScrollableElementOptions) :
  exists a,
    VerticalScrollbar.new options = Some a /\ inSync a /\
    _visibility (_visibilityController a) = VerticalScrollbar.vertical options /\
    _lazyRender a = VerticalScrollbar.lazyRender options.
Proof.
  unfold VerticalScrollbar.new, _createDomNode, AbstractScrollbar.new.
  cbn [_visibilityController].
  destruct (setDomNode_new (VerticalScrollbar.vertical options)
              ("visible scrollbar " +:+ "vertical")
              ("invisible scrollbar " +:+ "vertical"))
    as (c & -> & Hc & Hn & Hv & _).
  cbn [mbind option_bind]. eexists. split; [reflexivity|].
  parts. constructor.
Qed.

(** Every method returns on a scrollbar that is in step, and leaves it in
    step. *)
Lemma methods_inSync (a : t) (x : Q) :
  inSync a ->
  (exists r, onElementSize x a = Some r /\ inSync r.2) /\
  (exists r, onElementScrollSize x a = Some r /\ inSync r.2) /\
  (exists r, onElementScrollPosition x a = Some r /\ inSync r.2) /\
  (exists a', beginReveal a = Some a' /\ inSync a') /\
  (exists a', beginHide a = Some a' /\ inSync a') /\
  (exists a', AbstractScrollbar.revealTimerFires a = Some a' /\ inSync a') /\
  inSync (render a).
Proof.
  intros Hsync. pose proof Hsync as (Hc & Hn & Hr & Hup).
  pose proof (setter_unchanged (_scrollbarState a) x) as (U1 & U2 & U3).
  split_and!.
  - destruct (afterSetter_inSync
                (Scrollbar.setVisibleSize x (_scrollbarState a)) a Hsync
                ltac:(by constructor) U1) as (r & H & Hs & _).
    by exists r.
  - destruct (afterSetter_inSync
                (Scrollbar.setScrollSize x (_scrollbarState a)) a Hsync
                ltac:(by constructor) U2) as (r & H & Hs & _).
    by exists r.
  - destruct (afterSetter_inSync
                (Scrollbar.setScrollPosition x (_scrollbarState a)) a Hsync
                ltac:(by constructor) U3) as (r & H & Hs & _).
    by exists r.
  - unfold beginReveal.
    destruct (setShouldBeVisible_consistent true _ Hc)
      as (c' & -> & Hc' & Hn' & _).
    eexists. split; [reflexivity|]. by apply withController_inSync.
  - unfold beginHide.
    destruct (setShouldBeVisible_consistent false _ Hc)
      as (c' & -> & Hc' & Hn' & _).
    eexists. split; [reflexivity|]. by apply withController_inSync.
  - unfold AbstractScrollbar.revealTimerFires.
    destruct (revealTimerFires_consistent _ Hc)
      as (c' & -> & Hc' & _ & Hn' & _).
    eexists. split; [reflexivity|]. by apply withController_inSync.
  - by apply render_inSync.
Qed.

Lemma reachable_inSync (a : t) : VerticalScrollbar.reachable a -> inSync a.
Proof.
  induction 1 as [options a H|x a r _ IH H|x a r _ IH H|x a r _ IH H
                 |a a' _ IH H|a a' _ IH H|a _ IH|a a' _ IH H].
  - destruct (new_inSync options) as (a0 & H0 & Hs & _). congruence.
  - destruct (methods_inSync a x IH) as ((r0 & H0 & Hs) & _). congruence.
  - destruct (methods_inSync a x IH) as (_ & (r0 & H0 & Hs) & _). congruence.
  - destruct (methods_inSync a x IH) as (_ & _ & (r0 & H0 & Hs) & _).
    congruence.
  - destruct (methods_inSync a 0 IH) as (_ & _ & _ & (r0 & H0 & Hs) & _).
    congruence.
  - destruct (methods_inSync a 0 IH) as (_ & _ & _ & _ & (r0 & H0 & Hs) & _).
    congruence.
  - by apply render_inSync.
  - destruct (methods_inSync a 0 IH)
      as (_ & _ & _ & _ & _ & (r0 & H0 & Hs) & _).
    congruence.
Qed.

End WidgetFacts.


Module SliderFacts.
Import Scrollbar ScrollbarFacts.
Local Open Scope Z_scope.


Lemma with_visibleSize_same (s : ScrollbarState) :
  with_visibleSize (_visibleSize s) s = s.
Proof. by destruct s. Qed.

Lemma with_scrollSize_same (s : ScrollbarState) :
  with_scrollSize (_scrollSize s) s = s.
Proof. by destruct s. Qed.


Lemma setVisibleSize_refresh (x : Q) (s : ScrollbarState) :
  reachable s ->
  (setVisibleSize x s).2
  = _refreshComputedValues (with_visibleSize (round x) s).
Proof.
  intros Hr. unfold setVisibleSize.
  destruct (_visibleSize s =? round x) eqn:E; cbn [negb snd]; [|done].
  apply Z.eqb_eq in E. rewrite <- E, with_visibleSize_same.
  symmetry. by apply reachable_refreshed.
Qed.

Lemma setScrollSize_refresh (x : Q) (s : ScrollbarState) :
  reachable s ->
  (setScrollSize x s).2
  = _refreshComputedValues (with_scrollSize (round x) s).
Proof.
  intros Hr. unfold setScrollSize.
  destruct (_scrollSize s =? round x) eqn:E; cbn [negb snd]; [|done].
  apply Z.eqb_eq in E. rewrite <- E, with_scrollSize_same.
  symmetry. by apply reachable_refreshed.
Qed.

Lemma inject_nonneg (z : Z) : 0 <= z -> (0 <= inject_Z z)%Q.
Proof. intros H. change 0%Q with (inject_Z 0). by rewrite <- Zle_Qle. Qed.

Lemma round_nonneg (x : Q) : (0 <= x)%Q -> 0 <= round x.
Proof.
  intros H. rewrite <- (round_inject_Z 0). by apply round_mono.
Qed.

(** *** The sizes *)

Lemma neededSlider_minimum (visibleSize scrollPosition rep : Z) (r : Q) :
  (0 <= r)%Q ->
  let slider := neededSlider visibleSize scrollPosition rep r in
  MINIMUM_SLIDER_SIZE <= round (fst slider) /\
  (0 <= scrollPosition -> 0 <= round (snd slider)).
Proof.
  intros Hr. unfold neededSlider.
  destruct (Qlt_le_dec _ (inject_Z MINIMUM_SLIDER_SIZE)) as [Hsmall|Hlarge];
    cbn [fst snd].
  - rewrite round_inject_Z. split; [lia|]. intros _.
    apply round_nonneg. destruct (Qlt_le_dec _ 0); [lra|done].
  - rewrite !round_inject_Z. rewrite <- Zle_Qle in Hlarge.
    split; [done|]. intros Hp. apply floor_nonneg.
    apply Qmult_le_0_compat; [by apply inject_nonneg|done].
Qed.

Lemma refreshed_sizes (s0 : ScrollbarState) :
  let s := _refreshComputedValues s0 in
  0 <= _computedRepresentableSize s /\
  0 <= _computedAvailableSize s /\
  (0 <= _arrowSize s -> _computedRepresentableSize s <= _computedAvailableSize s) /\
  (0 <= _computedRatio s)%Q /\
  if _computedIsNeeded s
  then _visibleSize s < _scrollSize s /\
       MINIMUM_SLIDER_SIZE <= _computedSliderSize s /\
       (0 <= _scrollPosition s -> 0 <= _computedSliderPosition s)
  else _scrollSize s <= _visibleSize s /\
       _computedSliderSize s = _computedRepresentableSize s /\
       _computedSliderPosition s = 0.
Proof.
  destruct s0 as [sb op ar vis sc pos ? ? ? ? ? ?].
  unfold _refreshComputedValues.
  cbn [_visibleSize _scrollSize _scrollPosition _computedRepresentableSize
       _computedAvailableSize _computedRatio _oppositeScrollbarSize
       _arrowSize _computedIsNeeded _computedSliderSize
       _computedSliderPosition].
  rewrite !round_inject_Z.
  pose proof (ratio_nonneg (Z.max 0 (Z.max 0 (vis - op) - 2 * ar)) sc
                ltac:(lia)) as Hr.
  split; [lia|]. split; [lia|]. split; [lia|]. split; [exact Hr|].
  destruct (vis <? sc) eqn:E; cbn [negb fst snd].
  - apply Z.ltb_lt in E. split; [done|].
    by apply neededSlider_minimum.
  - apply Z.ltb_ge in E. rewrite round_inject_Z. split; [done|]. split; [done|].
    apply (round_inject_Z 0).
Qed.

(** *** The slider follows the scroll position *)



(** *** Scrolling to a validated position *)




End SliderFacts.


Module LoadingFacts.
Import Configuration.

Lemma join_resolved {A} (m : gmap string A) :
  join (Resolved <$> m) = Resolved m.
Proof.
  unfold join. rewrite decide_True.
  - f_equal. apply map_eq. intros k. rewrite lookup_omap, lookup_fmap.
    by destruct (m !! k).
  - intros k p. rewrite lookup_fmap. destruct (m !! k); [|done].
    intros [= <-]. by eexists.
Qed.

Lemma join_rejected_iff {A} (m : gmap string (promise A)) :
  (exists err, join m = Rejected err) <->
  exists k err, m !! k = Some (Rejected err).
Proof.
  unfold join. destruct (decide _) as [H|H].
  - split; [by intros [err [=]]|].
    intros (k & err & Hk). by destruct (H k _ Hk) as [? [=]].
  - split; [intros _|by eauto].
    apply map_not_Forall in H; [|apply _].
    destruct H as (k & p & Hk & Hp). destruct p as [a|err].
    + exfalso. apply Hp. by eexists.
    + by exists k, err.
Qed.

Section Service.
Context {value : Type}.
Context (toWorkspaceRelativePath : uri -> string).
Context (newConfigFile : string -> @IConfigFile value).

(** The entry that the bulk fetch stores for a content. *)
Local Abbreviation store :=
  (fun (m : gmap string (promise (@IConfigFile value))) content =>
     <[toWorkspaceRelativePath (content_resource content) :=
         Resolved (newConfigFile (content_value content))]> m).

Lemma stored_lookup (contents : list IContent)
    (m : gmap string (promise (@IConfigFile value))) (k : string) :
  foldl store m contents !! k =
  match
    list_find (fun c => toWorkspaceRelativePath (content_resource c) = k)
      (reverse contents)
  with
  | Some (_, c) => Some (Resolved (newConfigFile (content_value c)))
  | None => m !! k
  end.
Proof.
  revert m. induction contents as [|c contents IH] using rev_ind; intros m.
  - done.
  - rewrite foldl_app, reverse_app. cbn [foldl reverse app].
    change (reverse [c]) with [c]. cbn [app list_find].
    destruct (decide (toWorkspaceRelativePath (content_resource c) = k))
      as [<-|Hne].
    + by rewrite lookup_insert_eq.
    + rewrite lookup_insert_ne by done. rewrite IH.
      by destruct (list_find _ (reverse contents)) as [[i c']|].
Qed.

Lemma stored_rejected (contents : list IContent)
    (m : gmap string (promise (@IConfigFile value))) (k : string)
    (err : reason) :
  foldl store m contents !! k = Some (Rejected err) ->
  m !! k = Some (Rejected err).
Proof.
  rewrite stored_lookup. by destruct (list_find _ _) as [[i c]|].
Qed.

Context (resolveStat : uri -> promise IStat).
Context (resolveContents : list uri -> promise (list IContent)).
Context (toResource : string -> uri).
Context (extname : string -> string).
Context (workspaceSettingsRootFolder : string).

Lemma load_fetched (sv : @service value) (p : promise unit) :
  bulkFetchFromWorkspacePromise sv = Some p ->
  loadWorkspaceConfiguration resolveStat resolveContents toResource
    toWorkspaceRelativePath extname newConfigFile
    workspaceSettingsRootFolder sv
  = (match p with
     | Resolved _ => join (workspaceFilePathToConfiguration sv)
     | Rejected err => Rejected err
     end, sv).
Proof using Type.
  intros E. unfold loadWorkspaceConfiguration. rewrite E. cbv zeta.
  rewrite E. by destruct p.
Qed.

Lemma load_first (sv : @service value) :
  bulkFetchFromWorkspacePromise sv = None ->
  loadWorkspaceConfiguration resolveStat resolveContents toResource
    toWorkspaceRelativePath extname newConfigFile
    workspaceSettingsRootFolder sv
  = let out := storeContents resolveStat resolveContents toResource
                 toWorkspaceRelativePath extname newConfigFile
                 workspaceSettingsRootFolder sv in
    (match out.1 with
     | Resolved _ => join (workspaceFilePathToConfiguration out.2)
     | Rejected err => Rejected err
     end, set_bulkFetch (Some out.1) out.2).
Proof using Type.
  intros E. unfold loadWorkspaceConfiguration. rewrite E.
  destruct (storeContents _ _ _ _ _ _ _ sv) as [p sv1].
  cbn [fst snd set_bulkFetch bulkFetchFromWorkspacePromise
       workspaceFilePathToConfiguration].
  by destruct p.
Qed.

End Service.

End LoadingFacts.


(** * Further properties *)

(** ** The tokenizer at the end of the stream *)

(** At the end of the stream [tokenize] reads nothing.  In the kinds
    [OpeningEndTag], [AttributeName] and [AttributeValue] it returns an
    empty token and leaves the state as it is, in [WithinTag] it also
    records the white space in [lastAttributeName]; in the other kinds it
    reaches [stream.next2()], which throws, and [OpeningStartTag] has
    emptied [lastTagName] by then.  The Razor tokenizer does the same. *)
Theorem tokenize_at_end_of_stream (st : State) (s : LineStream.t)
    (fuel : nat) :
  LineStream.eos s = true ->
  tokenize (S fuel) (mkWorld st s) =
  match kind st with
  | OpeningEndTag | AttributeName | AttributeValue =>
      (Ok (token (lit EmptyString)), mkWorld st s)
  | WithinTag =>
      (Ok (token (lit EmptyString)),
       mkWorld (set_lastAttributeName (Some EmptyString) st) s)
  | OpeningStartTag =>
      (Throw "Stream is at the end",
       mkWorld (set_lastTagName EmptyString st) s)
  | Content | WithinComment | WithinDoctype | WithinEmbeddedContent =>
      (Throw "Stream is at the end", mkWorld st s)
  end /\
  Razor.tokenize (S fuel) (mkWorld st s) = tokenize (S fuel) (mkWorld st s).
Proof.
  intros Heos. split; [by apply TokenizerFacts.tokenize_at_end|].
  apply TokenizerClaims.razor_refines_html. unfold peekIs.
  by rewrite (TokenizerFacts.eos_true_rest s Heos).
Qed.

Lemma tokenize_at_end_of_stream_witness :
  tokenize 1 (mkWorld (stateOfKind OpeningStartTag) (LineStream.mk "<" 1))
  = (Throw "Stream is at the end",
     mkWorld (set_lastTagName EmptyString (stateOfKind OpeningStartTag))
       (LineStream.mk "<" 1)) /\
  tokenize 1 (mkWorld (stateOfKind WithinTag) (LineStream.mk "<a" 2))
  = (Ok (token (lit EmptyString)),
     mkWorld (stateOfKind WithinTag) (LineStream.mk "<a" 2)).
Proof.
  split.
  - exact (proj1 (tokenize_at_end_of_stream (stateOfKind OpeningStartTag)
                    (LineStream.mk "<" 1) 0 eq_refl)).
  - exact (proj1 (tokenize_at_end_of_stream (stateOfKind WithinTag)
                    (LineStream.mk "<a" 2) 0 eq_refl)).
Defined.

(** ** Comments and document types *)

(** Inside a comment one call of [tokenize] returns the text up to the
    next [-->] as a [COMMENT] token, the whole rest of the line when there
    is none, and the [-->] itself as a delimiter when the stream is at it;
    only then the kind becomes [Content].  A document type is read in the
    same way up to the next [>]. *)
Theorem comment_and_doctype_text (st : State) (s : LineStream.t)
    (fuel : nat) :
  LineStream.eos s = false ->
  (kind st = WithinComment ->
   tokenize (S fuel) (mkWorld st s) =
   match JsString.indexOf "-->" (LineStream.rest s) with
   | Some 0 =>
       (Ok (delimiter DELIM_COMMENT),
        mkWorld (set_kind Content st) (LineStream.advanceBy 3 s))
   | Some i => (Ok (token COMMENT), mkWorld st (LineStream.advanceBy i s))
   | None =>
       (Ok (token COMMENT),
        mkWorld st
          (LineStream.advanceBy (JsString.length (LineStream.rest s)) s))
   end) /\
  (kind st = WithinDoctype ->
   tokenize (S fuel) (mkWorld st s) =
   match JsString.indexOf ">" (LineStream.rest s) with
   | Some 0 =>
       (Ok (delimiter DELIM_DOCTYPE),
        mkWorld (set_kind Content st) (LineStream.advanceBy 1 s))
   | Some i => (Ok (token DOCTYPE), mkWorld st (LineStream.advanceBy i s))
   | None =>
       (Ok (token DOCTYPE),
        mkWorld st
          (LineStream.advanceBy (JsString.length (LineStream.rest s)) s))
   end).
Proof.
  intros Heos. split.
  - by apply TokenizerFacts.comment_content.
  - by apply TokenizerFacts.doctype_content.
Qed.

Lemma comment_and_doctype_text_witness :
  tokenize 1 (mkWorld (stateOfKind WithinComment) (LineStream.mk "ab-->c" 0))
  = (Ok (token COMMENT),
     mkWorld (stateOfKind WithinComment) (LineStream.mk "ab-->c" 2)) /\
  tokenize 1 (mkWorld (stateOfKind WithinComment) (LineStream.mk "ab-->c" 2))
  = (Ok (delimiter DELIM_COMMENT),
     mkWorld (stateOfKind Content) (LineStream.mk "ab-->c" 5)).
Proof.
  split.
  - exact (proj1 (comment_and_doctype_text (stateOfKind WithinComment)
                    (LineStream.mk "ab-->c" 0) 0 eq_refl) eq_refl).
  - exact (proj1 (comment_and_doctype_text (stateOfKind WithinComment)
                    (LineStream.mk "ab-->c" 2) 0 eq_refl) eq_refl).
Defined.

(** ** A whole start tag *)

(** Three calls of [tokenize] read a start tag without attributes, [<],
    the element name and [>]: the tokens are a start delimiter, the tag
    token of the name in lower case and a start delimiter; afterwards
    [lastTagName] is the name in lower case, and the kind is
    [WithinEmbeddedContent] for [script] and [style] in any case of the
    letters, with [embeddedContentType] reset to [null], and [Content] for
    every other name. *)
Theorem start_tag_tokens (st : State) (s : LineStream.t) (c : ascii)
    (name' tail : string) (fuel : nat) :
  kind st = Content ->
  nameStart c = true ->
  allChars nameChar name' = true ->
  LineStream.rest s = String "<" (String c (name' +:+ String ">" tail)) ->
  tokenizeTimes (S fuel) 3 (mkWorld st s) =
  let lname := JsString.toLowerCase (String c name') in
  Some ([delimiter DELIM_START; token (escapeTagName lname);
         delimiter DELIM_START],
        mkWorld
          (mkState
             (if isScriptOrStyle lname then WithinEmbeddedContent else Content)
             lname None
             (if isScriptOrStyle lname then None else embeddedContentType st)
             (attributeValueQuote st) (attributeValue st))
          (LineStream.advanceBy (3 + JsString.length name') s)).
Proof. apply TokenizerFacts.start_tag. Qed.

Lemma start_tag_tokens_witness :
  tokenizeTimes 1 3
    (mkWorld (stateOfKind Content) (LineStream.mk "<SCRIPT>x" 0))
  = Some ([delimiter DELIM_START; token (getTag "script");
           delimiter DELIM_START],
          mkWorld
            (mkState WithinEmbeddedContent "script" None None EmptyString
               EmptyString)
            (LineStream.mk "<SCRIPT>x" 8)).
Proof.
  exact (start_tag_tokens (stateOfKind Content) (LineStream.mk "<SCRIPT>x" 0)
           "S" "CRIPT" "x" 0 eq_refl eq_refl eq_refl eq_refl).
Defined.

(** ** The type of the embedded content *)

(** [unquote] removes a double quote at the start and one at the end, and
    nothing else: a value that ends with a single quote keeps it, and the
    value that is just one double quote comes back unchanged, because
    [substring] swaps its arguments. *)
Theorem unquote_double_quotes_only (content : string) (c : ascii) :
  JsString.isChar dquote c = false ->
  unquote (String dquote (content +:+ str dquote)) = content /\
  unquote (String c content +:+ str dquote) = String c content /\
  unquote (String c content +:+ str squote)
  = String c content +:+ str squote /\
  unquote (str dquote) = str dquote.
Proof.
  intros Hc. split; [apply TokenizerFacts.unquote_quoted|].
  split; [by apply TokenizerFacts.unquote_closing|].
  split; [by apply TokenizerFacts.unquote_single|reflexivity].
Qed.

Lemma unquote_double_quotes_only_witness :
  unquote (String dquote ("ext/css" +:+ str dquote)) = "ext/css" /\
  unquote ("text/css" +:+ str dquote) = "text/css" /\
  unquote ("text/css" +:+ str squote) = "text/css" +:+ str squote /\
  unquote (str dquote) = str dquote.
Proof.
  exact (unquote_double_quotes_only "ext/css" "t" eq_refl).
Defined.



(** ** The Razor tokenizer before an at sign *)

(** Before an [@] the Razor tokenizer consumes the [@] and nothing more.
    When a [*] follows, the result has no token type and hands over to a
    C# comment; when a second [@] follows, the inherited tokenizer goes on
    behind the first one, so that in kind [Content] the two are one plain
    token; in every other case, also at the end of the line, the token is
    [EMBED_CS] and the result hands over to a C# statement.  The fields of
    the state are unchanged, and they are the parent of the C# state. *)
Theorem razor_at_sign (st : State) (s : LineStream.t) (r : string)
    (fuel : nat) :
  LineStream.rest s = String "@" r ->
  Razor.tokenize fuel (mkWorld st s) =
  (if JsString.startsWith "*" r then
     (Ok {| type := None; dontMergeWithPrev := false;
            nextState := Some (CSComment st "@") |},
      mkWorld st (LineStream.advanceBy 1 s))
   else if JsString.startsWith "@" r then
     tokenizeIn Razor.tokenizeOverride fuel
       (mkWorld st (LineStream.advanceBy 1 s))
   else
     (Ok {| type := Some EMBED_CS; dontMergeWithPrev := false;
            nextState := Some (CSStatement st 0 0 true true true false) |},
      mkWorld st (LineStream.advanceBy 1 s))) /\
  (kind st = Content -> JsString.startsWith "@" r = true ->
   Razor.tokenize (S fuel) (mkWorld st s) =
   (Ok (token (lit EmptyString)), mkWorld st (LineStream.advanceBy 2 s))).
Proof.
  intros Hrest. split.
  - unfold Razor.tokenize. rewrite (TokenizerFacts.override_at _ _ _ _ Hrest).
    cbv zeta. destruct r as [|c r']; [done|].
    cbn [JsString.startsWith]. rewrite !andb_true_r.
    by destruct (JsString.isChar "*" c), (JsString.isChar "@" c).
  - intros Hk (r' & -> & _)%JsStringFacts.startsWith_cons.
    by apply (TokenizerFacts.razor_escape_content st s r').
Qed.

Lemma razor_at_sign_witness :
  Razor.tokenize 2 (mkWorld (stateOfKind Content) (LineStream.mk "@*x" 0))
  = (Ok {| type := None; dontMergeWithPrev := false;
           nextState := Some (CSComment (stateOfKind Content) "@") |},
     mkWorld (stateOfKind Content) (LineStream.mk "@*x" 1)) /\
  Razor.tokenize 2 (mkWorld (stateOfKind Content) (LineStream.mk "a@@b" 1))
  = (Ok (token (lit EmptyString)),
     mkWorld (stateOfKind Content) (LineStream.mk "a@@b" 3)).
Proof.
  split.
  - exact (proj1 (razor_at_sign (stateOfKind Content)
                    (LineStream.mk "@*x" 0) "*x" 2 eq_refl)).
  - exact (proj2 (razor_at_sign (stateOfKind Content)
                    (LineStream.mk "a@@b" 1) "@b" 1 eq_refl)
             eq_refl eq_refl).
Defined.

(** One call of the Razor tokenizer on a stream that is not at its end
    returns a token and advances by at least one code unit, not beyond the
    end of the line; two nested activations are enough for it, as for the
    HTML tokenizer. *)
Theorem razor_tokenize_progress (st : State) (s : LineStream.t)
    (fuel : nat) :
  LineStream.eos s = false ->
  progress s (Razor.tokenize (S (S fuel)) (mkWorld st s)) /\
  Razor.tokenize (S (S fuel)) (mkWorld st s)
  = Razor.tokenize 2 (mkWorld st s).
Proof.
  intros Heos. split; [by apply TokenizerFacts.razor_progress|].
  apply TokenizerFacts.razor_depth.
Qed.

Lemma razor_tokenize_progress_witness :
  exists r st' n,
    Razor.tokenize 2
      (mkWorld (stateOfKind AttributeName) (LineStream.mk "@@=" 0))
    = (Ok r, mkWorld st' (LineStream.mk "@@=" n)) /\ 1 <= n <= 3.
Proof.
  destruct (razor_tokenize_progress (stateOfKind AttributeName)
              (LineStream.mk "@@=" 0) 0 eq_refl)
    as [(r & st' & n & H & Hn) _].
  by exists r, st', n.
Defined.

(** ** Invariants of the tokenizer states *)

(** In every state that the tokenizers reach from the initial state, a
    quote is pending only inside an attribute value: either
    [attributeValueQuote] and [attributeValue] are both empty, or the kind
    is [AttributeValue], the quote is a double or a single quote, and the
    value read so far starts with it.  The fall through behind the [type]
    attribute, which would leave the quote behind in kind [Content], is
    never taken, since [advanceUntilString] reads at least one code unit
    there. *)
Theorem pending_quote_invariant (st : State) :
  tokenizerState st -> quoteInvariant st.
Proof. apply TokenizerFacts.quote_invariant. Qed.

Lemma pending_quote_invariant_witness :
  quoteInvariant
    (this (tokenize 2
             (mkWorld (mkState AttributeValue EmptyString (Some "a") None
                         EmptyString EmptyString)
                (LineStream.mk (str dquote +:+ "x") 0))).2) /\
  quoteInvariant
    (this (tokenize 2
             (mkWorld (stateOfKind Content) (LineStream.mk "<a" 0))).2).
Proof.
  split.
  - right. repeat split.
  - exact (pending_quote_invariant _
             (tokenizerState_html 2 _ (LineStream.mk "<a" 0)
                tokenizerState_initial)).
Defined.

(** The name of a tag token, of a start tag or of an end tag and of
    either tokenizer, is not empty and consists of the lower-case letters
    [a] to [z], digits and dashes. *)
Theorem tag_token_name (razor : bool) (fuel : nat) (w : world)
    (r : ITokenizationResult) (name : string) :
  ((if razor then Razor.tokenize fuel else tokenize fuel) w).1 = Ok r ->
  type r = Some (getTag name) ->
  allChars tagTokenChar name = true /\ name <> EmptyString.
Proof.
  destruct razor.
  - unfold Razor.tokenize. apply TokenizerFacts.override_tagToken.
    apply TokenizerFacts.tokenizeIn_tagToken.
    apply TokenizerFacts.override_tagToken.
  - unfold tokenize.
    by apply (TokenizerFacts.tokenizeIn_tagToken (fun X => X)).
Qed.

Lemma tag_token_name_witness :
  (tokenize 1
     (mkWorld (stateOfKind OpeningStartTag) (LineStream.mk "<A:b_C.d>" 1))).1
  = Ok (token (getTag "a-b-c-d")) /\
  allChars tagTokenChar "a-b-c-d" = true.
Proof.
  assert ((tokenize 1
             (mkWorld (stateOfKind OpeningStartTag)
                (LineStream.mk "<A:b_C.d>" 1))).1
          = Ok (token (getTag "a-b-c-d"))) as H
    by (vm_compute; reflexivity).
  split; [exact H|].
  exact (proj1 (tag_token_name false 1 _ _ "a-b-c-d" H eq_refl)).
Defined.

(** ** Leaving the nested mode *)

(** In every state that the tokenizers reach: when the line contains the
    closing tag of [lastTagName] in some case of the letters,
    [getLeavingNestedModeData] of the HTML and of the Razor mode return a
    result, both with the same two buffers, and the line is split at that
    closing tag or before it. *)
Theorem closing_tag_is_found (line : string) (st : State)
    (before after : string) :
  tokenizerState st ->
  splitAtClosingTag line (lastTagName st) = Some (before, after) ->
  exists d d',
    HTMLMode.getLeavingNestedModeData line st = Some (Some d) /\
    RAZORMode.getLeavingNestedModeData line st = Some (Some d') /\
    nestedModeBuffer d' = nestedModeBuffer d /\
    bufferAfterNestedMode d' = bufferAfterNestedMode d /\
    JsString.length (nestedModeBuffer d) <= JsString.length before.
Proof. apply LeavingFacts.leaving_complete. Qed.

Lemma closing_tag_is_found_witness :
  let st1 := this (tokenize 2 (mkWorld (stateOfKind Content)
                                 (LineStream.mk "<script>" 0))).2 in
  let st2 := this (tokenize 2 (mkWorld st1 (LineStream.mk "<script>" 1))).2 in
  lastTagName st2 = "script" /\
  exists d,
    HTMLMode.getLeavingNestedModeData "x;</SCRIPT>y" st2 = Some (Some d) /\
    JsString.length (nestedModeBuffer d) <= 2.
Proof.
  intros st1 st2. split; [reflexivity|].
  destruct (closing_tag_is_found "x;</SCRIPT>y" st2 "x;" "</SCRIPT>y"
              (tokenizerState_html 2 _ _
                 (tokenizerState_html 2 _ _ tokenizerState_initial))
              eq_refl)
    as (d & d' & H & _ & _ & _ & Hlen).
  by exists d.
Defined.

(** ** A whole line *)

(** When the repeated calls of [tokenize] on a line come to an end, the
    stream is exactly at the end of the line, the line itself is
    unchanged, and there are at most as many tokens as code units were
    left: no call reads beyond the line. *)
Theorem tokenizeLine_stops_at_the_end (fuel steps : nat) (st : State)
    (s : LineStream.t) (rs : list ITokenizationResult) (w' : world) :
  LineStream._pos s <= JsString.length (LineStream._source s) ->
  tokenizeLine (S (S fuel)) steps (mkWorld st s) = Some (rs, w') ->
  LineStream._source (stream w') = LineStream._source s /\
  LineStream._pos (stream w') = JsString.length (LineStream._source s) /\
  List.length rs <= remaining s.
Proof. apply TokenizerFacts.tokenizeLine_exact. Qed.

Lemma tokenizeLine_stops_at_the_end_witness :
  exists rs w',
    tokenizeLine 2 9 (mkWorld (stateOfKind Content)
                        (LineStream.mk "<a b=c>t" 0)) = Some (rs, w') /\
    LineStream._pos (stream w') = 8 /\ List.length rs <= 8.
Proof.
  destruct (tokenizeLine 2 9 (mkWorld (stateOfKind Content)
                                (LineStream.mk "<a b=c>t" 0)))
    as [[rs w']|] eqn:E; [|vm_compute in E; discriminate E].
  exists rs, w'. split; [reflexivity|].
  exact (proj2 (tokenizeLine_stops_at_the_end 0 9 (stateOfKind Content)
                  (LineStream.mk "<a b=c>t" 0) rs w'
                  ltac:(vm_compute; lia) E)).
Defined.


(** ** Entering the nested mode *)

Section ModeService.
Context {IMode Promise : Type}.
Context (isRegisteredMode : string -> bool).
Context (getMode : string -> option IMode).
Context (getOrCreateMode : string -> Promise).

Local Abbreviation getNestedMode :=
  (NestedMode.getNestedMode isRegisteredMode getMode getOrCreateMode).

(** After a [script] or [style] start tag without attributes the mode
    enters the nested mode, and the nested mode is the one of
    [text/javascript] or of [text/css], by the name of the tag in lower
    case, or the one of [text/plain] when the mode service has none for
    it; no mode is reported missing. *)
Theorem nested_mode_of_start_tag (st : State) (s : LineStream.t) (c : ascii)
    (name' tail : string) (fuel : nat) (cls : stateClass) :
  kind st = Content ->
  nameStart c = true ->
  allChars nameChar name' = true ->
  LineStream.rest s = String "<" (String c (name' +:+ String ">" tail)) ->
  isScriptOrStyle (JsString.toLowerCase (String c name')) = true ->
  exists rs st',
    tokenizeTimes (S fuel) 3 (mkWorld st s)
    = Some (rs, mkWorld st'
                  (LineStream.advanceBy (3 + JsString.length name') s)) /\
    enterNestedMode (StateObject cls st') = true /\
    getNestedMode st' =
    {| NestedMode.mode :=
         match
           getMode
             (if JsString.eqb "script" (JsString.toLowerCase (String c name'))
              then "text/javascript" else "text/css")
         with
         | Some m => Some m
         | None => getMode "text/plain"
         end;
       NestedMode.missingModePromise := None |}.
Proof using Type.
  intros Hk Hc Hname Hrest Htag.
  rewrite (TokenizerFacts.start_tag st s c name' tail fuel Hk Hc Hname Hrest).
  cbv zeta. rewrite Htag. eexists _, _. split; [reflexivity|].
  split; [by apply bool_decide_eq_true_2|].
  unfold NestedMode.getNestedMode. cbn [embeddedContentType lastTagName].
  unfold isScriptOrStyle in Htag.
  destruct (JsString.eqb "script" _); cbn [fst snd]; [done|].
  cbn [orb] in Htag. by rewrite Htag.
Qed.


End ModeService.

Lemma nested_mode_of_start_tag_witness :
  let getMode := fun mime : string =>
    if decide (mime = "text/css") then Some 1 else
    if decide (mime = "text/plain") then Some 0 else None in
  exists rs st',
    tokenizeTimes 1 3
      (mkWorld (stateOfKind Content) (LineStream.mk "<Style>p{}" 0))
    = Some (rs, mkWorld st' (LineStream.mk "<Style>p{}" 7)) /\
    NestedMode.mode
      (NestedMode.getNestedMode (fun _ => false) getMode (fun _ => tt) st')
    = Some 1.
Proof.
  intros getMode.
  destruct (nested_mode_of_start_tag (fun _ => false) getMode (fun _ => tt)
              (stateOfKind Content) (LineStream.mk "<Style>p{}" 0)
              "S" "tyle" "p{}" 0 StateClass eq_refl eq_refl eq_refl eq_refl
              eq_refl)
    as (rs & st' & Hrun & _ & Hmode).
  exists rs, st'. split; [exact Hrun|]. by rewrite Hmode.
Defined.



(** ** The sizes of the slider *)



(** ** The slider follows the scroll position *)



(** ** Scrolling to a validated position *)



(** ** The scrollbar widget *)

(** On a vertical scrollbar, from its construction on, no method of
    [IScrollbar] that changes the sizes, the position or the visibility,
    nor the reveal timer, fails for want of a DOM node: each of them
    returns. *)
Theorem scrollbar_methods_return (a : AbstractScrollbar.t) (x : Q) :
  VerticalScrollbar.reachable a ->
  is_Some (AbstractScrollbar.onElementSize x a) /\
  is_Some (AbstractScrollbar.onElementScrollSize x a) /\
  is_Some (AbstractScrollbar.onElementScrollPosition x a) /\
  is_Some (AbstractScrollbar.beginReveal a) /\
  is_Some (AbstractScrollbar.beginHide a) /\
  is_Some (AbstractScrollbar.revealTimerFires a).
Proof.
  intros Hsync%WidgetFacts.reachable_inSync.
  destruct (WidgetFacts.methods_inSync a x Hsync)
    as ((? & -> & _) & (? & -> & _) & (? & -> & _) & (? & -> & _)
        & (? & -> & _) & (? & -> & _) & _).
  by repeat split.
Qed.

(** The constructor returns as well. *)
Lemma verticalScrollbar_new_returns
    (options : VerticalScrollbar.IScrollableElementOptions) :
  is_Some (VerticalScrollbar.new options).
Proof.
  destruct (WidgetFacts.new_inSync options) as (a & -> & _). by eexists.
Qed.

Lemma scrollbar_methods_return_witness :
  exists a,
    VerticalScrollbar.new
      (VerticalScrollbar.mkOptions false 11 VisibilityController.Auto 10 false)
    = Some a /\
    is_Some (AbstractScrollbar.onElementSize 100 a) /\
    is_Some (AbstractScrollbar.beginReveal a).
Proof.
  eexists. split; [reflexivity|].
  pose proof (scrollbar_methods_return _ 100
                (VerticalScrollbar.reachable_new
                   (VerticalScrollbar.mkOptions false 11
                      VisibilityController.Auto 10 false) _ eq_refl))
    as (H1 & _ & _ & H2 & _).
  split; [exact H1|exact H2].
Defined.

(** On a vertical scrollbar the visibility controller knows whether the
    scrollbar is needed, and the scrollbar is visible exactly when it is
    needed and requested to be visible: never with the setting [Hidden],
    whenever it is needed with the setting [Visible].  A visible scrollbar
    belongs to contents that are larger than the visible size. *)
Theorem scrollbar_visible_when_needed (a : AbstractScrollbar.t) :
  VerticalScrollbar.reachable a ->
  let c := AbstractScrollbar._visibilityController a in
  let s := AbstractScrollbar._scrollbarState a in
  VisibilityController._isNeeded c = Scrollbar._computedIsNeeded s /\
  VisibilityController._isVisible c
  = Scrollbar._computedIsNeeded s && VisibilityController._shouldBeVisible c /\
  match VisibilityController._visibility c with
  | VisibilityController.Hidden => VisibilityController._isVisible c = false
  | VisibilityController.Visible =>
      VisibilityController._isVisible c = Scrollbar._computedIsNeeded s
  | VisibilityController.Auto => True
  end /\
  (VisibilityController._isVisible c = true ->
   (Scrollbar._visibleSize s < Scrollbar._scrollSize s)%Z).
Proof.
  intros (Hc & Hn & Hr & _)%WidgetFacts.reachable_inSync c s.
  fold c in Hc, Hn. fold s in Hn, Hr.
  pose proof (VisibilityFacts.consistent_visible c Hc) as Hv.
  pose proof Hc as (Hvis & _).
  split; [done|]. split; [by rewrite <- Hn|]. split.
  - destruct (VisibilityController._visibility c); [done|done|].
    by rewrite <- Hn.
  - intros Hshown. rewrite Hshown, Hn in Hvis.
    pose proof (SliderFacts.refreshed_sizes s) as (_ & _ & _ & _ & Hs).
    rewrite (ScrollbarFacts.reachable_refreshed s Hr) in Hs.
    destruct (Scrollbar._computedIsNeeded s); [by destruct Hs|done].
Qed.

Lemma scrollbar_visible_when_needed_witness :
  exists a r r',
    VerticalScrollbar.new
      (VerticalScrollbar.mkOptions false 0 VisibilityController.Visible 10
         false) = Some a /\
    AbstractScrollbar.onElementSize 100 a = Some r /\
    AbstractScrollbar.onElementScrollSize 1000 r.2 = Some r' /\
    VisibilityController._isVisible
      (AbstractScrollbar._visibilityController r'.2) = true /\
    (Scrollbar._visibleSize (AbstractScrollbar._scrollbarState r'.2)
     < Scrollbar._scrollSize (AbstractScrollbar._scrollbarState r'.2))%Z.
Proof.
  destruct (VerticalScrollbar.new
              (VerticalScrollbar.mkOptions false 0 VisibilityController.Visible
                 10 false)) as [a|] eqn:Ea;
    [|vm_compute in Ea; discriminate Ea].
  pose proof (VerticalScrollbar.reachable_new _ a Ea) as Ha.
  vm_compute in Ea. injection Ea as <-.
  match type of Ha with
  | VerticalScrollbar.reachable ?a0 =>
      destruct (AbstractScrollbar.onElementSize 100 a0) as [r|] eqn:Er;
        [|vm_compute in Er; discriminate Er]
  end.
  pose proof (VerticalScrollbar.reachable_onElementSize 100 _ r Ha Er) as Hr.
  vm_compute in Er. injection Er as <-.
  match type of Hr with
  | VerticalScrollbar.reachable ?a0 =>
      destruct (AbstractScrollbar.onElementScrollSize 1000 a0) as [r'|] eqn:Er';
        [|vm_compute in Er'; discriminate Er']
  end.
  pose proof (VerticalScrollbar.reachable_onElementScrollSize 1000 _ r' Hr Er')
    as Hr'.
  vm_compute in Er'. injection Er' as <-.
  eexists _, _, _. split; [reflexivity|]. split; [reflexivity|].
  split; [reflexivity|]. split; [reflexivity|].
  exact (proj2 (proj2 (proj2 (scrollbar_visible_when_needed _ Hr')))
           eq_refl).
Defined.

(** On a vertical scrollbar the class name of the DOM node follows the
    visible flag: the node of an invisible scrollbar has the invisible
    class name, with or without [fade]; a reveal is pending only for a
    visible scrollbar, and once its timer has run the node of a visible
    scrollbar has the visible class name. *)
Theorem scrollbar_class_name (a : AbstractScrollbar.t) :
  VerticalScrollbar.reachable a ->
  let c := AbstractScrollbar._visibilityController a in
  (VisibilityController._revealTimer c = true ->
   VisibilityController._isVisible c = true) /\
  if VisibilityController._isVisible c
     && negb (VisibilityController._revealTimer c)
  then VisibilityController._domNode c
       = Some (VisibilityController._visibleClassName c)
  else VisibilityController.showsInvisible c.
Proof.
  intros (Hc & _)%WidgetFacts.reachable_inSync c. fold c in Hc.
  destruct Hc as (_ & _ & Htimer & _ & Hinv & Hshown & Hpending).
  split; [done|].
  destruct (VisibilityController._isVisible c),
    (VisibilityController._revealTimer c); cbn [andb negb]; by eauto.
Qed.

Lemma scrollbar_class_name_witness :
  exists a a',
    VerticalScrollbar.new
      (VerticalScrollbar.mkOptions true 0 VisibilityController.Auto 10 false)
    = Some a /\
    AbstractScrollbar.beginReveal a = Some a' /\
    VisibilityController._domNode (AbstractScrollbar._visibilityController a')
    = Some "invisible scrollbar vertical" /\
    VisibilityController.showsInvisible
      (AbstractScrollbar._visibilityController a').
Proof.
  eexists _, _. split; [reflexivity|]. split; [reflexivity|].
  split; [reflexivity|].
  exact (proj2 (scrollbar_class_name _
                  (VerticalScrollbar.reachable_beginReveal _ _
                     (VerticalScrollbar.reachable_new
                        (VerticalScrollbar.mkOptions true 0
                           VisibilityController.Auto 10 false) _ eq_refl)
                     eq_refl))).
Defined.

(** On a vertical scrollbar, whenever [_shouldRender] is false the last
    rendering shows the current sizes and position of the slider.  The
    three update methods return the [_shouldRender] they leave behind: when
    the state of the scrollbar has changed, that is [true] with lazy
    rendering, and without it the scrollbar has been rendered at once and
    the answer is [false]. *)
Theorem scrollbar_rendering (a : AbstractScrollbar.t) (x : Q)
    (r : bool * AbstractScrollbar.t) :
  VerticalScrollbar.reachable a ->
  AbstractScrollbar.onElementSize x a = Some r \/
  AbstractScrollbar.onElementScrollSize x a = Some r \/
  AbstractScrollbar.onElementScrollPosition x a = Some r ->
  (AbstractScrollbar._shouldRender a = false -> AbstractScrollbar.upToDate a) /\
  r.1 = AbstractScrollbar._shouldRender r.2 /\
  (AbstractScrollbar._scrollbarState r.2 <> AbstractScrollbar._scrollbarState a ->
   if AbstractScrollbar._lazyRender a then r.1 = true
   else r.1 = false /\ AbstractScrollbar.upToDate r.2).
Proof.
  intros Hsync%WidgetFacts.reachable_inSync Hcall.
  pose proof Hsync as (_ & _ & Hr & Hup). split; [done|].
  pose proof (WidgetFacts.setter_unchanged
                (AbstractScrollbar._scrollbarState a) x) as (U1 & U2 & U3).
  assert (exists set,
            AbstractScrollbar.afterSetter set a = Some r /\
            Scrollbar.reachable set.2 /\
            (set.1 = false -> set.2 = AbstractScrollbar._scrollbarState a))
    as (set & Hset & Hreach & Hsame).
  { destruct Hcall as [H|[H|H]]; eexists; (split; [exact H|]);
      (split; [by constructor|done]). }
  destruct (WidgetFacts.afterSetter_inSync set a Hsync Hreach Hsame)
    as (r0 & Hr0 & _ & H1 & Hstate & _ & _ & Hchanged).
  rewrite Hset in Hr0. injection Hr0 as <-. split; [done|].
  intros Hne. apply Hchanged. destruct set.1; [done|].
  exfalso. apply Hne. rewrite Hstate. by apply Hsame.
Qed.

Lemma scrollbar_rendering_witness :
  exists a r,
    VerticalScrollbar.new
      (VerticalScrollbar.mkOptions false 0 VisibilityController.Auto 10 false)
    = Some a /\
    AbstractScrollbar.onElementSize 100 a = Some r /\
    r.1 = false /\
    AbstractScrollbar.rendered r.2
    = Some ((100, 10), (100, 0))%Z.
Proof.
  eexists _, _. split; [reflexivity|]. split; [reflexivity|].
  split; [reflexivity|].
  exact (proj2 (proj2 (proj2
           (scrollbar_rendering _ 100 _
              (VerticalScrollbar.reachable_new
                 (VerticalScrollbar.mkOptions false 0
                    VisibilityController.Auto 10 false) _ eq_refl)
              (or_introl eq_refl))) ltac:(discriminate))).
Defined.


(** ** Loading the workspace configuration *)

Section Loading.
Context {value : Type}.
Context (resolveStat resolveStat' : uri -> promise IStat).
Context (resolveContents resolveContents'
          : list uri -> promise (list IContent)).
Context (toResource : string -> uri).
Context (toWorkspaceRelativePath : uri -> string).
Context (extname : string -> string).
Context (newConfigFile : string -> @IConfigFile value).
Context (consolidate : gmap string (@IConfigFile value) -> @consolidatedT value).
Context (getDefaultValues : loc).
Context (workspaceSettingsRootFolder : string).
Context (parseErrorsValue : list string -> value).

Local Abbreviation loadWorkspaceConfiguration :=
  (loadWorkspaceConfiguration resolveStat resolveContents toResource
     toWorkspaceRelativePath extname newConfigFile
     workspaceSettingsRootFolder).
Local Abbreviation doLoadConfiguration :=
  (doLoadConfiguration resolveStat resolveContents toResource
     toWorkspaceRelativePath extname newConfigFile consolidate
     getDefaultValues workspaceSettingsRootFolder parseErrorsValue).

(** The files of the workspace are fetched once.  A second call of
    [loadWorkspaceConfiguration] returns what the first one has returned
    and leaves the service as it is, whatever [resolveStat] and
    [resolveContents] would answer by then. *)
Theorem workspace_files_fetched_once (sv : @service value) :
  Configuration.loadWorkspaceConfiguration resolveStat' resolveContents'
    toResource toWorkspaceRelativePath extname newConfigFile
    workspaceSettingsRootFolder (loadWorkspaceConfiguration sv).2
  = loadWorkspaceConfiguration sv.
Proof using Type.
  destruct (bulkFetchFromWorkspacePromise sv) as [p|] eqn:E.
  - rewrite (LoadingFacts.load_fetched _ _ resolveStat resolveContents _ _ _
               sv p E).
    cbn [snd]. by apply LoadingFacts.load_fetched.
  - rewrite (LoadingFacts.load_first _ _ resolveStat resolveContents _ _ _
               sv E).
    cbv zeta. cbn [snd].
    destruct (storeContents _ _ _ _ _ _ _ sv) as [p sv1]. cbn [fst snd].
    by rewrite (LoadingFacts.load_fetched _ _ resolveStat' resolveContents'
                  _ _ _ (set_bulkFetch (Some p) sv1) p eq_refl).
Qed.

(** On a service that has not fetched yet and whose configuration files
    are all resolved, [loadWorkspaceConfiguration] rejects in one case
    only: the stat of the settings folder is rejected with a falsy reason.
    Every other failure, of the stat, of its children or of
    [resolveContents], ends in a resolved promise. *)
Theorem workspace_load_rejects_only_on_falsy_reason (sv : @service value) :
  bulkFetchFromWorkspacePromise sv = None ->
  map_Forall (fun _ p => is_Some (value_of p))
    (workspaceFilePathToConfiguration sv) ->
  (exists err, (loadWorkspaceConfiguration sv).1 = Rejected err) <->
  resolveStat (toResource workspaceSettingsRootFolder) = Rejected Falsy.
Proof using Type.
  intros Hnone Hfiles.
  assert (forall contents,
            join (foldl
                    (fun m content =>
                       <[toWorkspaceRelativePath (content_resource content) :=
                           Resolved (newConfigFile (content_value content))]> m)
                    (workspaceFilePathToConfiguration sv) contents)
            = Resolved
                (omap value_of
                   (foldl
                      (fun m content =>
                         <[toWorkspaceRelativePath (content_resource content)
                           := Resolved (newConfigFile (content_value content))]>
                           m)
                      (workspaceFilePathToConfiguration sv) contents)))
    as Hjoin.
  { intros contents. unfold join. rewrite decide_True; [done|].
    intros k p Hk. destruct p as [f|err]; [by eexists|].
    apply LoadingFacts.stored_rejected in Hk.
    by destruct (Hfiles k _ Hk) as [? [=]]. }
  pose proof (Hjoin []) as Hjoin0. cbn [foldl] in Hjoin0.
  rewrite (LoadingFacts.load_first _ _ resolveStat resolveContents _ _ _
             sv Hnone).
  cbv zeta. cbn [fst]. unfold storeContents, fetchContents.
  destruct (resolveStat (toResource workspaceSettingsRootFolder))
    as [stat|[|msg]].
  - destruct (isDirectory stat); cbn [negb].
    + destruct (children stat) as [cs|].
      * destruct (resolveContents _) as [contents|err];
          cbn [fst snd set_files workspaceFilePathToConfiguration].
        -- rewrite Hjoin. split; [by intros [? [=]]|done].
        -- rewrite Hjoin0. split; [by intros [? [=]]|done].
      * cbn [fst snd]. rewrite Hjoin0. split; [by intros [? [=]]|done].
    + cbn [fst snd foldl set_files workspaceFilePathToConfiguration].
      rewrite Hjoin0. split; [by intros [? [=]]|done].
  - cbn. split; [done|]. by eexists.
  - cbn [isTruthy fst snd foldl set_files workspaceFilePathToConfiguration].
    rewrite Hjoin0. split; [by intros [? [=]]|done].
Qed.

(** When the settings folder is a directory whose [.json] children are
    read, a service without configuration files loads one file for every
    path among the contents, the file of the last content with that path,
    and no other file. *)
Theorem workspace_files_loaded (sv : @service value) (stat : IStat)
    (cs : list uri) (contents : list IContent) :
  bulkFetchFromWorkspacePromise sv = None ->
  workspaceFilePathToConfiguration sv = ∅ ->
  resolveStat (toResource workspaceSettingsRootFolder) = Resolved stat ->
  isDirectory stat = true ->
  children stat = Some cs ->
  resolveContents (filter (fun r => extname r = ".json") cs)
  = Resolved contents ->
  exists files,
    (loadWorkspaceConfiguration sv).1 = Resolved files /\
    forall path,
      files !! path =
      match
        list_find
          (fun c => toWorkspaceRelativePath (content_resource c) = path)
          (reverse contents)
      with
      | Some (_, c) => Some (newConfigFile (content_value c))
      | None => None
      end.
Proof using Type.
  intros Hnone Hfiles Hstat Hdir Hcs Hcontents.
  unfold Configuration.loadWorkspaceConfiguration, storeContents,
    fetchContents.
  rewrite Hnone, Hstat, Hdir, Hcs, Hcontents, Hfiles.
  cbn [negb set_bulkFetch set_files bulkFetchFromWorkspacePromise
       workspaceFilePathToConfiguration fst].
  unfold join. rewrite decide_True.
  - eexists. split; [reflexivity|]. intros path.
    rewrite lookup_omap, LoadingFacts.stored_lookup.
    by destruct (list_find _ _) as [[i c]|].
  - intros k p Hk. destruct p as [f|err]; [by eexists|].
    by apply LoadingFacts.stored_rejected in Hk.
Qed.


End Loading.

Lemma workspace_load_rejects_only_on_falsy_reason_witness :
  (exists err, (loadWithoutFolder Falsy).1 = Rejected err) /\
  ~ (exists err, (loadWithoutFolder (ErrorObject "ENOENT")).1 = Rejected err).
Proof.
  split.
  - apply (workspace_load_rejects_only_on_falsy_reason
             (fun _ => Rejected Falsy) (fun _ => Resolved []) (fun path => path)
             (fun resource => resource) (fun path => path)
             (fun _ => mkConfigFile ∅ false) ".vscode" freshService eq_refl
             (map_Forall_empty _)).
    reflexivity.
  - intros H.
    apply (workspace_load_rejects_only_on_falsy_reason
             (fun _ => Rejected (ErrorObject "ENOENT")) (fun _ => Resolved [])
             (fun path => path) (fun resource => resource) (fun path => path)
             (fun _ => mkConfigFile ∅ false) ".vscode" freshService eq_refl
             (map_Forall_empty _)) in H.
    discriminate H.
Defined.

Lemma workspace_files_loaded_witness :
  exists files,
    (loadWorkspaceConfiguration
       (fun _ => Resolved (mkStat ".vscode" true
                             (Some [".vscode/settings.json"; ".vscode/x.txt"])))
       (fun rs => Resolved (map (fun r => mkContent r "{}") rs))
       (fun path => path) (fun resource => resource)
       (fun path => if decide (path = ".vscode/settings.json")
                    then ".json" else ".txt")
       (fun _ => mkConfigFile ∅ false) ".vscode" freshService).1
    = Resolved files /\
    files !! ".vscode/settings.json" = Some (mkConfigFile ∅ false) /\
    files !! ".vscode/x.txt" = None.
Proof.
  destruct (workspace_files_loaded
              (fun _ => Resolved
                          (mkStat ".vscode" true
                             (Some [".vscode/settings.json"; ".vscode/x.txt"])))
              (fun rs => Resolved (map (fun r => mkContent r "{}") rs))
              (fun path => path) (fun resource => resource)
              (fun path => if decide (path = ".vscode/settings.json")
                           then ".json" else ".txt")
              (fun _ => mkConfigFile (∅ : gmap string Z) false) ".vscode"
              freshService _ _ _ eq_refl eq_refl eq_refl eq_refl eq_refl
              eq_refl)
    as (files & Hload & Hfiles).
  exists files. split; [exact Hload|].
  split; rewrite Hfiles; reflexivity.
Defined.


